(** * TASA synchronization engine

    A shallow embedding of the engine of the TASA repository
    ([src/db_act.py] and [src/prog.py], with the input checks of
    [src/helper.py]): the per-project SQLite store with
    its run log, staging table and the three environments' tables, the
    schema manager ([create_db]), the environment copy operator
    ([copy_table]), the pull engine ([get_arva_records],
    [insert_arva_records]) and the push engine ([process_records],
    [process_record], [update_record_status]).

    Python code that threads a cursor, raises and catches exceptions and
    reports through a callback is written in a small reader/state/exception
    monad [M]; SQL statements are functions on the tables of the store. *)

From stdpp Require Import base option list gmap strings pretty.
From Stdlib Require Import ZArith Ascii.
From Stdlib Require OrderedTypeEx.

Local Open Scope Z_scope.

(* ================================================================== *)
(** * Data model *)
(* ================================================================== *)

(** The three environments; the engine trusts the caller to pass one of
    [dev], [test], [prod]. *)
Inductive env := Dev | Test | Prod.

(** The five related-entity tables of an environment, in the order of the
    lists in [create_related_tables], [_delete_records] and [copy_table]. *)
Inductive related_kind :=
  Institution | LegalAct | PageContact | RelatedPages | Service.

Global Instance env_eq_dec : EqDecision env.
Proof. solve_decision. Defined.

Global Instance related_kind_eq_dec : EqDecision related_kind.
Proof. solve_decision. Defined.

Definition env_index (e : env) : nat :=
  match e with Dev => 0 | Test => 1 | Prod => 2 end.

Definition env_of_index (n : nat) : env :=
  match n with 0%nat => Dev | 1%nat => Test | _ => Prod end.

Global Instance env_countable : Countable env.
Proof. refine (inj_countable' env_index env_of_index _). by intros []. Defined.

Definition related_kind_index (k : related_kind) : nat :=
  match k with
  | Institution => 0 | LegalAct => 1 | PageContact => 2
  | RelatedPages => 3 | Service => 4
  end.

Definition related_kind_of_index (n : nat) : related_kind :=
  match n with
  | 0%nat => Institution | 1%nat => LegalAct | 2%nat => PageContact
  | 3%nat => RelatedPages | _ => Service
  end.

Global Instance related_kind_countable : Countable related_kind.
Proof.
  refine (inj_countable' related_kind_index related_kind_of_index _).
  by intros [].
Defined.

Definition env_name (e : env) : string :=
  match e with Dev => "dev" | Test => "test" | Prod => "prod" end.

Definition related_suffix (k : related_kind) : string :=
  match k with
  | Institution => "arva_institution"
  | LegalAct => "arva_legal_act"
  | PageContact => "arva_page_contact"
  | RelatedPages => "arva_related_pages"
  | Service => "arva_service"
  end.

(** [envs] of [create_env_tables] and [related_tables] of [copy_table]. *)
Definition envs : list env := [Dev; Test; Prod].

Definition related_tables : list related_kind :=
  [Institution; LegalAct; PageContact; RelatedPages; Service].

(** [f"{table_name}_{env}"] and [f"{env_table_name}_{suffix}"]. *)
Definition env_table_name (table_name : string) (e : env) : string :=
  table_name +:+ "_" +:+ env_name e.

Definition related_table_name (table_name : string) (e : env)
    (k : related_kind) : string :=
  env_table_name table_name e +:+ "_" +:+ related_suffix k.

(** A value stored in a column of a related table.  A REAL is carried as
    the bit pattern of its double; the engine only stores and copies it. *)
Inductive value :=
| VNull
| VInt (n : Z)
| VReal (bits : Z)
| VText (s : string).

Global Instance value_eq_dec : EqDecision value.
Proof. solve_decision. Defined.

(** The column names of the related tables, in declaration order
    ([create_related_tables]); this is what [PRAGMA table_info] lists. *)
Definition columns (k : related_kind) : list string :=
  match k with
  | Institution => ["id"; "pageId"; "name"; "url"; "isResponsible"]
  | LegalAct =>
      ["id"; "pageId"; "title"; "url"; "legalActType"; "globalId";
       "groupId"; "versionStartDate"]
  | PageContact =>
      ["id"; "contactId"; "pageId"; "role"; "firstName"; "lastName";
       "company"; "email"; "countryCode"; "nationalNumber"]
  | RelatedPages => ["id"; "pageId"; "title"; "locale"]
  | Service => ["id"; "pageId"; "name"; "url"]
  end.

(** A row of a related table: one value per column of [columns k]. *)
Definition row := list value.

(** Position of the first occurrence of a name in a column list. *)
Fixpoint position (c : string) (cols : list string) : option nat :=
  match cols with
  | [] => None
  | c' :: rest => if decide (c = c') then Some 0%nat else S <$> position c rest
  end.

(** The value a row holds in the column named [c]; NULL when the row is
    too short or the column unknown. *)
Definition column (k : related_kind) (c : string) (r : row) : value :=
  default VNull (i ← position c (columns k); r !! i).

(** The value that [INSERT INTO t (cols) ... vals] gives to column [c]:
    the value paired with the first occurrence of [c] in [cols], NULL for
    a column that is not listed. *)
Definition inserted_value (cols : list string) (vals : list value)
    (c : string) : value :=
  default VNull (i ← position c cols; vals !! i).

Definition make_row (k : related_kind) (cols : list string)
    (vals : list value) : row :=
  inserted_value cols vals <$> columns k.

(** [WHERE pageId = ?] with an integer parameter. *)
Definition page_id_is (k : related_kind) (p : Z) (r : row) : bool :=
  bool_decide (column k "pageId" r = VInt p).

(** A row of an environment's main table. *)
Record env_record := mk_env_record {
  exp_article_id : option Z;
  article_id : Z;
  locale : option string;
  title : option string;
  tags : option string;
  path : option string;
  content : option string;
  status : option string;
  modified_timestamp : option string
}.

Global Instance env_record_eq_dec : EqDecision env_record.
Proof. solve_decision. Defined.

(** A row of [last_run]. *)
Record run_row := mk_run_row {
  run_id : Z;
  last_sync_timestamp : option string;
  run_status : option string
}.

(** A row of the staging table [{project}_initial]. *)
Record staging_row := mk_staging_row {
  st_id : Z;
  st_locale : option string;
  st_title : option string;
  st_tags : option string;
  st_path : option string;
  st_content : option string
}.

(** The project store.  A table that does not exist is [None] (for
    [last_run] and the staging table) or has no entry in its map; a
    trigger exists when its environment is in [triggers]. *)
Record store := mk_store {
  last_run : option (list run_row);
  initial : option (list staging_row);
  mains : gmap env (list env_record);
  triggers : gset env;
  relateds : gmap (env * related_kind) (list row)
}.

Definition empty_store : store :=
  {| last_run := None; initial := None; mains := ∅; triggers := ∅;
     relateds := ∅ |}.

Definition set_last_run (t : option (list run_row)) (d : store) : store :=
  {| last_run := t; initial := initial d; mains := mains d;
     triggers := triggers d; relateds := relateds d |}.

Definition set_initial (t : option (list staging_row)) (d : store) : store :=
  {| last_run := last_run d; initial := t; mains := mains d;
     triggers := triggers d; relateds := relateds d |}.

Definition set_mains (m : gmap env (list env_record)) (d : store) : store :=
  {| last_run := last_run d; initial := initial d; mains := m;
     triggers := triggers d; relateds := relateds d |}.

Definition set_triggers (t : gset env) (d : store) : store :=
  {| last_run := last_run d; initial := initial d; mains := mains d;
     triggers := t; relateds := relateds d |}.

Definition set_relateds (m : gmap (env * related_kind) (list row))
    (d : store) : store :=
  {| last_run := last_run d; initial := initial d; mains := mains d;
     triggers := triggers d; relateds := m |}.

(* ================================================================== *)
(** * The remote API and the Python library *)
(* ================================================================== *)

(** A Python scalar of a request payload. *)
Inductive pyval :=
| PNone
| PBool (b : bool)
| PInt (n : Z)
| PFloat (bits : Z)
| PStr (s : string).

(** Python truthiness: [bool(v)], [not v]. *)
Definition truthy (v : pyval) : bool :=
  match v with
  | PNone => false
  | PBool b => b
  | PInt n => negb (n =? 0)
  | PFloat bits => negb (bits =? 0)
  | PStr s => negb (bool_decide (s = ""))
  end.

(** A value read back from the store, as the Python object that
    [fetchall] returns for it. *)
Definition of_value (v : value) : pyval :=
  match v with
  | VNull => PNone
  | VInt n => PInt n
  | VReal bits => PFloat bits
  | VText s => PStr s
  end.

Definition text_value (o : option string) : value :=
  match o with Some s => VText s | None => VNull end.

Definition int_value (o : option Z) : value :=
  match o with Some n => VInt n | None => VNull end.

Definition real_value (o : option Z) : value :=
  match o with Some bits => VReal bits | None => VNull end.

(** A key of a JSON object that should hold an object: missing, [null],
    the empty object, or an object with entries. *)
Inductive field (A : Type) :=
| Absent
| Null
| Empty
| Present (a : A).
Arguments Absent {A}.
Arguments Null {A}.
Arguments Empty {A}.
Arguments Present {A} a.

(** The page of the read query ([pages.single]); [pg_tags] holds the
    [title] of each tag, [None] for a title that is not a string. *)
Record page := mk_page {
  pg_id : Z;
  pg_locale : option string;
  pg_title : option string;
  pg_tags : list (option string);
  pg_path : option string;
  pg_content : option string
}.

Record institution := mk_institution {
  in_id : Z;
  in_name : option string;
  in_url : option string;
  in_isResponsible : option bool
}.

Record legal_act := mk_legal_act {
  la_id : Z;
  la_title : option string;
  la_url : option string;
  la_legalActType : option string;
  la_globalId : option Z;
  la_groupId : option Z;
  la_versionStartDate : option string
}.

Record page_contact := mk_page_contact {
  pc_id : Z;
  pc_contactId : option Z;
  pc_role : option string;
  pc_firstName : option string;
  pc_lastName : option string;
  pc_company : option string;
  pc_email : option string;
  pc_countryCode : option string;
  pc_nationalNumber : option string
}.

Record related_page := mk_related_page {
  rp_id : Z;
  rp_title : option string;
  rp_locale : option string
}.

Record service := mk_service {
  sv_id : Z;
  sv_name : option string;
  sv_url : option string
}.

(** The [data] object of the read query. *)
Record pull_data := mk_pull_data {
  single : option page;
  getArvaInstitutionsForPage : list institution;
  getLegalActsForPage : list legal_act;
  getArvaPageContactForPage : list page_contact;
  getRelatedPagesForPage : list related_page;
  getArvaServicesForPage : list service
}.

(** An entry of an [errors] array: its [message], if it has one. *)
Definition gql_error := option string.

(** The JSON body of a reply to the read query. *)
Record pull_body := mk_pull_body {
  pb_errors : option (list gql_error);
  pb_data : field pull_data
}.

(** [page.id] and [responseResult.message] of a create or update result. *)
Record page_result := mk_page_result {
  pr_page_id : Z;
  pr_message : option string
}.

(** [data.pages] of a mutation reply, with its [create] and [update]
    entries when it has them. *)
Record mutation_data := mk_mutation_data {
  md_create : option page_result;
  md_update : option page_result
}.

(** The JSON body of a reply to a mutation.  Its [data], when it is an
    object with entries, holds [pages] ([Present (Some _)], the reply to
    a create or update mutation) or other entries only ([Present None],
    the reply to a follow-up mutation). *)
Record mutation_body := mk_mutation_body {
  mb_errors : option (list gql_error);
  mb_data : field (option mutation_data)
}.

(** What [requests.post] gives: it raises, or returns a response with a
    status code, a text and a body that [response.json()] decodes
    ([None]: the body is not JSON). *)
Inductive http (A : Type) :=
| PostFailed (msg : string)
| Replied (status_code : Z) (text : string) (json : option A).
Arguments PostFailed {A} msg.
Arguments Replied {A} status_code text json.

(** The [variables] of the create and update mutations.  The constant
    entries ([description], [editor], [isPrivate], [isPublished]) are
    left out; [var_id] is the [id] added for an update. *)
Record variables := mk_variables {
  var_content : option string;
  var_locale : option string;
  var_path : option string;
  var_tags : list string;
  var_title : option string;
  var_id : option Z
}.

(** The payload of the follow-up mutation: per related kind a list of
    dictionaries, and the [pageId] added by [handle_follow_up_mutation]. *)
Record related_data := mk_related_data {
  institutionInput : list (list (string * pyval));
  legalActInput : list (list (string * pyval));
  pageContactInput : list (list (string * pyval));
  relatedPagesInput : list (list (string * pyval));
  serviceInput : list (list (string * pyval));
  rd_pageId : option Z
}.

Inductive mutation :=
| Create (v : variables)
| Update (v : variables)
| FollowUp (rd : related_data).

(** A Python [datetime] without microseconds. *)
Record datetime := mk_datetime {
  year : Z; month : Z; day : Z; hour : Z; minute : Z; second : Z
}.

(** Decimal rendering, zero-padded to [width] digits ([%04d], [%02d]). *)
Definition zero_pad (width : nat) (n : Z) : string :=
  let s := pretty n in
  String.concat "" (replicate (width - String.length s) "0") +:+ s.

(** The default [sqlite3] adapter of a [datetime] parameter:
    [isoformat(" ")]. *)
Definition adapt_datetime (d : datetime) : string :=
  zero_pad 4 (year d) +:+ "-" +:+ zero_pad 2 (month d) +:+ "-" +:+
  zero_pad 2 (day d) +:+ " " +:+ zero_pad 2 (hour d) +:+ ":" +:+
  zero_pad 2 (minute d) +:+ ":" +:+ zero_pad 2 (second d).

(** Everything outside the engine: whether the store file can be opened,
    the readings of [datetime('now')] (the [n]-th reading of a run is
    [clock n]), [datetime.strptime(_, "%Y-%m-%d %H:%M:%S")] ([None]: it
    raises [ValueError]), and the remote API, which answers the [n]-th
    request of a run.  [request_error_text n] is [str(error)] of the
    [requests] exception that [raise_for_status()] or [json()] raises
    on the reply to the [n]-th request, when one does.  [name_error] is
    SQLite's reading of a name that a CREATE statement interpolates:
    the message of its error when it does not take the text for the
    name of a table or trigger of the store (["unknown database a"]
    for [a.b_initial], a reserved name for [sqlite_x_initial]). *)
Record world := mk_world {
  can_connect : bool;
  request_error_text : nat -> string;
  name_error : string -> option string;
  clock : nat -> string;
  strptime : string -> option datetime;
  remote_query : nat -> Z -> http pull_body;
  remote_mutation : nat -> mutation -> http mutation_body
}.

(* ================================================================== *)
(** * Exceptions, state and the monad *)
(* ================================================================== *)

Inductive exn_class :=
| SqliteError
| RequestException
| ValueError
| IndexError
| KeyError
| TypeError
| AttributeError
| UnboundLocalError
| OverflowError
| RuntimeError.

Global Instance exn_class_eq_dec : EqDecision exn_class.
Proof. solve_decision. Defined.

(** An exception: its class and [str(error)]. *)
Record exn := mk_exn { exn_cls : exn_class; exn_msg : string }.

(** The state a run of the engine acts on: the committed store [disk],
    the open connection's view [work] (with uncommitted statements), the
    number of connections and cursors that are open, the messages given
    to the callback and to [print] (oldest first), and the number of
    clock readings and remote requests made so far. *)
Record state := mk_state {
  disk : store;
  work : store;
  open_conns : nat;
  open_cursors : nat;
  sink : list string;
  console : list string;
  ticks : nat;
  requests : nat
}.

Inductive result (A : Type) :=
| Ok (a : A)
| Raise (e : exn).
Arguments Ok {A} a.
Arguments Raise {A} e.

Definition M (A : Type) : Type := world -> state -> result A * state.

Global Instance M_ret : MRet M := λ A a _ s, (Ok a, s).

Global Instance M_bind : MBind M := λ A B f m w s,
  match m w s with
  | (Ok a, s') => f a w s'
  | (Raise e, s') => (Raise e, s')
  end.

Definition raise {A} (c : exn_class) (msg : string) : M A :=
  λ _ s, (Raise (mk_exn c msg), s).

(** [try: body  except <classes> as error: handler error]. *)
Definition try_except {A} (body : M A) (classes : list exn_class)
    (handler : exn -> M A) : M A :=
  λ w s,
    match body w s with
    | (Ok a, s') => (Ok a, s')
    | (Raise e, s') =>
        if bool_decide (exn_cls e ∈ classes) then handler e w s'
        else (Raise e, s')
    end.

(** [try: body  except Exception as error: handler error]. *)
Definition try_except_all {A} (body : M A) (handler : exn -> M A) : M A :=
  λ w s,
    match body w s with
    | (Ok a, s') => (Ok a, s')
    | (Raise e, s') => handler e w s'
    end.

(** [try: body  finally: fin]. *)
Definition try_finally {A} (body : M A) (fin : M unit) : M A :=
  λ w s,
    let '(r, s') := body w s in
    match fin w s' with
    | (Ok _, s'') => (r, s'')
    | (Raise e, s'') => (Raise e, s'')
    end.

(** [for x in l: body x]. *)
Fixpoint for_each {A} (l : list A) (body : A -> M unit) : M unit :=
  match l with
  | [] => mret tt
  | x :: rest => body x;; for_each rest body
  end.

Definition ask : M world := λ w s, (Ok w, s).

(** The updates of the state. *)
Definition with_work (d : store) (s : state) : state :=
  {| disk := disk s; work := d; open_conns := open_conns s;
     open_cursors := open_cursors s; sink := sink s; console := console s;
     ticks := ticks s; requests := requests s |}.

Definition with_disk (d : store) (s : state) : state :=
  {| disk := d; work := work s; open_conns := open_conns s;
     open_cursors := open_cursors s; sink := sink s; console := console s;
     ticks := ticks s; requests := requests s |}.

Definition with_handles (conns cursors : nat) (s : state) : state :=
  {| disk := disk s; work := work s; open_conns := conns;
     open_cursors := cursors; sink := sink s; console := console s;
     ticks := ticks s; requests := requests s |}.

Definition with_sink (msgs : list string) (s : state) : state :=
  {| disk := disk s; work := work s; open_conns := open_conns s;
     open_cursors := open_cursors s; sink := msgs; console := console s;
     ticks := ticks s; requests := requests s |}.

Definition with_console (msgs : list string) (s : state) : state :=
  {| disk := disk s; work := work s; open_conns := open_conns s;
     open_cursors := open_cursors s; sink := sink s; console := msgs;
     ticks := ticks s; requests := requests s |}.

Definition with_ticks (n : nat) (s : state) : state :=
  {| disk := disk s; work := work s; open_conns := open_conns s;
     open_cursors := open_cursors s; sink := sink s; console := console s;
     ticks := n; requests := requests s |}.

Definition with_requests (n : nat) (s : state) : state :=
  {| disk := disk s; work := work s; open_conns := open_conns s;
     open_cursors := open_cursors s; sink := sink s; console := console s;
     ticks := ticks s; requests := n |}.

Definition get_work : M store := λ _ s, (Ok (work s), s).

Definition put_work (d : store) : M unit :=
  λ _ s, (Ok tt, with_work d s).

(** The callback given by the front end. *)
Definition callback (msg : string) : M unit :=
  λ _ s, (Ok tt, with_sink (sink s ++ [msg]) s).

Definition print (msg : string) : M unit :=
  λ _ s, (Ok tt, with_console (console s ++ [msg]) s).

(** One evaluation of [datetime('now')]. *)
Definition sql_now : M string :=
  λ w s, (Ok (clock w (ticks s)), with_ticks (S (ticks s)) s).

(** The number of the next remote request, which it consumes. *)
Definition next_request : M nat :=
  λ _ s, (Ok (requests s), with_requests (S (requests s)) s).

(** [sqlite3.connect(db)]: the new connection sees the committed store. *)
Definition connect : M unit :=
  λ w s,
    if can_connect w then
      (Ok tt, with_handles (S (open_conns s)) (open_cursors s)
                (with_work (disk s) s))
    else (Raise (mk_exn SqliteError "unable to open database file"), s).

(** [conn.cursor()]. *)
Definition open_cursor : M unit :=
  λ _ s, (Ok tt, with_handles (open_conns s) (S (open_cursors s)) s).

(** [conn.commit()]. *)
Definition commit : M unit :=
  λ _ s, (Ok tt, with_disk (work s) s).

(** [cursor.close()]. *)
Definition cursor_close : M unit :=
  λ _ s, (Ok tt, with_handles (open_conns s) (pred (open_cursors s)) s).

(** [conn.close()]: what was not committed is dropped. *)
Definition conn_close : M unit :=
  λ _ s,
    (Ok tt, with_handles (pred (open_conns s)) (open_cursors s)
              (with_work (disk s) s)).

(** The double-quote character as a text. *)
Definition double_quote : string := String "034"%char EmptyString.

(** [str(error)] and [f"{x}"] for the values the messages print. *)
Definition str_exn (e : exn) : string := exn_msg e.

Definition str_int (n : Z) : string := pretty n.

Definition str_opt (o : option string) : string := default "None" o.

Definition str_opt_int (o : option Z) : string :=
  match o with Some n => pretty n | None => "None" end.

(** The range of an SQLite INTEGER. *)
Definition fits_int64 (n : Z) : bool :=
  (- 2 ^ 63 <=? n) && (n <? 2 ^ 63).

(** [values_fit]: every integer among the parameters is in that range.
    The parameters of [cursor.execute(sql, parameters)] are bound after
    the statement has been prepared (a missing table is reported
    first); a Python int outside the signed 64-bit range raises
    [OverflowError] and the statement does not run. *)
Definition values_fit (parameters : list value) : bool :=
  forallb (λ v, match v with VInt n => fits_int64 n | _ => true end)
    parameters.

Arguments values_fit : simpl never.

Definition bind_parameters (parameters : list value) : M unit :=
  if values_fit parameters then mret tt
  else raise OverflowError "Python int too large to convert to SQLite INTEGER".

(** SQLite parses a CREATE statement before it runs it: a name that it
    does not take for that of a table or trigger of the store ends the
    statement with an [sqlite3.Error]. *)
Definition check_name (name : string) : M unit :=
  w ← ask;
  match name_error w name with
  | Some msg => raise SqliteError msg
  | None => mret tt
  end.

(* ================================================================== *)
(** * db_act.py: schema manager and copy operator *)
(* ================================================================== *)

(** [initialize_db_connection]: [sqlite3.connect] then [conn.cursor()]. *)
Definition initialize_db_connection : M unit :=
  connect;; open_cursor.

(** The id an AUTOINCREMENT key gives to the next row of [last_run]. *)
Definition next_run_id (rows : list run_row) : Z :=
  foldr Z.max 0 (run_id <$> rows) + 1.

(** [CREATE TABLE IF NOT EXISTS last_run (...)].  It is the first
    statement on the connection: the [sqlite3] module opens a
    transaction before an INSERT, UPDATE or DELETE only, so this
    statement runs outside any transaction and SQLite commits it at
    once. *)
Definition sql_create_last_run : M unit :=
  d ← get_work;
  match last_run d with
  | Some _ => mret tt
  | None => put_work (set_last_run (Some []) d);; commit
  end.

(** [INSERT INTO last_run (last_sync_timestamp, status)
     VALUES (datetime('now'), 'initial')]. *)
Definition sql_insert_initial_run : M unit :=
  now ← sql_now;
  d ← get_work;
  match last_run d with
  | Some rows =>
      put_work
        (set_last_run
           (Some (rows ++ [mk_run_row (next_run_id rows) (Some now)
                             (Some "initial")])) d)
  | None => raise SqliteError "no such table: last_run"
  end.

Definition create_base_tables : M unit :=
  sql_create_last_run;; sql_insert_initial_run.

(** [CREATE TABLE IF NOT EXISTS {table_name}_initial (...)]. *)
Definition create_initial_table (table_name : string) : M unit :=
  check_name (table_name +:+ "_initial");;
  d ← get_work;
  match initial d with
  | Some _ => mret tt
  | None => put_work (set_initial (Some []) d)
  end.

(** [CREATE TABLE IF NOT EXISTS {table_name} (...)] for an environment. *)
Definition create_main_env_table (table_name : string) (e : env) : M unit :=
  check_name (env_table_name table_name e);;
  d ← get_work;
  match mains d !! e with
  | Some _ => mret tt
  | None => put_work (set_mains (<[e := []]> (mains d)) d)
  end.

(** [CREATE TRIGGER IF NOT EXISTS update_modified_timestamp_{table_name}
     AFTER UPDATE ON {table_name} ...]. *)
Definition create_update_trigger (table_name : string) (e : env) : M unit :=
  check_name ("update_modified_timestamp_" +:+ env_table_name table_name e);;
  d ← get_work;
  match mains d !! e with
  | Some _ => put_work (set_triggers ({[e]} ∪ triggers d) d)
  | None =>
      raise SqliteError ("no such table: main." +:+ env_table_name table_name e)
  end.

(** [CREATE TABLE IF NOT EXISTS {table_name}_{table_suffix} (...)]. *)
Definition create_related_table (table_name : string) (e : env)
    (k : related_kind) : M unit :=
  check_name (related_table_name table_name e k);;
  d ← get_work;
  match relateds d !! (e, k) with
  | Some _ => mret tt
  | None => put_work (set_relateds (<[(e, k) := []]> (relateds d)) d)
  end.

Definition create_related_tables (table_name : string) (e : env) : M unit :=
  for_each related_tables (create_related_table table_name e).

Definition create_env_tables (table_name : string) : M unit :=
  for_each envs (λ e,
    create_main_env_table table_name e;;
    create_update_trigger table_name e;;
    create_related_tables table_name e).

(** [create_db(db, callback)]; [table_name] is [db.replace(".db", "")]. *)
Definition create_db (db table_name : string) (cb : string -> M unit)
    : M unit :=
  initialize_db_connection;;
  try_finally
    (try_except
       (create_base_tables;;
        create_initial_table table_name;;
        create_env_tables table_name;;
        commit;;
        cb ("Database and tables created successfully in: " +:+ db))
       [SqliteError]
       (λ error, cb ("Error creating database tables: " +:+ str_exn error)))
    (cursor_close;; conn_close).

(** The row that [INSERT INTO target (article_id, locale, title, tags,
    path, content) SELECT ...] makes of a source row. *)
Definition copied_record (r : env_record) : env_record :=
  {| exp_article_id := None; article_id := article_id r;
     locale := locale r; title := title r; tags := tags r;
     path := path r; content := content r; status := None;
     modified_timestamp := None |}.

(** [article_id INTEGER PRIMARY KEY] makes [article_id] the rowid of a
    main table: SQLite keeps and scans the table in the order of the
    keys.  The place of a new row in a table listed in that order. *)
Fixpoint insert_by_key (r : env_record) (rows : list env_record)
    : list env_record :=
  match rows with
  | [] => [r]
  | r' :: rest =>
      if article_id r <? article_id r' then r :: rows
      else r' :: insert_by_key r rest
  end.

(** Rows inserted one after the other into a table whose primary key is
    [article_id]; [None] when a key is already taken. *)
Fixpoint insert_records (table new : list env_record)
    : option (list env_record) :=
  match new with
  | [] => Some table
  | r :: rest =>
      if bool_decide (article_id r ∈ article_id <$> table) then None
      else insert_records (insert_by_key r table) rest
  end.

(** [_copy_main_table]; SQLite looks up the table it inserts into
    before the table it selects from. *)
Definition _copy_main_table (table_name : string) (source_env target_env : env)
    : M unit :=
  d ← get_work;
  match mains d !! target_env, mains d !! source_env with
  | Some target, Some source =>
      match insert_records target (copied_record <$> source) with
      | Some target' =>
          put_work (set_mains (<[target_env := target']> (mains d)) d)
      | None =>
          raise SqliteError
            ("UNIQUE constraint failed: " +:+
             env_table_name table_name target_env +:+ ".article_id")
      end
  | None, _ =>
      raise SqliteError
        ("no such table: " +:+ env_table_name table_name target_env)
  | _, None =>
      raise SqliteError
        ("no such table: " +:+ env_table_name table_name source_env)
  end.

(** The column list of the statement of [_copy_related_tables]:
    [id, pageId] and the names of [PRAGMA table_info(source)] from the
    third column on. *)
Definition copy_columns (k : related_kind) : list string :=
  "id" :: "pageId" :: drop 2 (columns k).

(** [INSERT INTO target (id, pageId, {column_names})
     SELECT id, pageId, {column_names} FROM source], on one source row. *)
Definition copied_row (k : related_kind) (r : row) : row :=
  make_row k (copy_columns k) ((λ c, column k c r) <$> copy_columns k).

(** One round of the loop of [_copy_related_tables].  For a source
    table that does not exist [PRAGMA table_info] lists no column, and
    the INSERT built from the empty list of names,
    [INSERT INTO t (id, pageId, ) SELECT id, pageId,  FROM s], does not
    parse. *)
Definition _copy_related_table (table_name : string)
    (source_env target_env : env) (k : related_kind) : M unit :=
  d ← get_work;
  match relateds d !! (source_env, k), relateds d !! (target_env, k) with
  | Some source, Some target =>
      put_work
        (set_relateds
           (<[(target_env, k) := target ++ (copied_row k <$> source)]>
              (relateds d)) d)
  | None, _ =>
      raise SqliteError
        ("near " +:+ double_quote +:+ ")" +:+ double_quote +:+
         ": syntax error")
  | _, None =>
      raise SqliteError
        ("no such table: " +:+ related_table_name table_name target_env k)
  end.

Definition _copy_related_tables (table_name : string)
    (source_env target_env : env) (related : list related_kind) : M unit :=
  for_each related (_copy_related_table table_name source_env target_env).

(** [copy_table(db, source_env, target_env, callback)].  The function has
    no [finally] block and calls neither [cursor.close()] nor
    [conn.close()]. *)
Definition copy_table (table_name : string) (source_env target_env : env)
    (cb : string -> M unit) : M unit :=
  initialize_db_connection;;
  try_except
    (_copy_main_table table_name source_env target_env;;
     _copy_related_tables table_name source_env target_env related_tables;;
     commit;;
     cb "Data copied successfully.")
    [SqliteError]
    (λ error, cb ("An error occurred: " +:+ str_exn error)).

(* ================================================================== *)
(** * prog.py: run tracker, pull engine *)
(* ================================================================== *)

(** SQL's order on a TEXT column: NULL sorts below every text, texts
    compare byte by byte. *)
Definition sql_lt (a b : option string) : bool :=
  match a, b with
  | None, Some _ => true
  | Some x, Some y => String.ltb x y
  | _, _ => false
  end.

(** [SELECT * FROM last_run ORDER BY last_sync_timestamp DESC LIMIT 1]
    followed by [fetchone()]. *)
Fixpoint latest_run (rows : list run_row) : option run_row :=
  match rows with
  | [] => None
  | r :: rest =>
      match latest_run rest with
      | None => Some r
      | Some r' =>
          if sql_lt (last_sync_timestamp r) (last_sync_timestamp r')
          then Some r' else Some r
      end
  end.

Definition get_last_run_info : M (option datetime) :=
  try_except
    (d ← get_work;
     match last_run d with
     | None => raise SqliteError "no such table: last_run"
     | Some rows =>
         match latest_run rows ≫= last_sync_timestamp with
         | Some last_sync_timestamp =>
             w ← ask;
             match strptime w last_sync_timestamp with
             | Some dt => mret (Some dt)
             | None =>
                 raise ValueError
                   ("time data '" +:+ last_sync_timestamp +:+
                    "' does not match format '%Y-%m-%d %H:%M:%S'")
             end
         | None => print "No last run information found.";; mret None
         end
     end)
    [ValueError; IndexError]
    (λ error,
       print ("Error retrieving last run information: " +:+ str_exn error);;
       mret None).

(** [WHERE modified_timestamp IS NULL OR modified_timestamp > ?]; the
    parameter is NULL, or the text the adapter makes of the datetime. *)
Definition is_candidate (cutoff : option string) (r : env_record) : bool :=
  match modified_timestamp r with
  | None => true
  | Some m =>
      match cutoff with
      | None => false
      | Some c => String.ltb c m
      end
  end.

(** A tuple of the push scan: [article_id, exp_article_id, locale, title,
    tags, path, content]. *)
Record push_row := mk_push_row {
  row_article_id : Z;
  row_exp_article_id : option Z;
  row_locale : option string;
  row_title : option string;
  row_tags : option string;
  row_path : option string;
  row_content : option string
}.

Definition select_push_columns (r : env_record) : push_row :=
  {| row_article_id := article_id r;
     row_exp_article_id := exp_article_id r;
     row_locale := locale r; row_title := title r; row_tags := tags r;
     row_path := path r; row_content := content r |}.

Definition fetch_all_records (table_name : string) (e : env)
    : M (list push_row) :=
  try_except
    (last_sync_datetime ← get_last_run_info;
     d ← get_work;
     match mains d !! e with
     | Some rows =>
         mret (select_push_columns <$>
               filter (λ r, is_candidate (adapt_datetime <$> last_sync_datetime) r)
                      rows)
     | None =>
         raise SqliteError ("no such table: " +:+ env_table_name table_name e)
     end)
    [SqliteError]
    (λ error,
       print ("Error fetching records: " +:+ str_exn error);; mret []).

(** The trigger [update_modified_timestamp_{table}] on a row that an
    UPDATE has just changed. *)
Definition fire_trigger (d : store) (e : env) (now : string)
    (r : env_record) : env_record :=
  if bool_decide (e ∈ triggers d) then
    {| exp_article_id := exp_article_id r; article_id := article_id r;
       locale := locale r; title := title r; tags := tags r;
       path := path r; content := content r; status := status r;
       modified_timestamp := Some now |}
  else r.

(** The main table after the upsert of [_insert_page_data]: a new row
    at the place of its key, or on a conflict on [article_id] an update of the five synchronised
    columns, which fires the update trigger. *)
Definition upsert_rows (d : store) (e : env) (now : string) (id : Z)
    (loc ttl tgs pth cnt : option string) (rows : list env_record)
    : list env_record :=
  if bool_decide (id ∈ article_id <$> rows) then
    (λ r, if bool_decide (article_id r = id) then
            fire_trigger d e now
              {| exp_article_id := exp_article_id r;
                 article_id := article_id r;
                 locale := loc; title := ttl; tags := tgs;
                 path := pth; content := cnt; status := status r;
                 modified_timestamp := modified_timestamp r |}
          else r) <$> rows
  else
    insert_by_key
      {| exp_article_id := None; article_id := id;
         locale := loc; title := ttl; tags := tgs;
         path := pth; content := cnt; status := None;
         modified_timestamp := None |} rows.

(** [INSERT INTO {table} (article_id, locale, title, tags, path, content)
     VALUES (?, ?, ?, ?, ?, ?) ON CONFLICT(article_id) DO UPDATE SET ...]. *)
Definition sql_upsert_page (table_name : string) (e : env) (id : Z)
    (loc ttl tgs pth cnt : option string) : M unit :=
  now ← sql_now;
  d ← get_work;
  match mains d !! e with
  | Some rows =>
      bind_parameters
        [VInt id; text_value loc; text_value ttl; text_value tgs;
         text_value pth; text_value cnt];;
      put_work
        (set_mains
           (<[e := upsert_rows d e now id loc ttl tgs pth cnt rows]> (mains d))
           d)
  | None =>
      raise SqliteError ("no such table: " +:+ env_table_name table_name e)
  end.

(** [";".join(tag["title"] for tag in page_data["tags"]
     if isinstance(tag["title"], str))]. *)
Definition join_tags (titles : list (option string)) : string :=
  String.concat ";" (omap id titles).

Definition _insert_page_data (table_name : string) (e : env)
    (response_data : pull_body) : M Z :=
  match pb_data response_data with
  | Absent => raise KeyError "'data'"
  | Null => raise TypeError "'NoneType' object is not subscriptable"
  | Empty => raise KeyError "'pages'"
  | Present data =>
      match single data with
      | None => raise TypeError "'NoneType' object is not subscriptable"
      | Some page_data =>
          sql_upsert_page table_name e (pg_id page_data)
            (pg_locale page_data) (pg_title page_data)
            (Some (join_tags (pg_tags page_data)))
            (pg_path page_data) (pg_content page_data);;
          mret (pg_id page_data)
      end
  end.

(** [DELETE FROM {table} WHERE pageId = ?]. *)
Definition sql_delete_related (table_name : string) (e : env)
    (k : related_kind) (page_id : Z) : M unit :=
  d ← get_work;
  match relateds d !! (e, k) with
  | Some rows =>
      bind_parameters [VInt page_id];;
      put_work
        (set_relateds
           (<[(e, k) := filter (λ r, ¬ page_id_is k page_id r) rows]>
              (relateds d)) d)
  | None =>
      raise SqliteError
        ("no such table: " +:+ related_table_name table_name e k)
  end.

Definition _delete_records (table_name : string) (e : env) (article_id : Z)
    : M unit :=
  print ("Deleting records for article_id: " +:+ str_int article_id);;
  for_each related_tables (λ k, sql_delete_related table_name e k article_id);;
  print "Deletion completed.".

(** [INSERT INTO {table} (cols) VALUES (vals)] on a related table. *)
Definition sql_insert_related (table_name : string) (e : env)
    (k : related_kind) (cols : list string) (vals : list value) : M unit :=
  d ← get_work;
  match relateds d !! (e, k) with
  | Some rows =>
      bind_parameters vals;;
      put_work
        (set_relateds (<[(e, k) := rows ++ [make_row k cols vals]]> (relateds d))
           d)
  | None =>
      raise SqliteError
        ("no such table: " +:+ related_table_name table_name e k)
  end.

(** [response_data["data"][key]]: the data of a well-formed reply; the
    page was read before. *)
Definition response_data_of (key : string) (response_data : pull_body)
    : M pull_data :=
  match pb_data response_data with
  | Present data => mret data
  | Absent => raise KeyError "'data'"
  | Null => raise TypeError "'NoneType' object is not subscriptable"
  | Empty => raise KeyError ("'" +:+ key +:+ "'")
  end.

Definition bool_value (b : bool) : value := VInt (if b then 1 else 0).

(** The column list and the parameter tuple of the INSERT statement of
    each related kind. *)
Definition institution_columns : list string :=
  ["id"; "pageId"; "name"; "url"; "isResponsible"].

Definition institution_values (page_id : Z) (institution : institution)
    : list value :=
  [VInt (in_id institution); VInt page_id;
   text_value (in_name institution); text_value (in_url institution);
   bool_value (default false (in_isResponsible institution))].

Definition legal_act_columns : list string :=
  ["id"; "pageId"; "title"; "url"; "legalActType"; "globalId"; "groupId";
   "versionStartDate"].

Definition legal_act_values (page_id : Z) (legal_act : legal_act)
    : list value :=
  [VInt (la_id legal_act); VInt page_id;
   text_value (la_title legal_act); text_value (la_url legal_act);
   text_value (la_legalActType legal_act);
   real_value (la_globalId legal_act);
   int_value (la_groupId legal_act);
   text_value (la_versionStartDate legal_act)].

Definition page_contact_columns : list string :=
  ["id"; "contactId"; "pageId"; "role"; "firstName"; "lastName";
   "company"; "email"; "countryCode"; "nationalNumber"].

Definition page_contact_values (page_id : Z) (contact : page_contact)
    : list value :=
  [VInt (pc_id contact); int_value (pc_contactId contact); VInt page_id;
   text_value (pc_role contact); text_value (pc_firstName contact);
   text_value (pc_lastName contact); text_value (pc_company contact);
   text_value (pc_email contact); text_value (pc_countryCode contact);
   text_value (pc_nationalNumber contact)].

Definition related_page_columns : list string :=
  ["id"; "pageId"; "title"; "locale"].

Definition related_page_values (page_id : Z) (related_page : related_page)
    : list value :=
  [VInt (rp_id related_page); VInt page_id;
   text_value (rp_title related_page); text_value (rp_locale related_page)].

Definition service_columns : list string := ["id"; "pageId"; "name"; "url"].

Definition service_values (page_id : Z) (service : service) : list value :=
  [VInt (sv_id service); VInt page_id;
   text_value (sv_name service); text_value (sv_url service)].

Definition _insert_arva_institution (table_name : string) (e : env)
    (page_id : Z) (response_data : pull_body) : M unit :=
  data ← response_data_of "arvaInstitution" response_data;
  for_each (getArvaInstitutionsForPage data) (λ institution,
    sql_insert_related table_name e Institution institution_columns
      (institution_values page_id institution)).

Definition _insert_arva_legal_act (table_name : string) (e : env)
    (page_id : Z) (response_data : pull_body) : M unit :=
  data ← response_data_of "arvaLegalAct" response_data;
  for_each (getLegalActsForPage data) (λ legal_act,
    sql_insert_related table_name e LegalAct legal_act_columns
      (legal_act_values page_id legal_act)).

Definition _insert_arva_page_contact (table_name : string) (e : env)
    (page_id : Z) (response_data : pull_body) : M unit :=
  data ← response_data_of "arvaPageContact" response_data;
  for_each (getArvaPageContactForPage data) (λ contact,
    sql_insert_related table_name e PageContact page_contact_columns
      (page_contact_values page_id contact)).

Definition _insert_arva_related_pages (table_name : string) (e : env)
    (page_id : Z) (response_data : pull_body) : M unit :=
  data ← response_data_of "arvaRelatedPages" response_data;
  for_each (getRelatedPagesForPage data) (λ related_page,
    sql_insert_related table_name e RelatedPages related_page_columns
      (related_page_values page_id related_page)).

Definition _insert_arva_service (table_name : string) (e : env)
    (page_id : Z) (response_data : pull_body) : M unit :=
  data ← response_data_of "arvaService" response_data;
  for_each (getArvaServicesForPage data) (λ service,
    sql_insert_related table_name e Service service_columns
      (service_values page_id service)).

(** [insert_arva_records(db, env, response_data, callback)]. *)
Definition insert_arva_records (table_name : string) (e : env)
    (response_data : pull_body) (cb : string -> M unit) : M unit :=
  connect;;
  open_cursor;;
  try_finally
    (try_except
       (page_id ← _insert_page_data table_name e response_data;
        _delete_records table_name e page_id;;
        _insert_arva_institution table_name e page_id response_data;;
        _insert_arva_legal_act table_name e page_id response_data;;
        _insert_arva_page_contact table_name e page_id response_data;;
        _insert_arva_related_pages table_name e page_id response_data;;
        _insert_arva_service table_name e page_id response_data;;
        commit;;
        cb ("Data saved successfully in the database for article ID " +:+
            str_int page_id +:+ " in environment: " +:+ env_name e))
       [SqliteError]
       (λ error, cb ("Database error: " +:+ str_exn error)))
    (cursor_close;; conn_close).

(** The body of the loop of [get_arva_records] for one identifier.  The
    distinct messages of an [errors] array are kept in a set; the call
    of [insert_arva_records] passes no callback, so that one reports
    through [print]. *)
Definition pull_one (table_name : string) (e : env)
    (cb : string -> M unit) (article_id : Z) : M unit :=
  try_except
    (n ← next_request;
     w ← ask;
     match remote_query w n article_id with
     | PostFailed msg => raise RequestException msg
     | Replied status_code _ None =>
         raise RequestException (request_error_text w n)
     | Replied status_code _ (Some response_data) =>
         match pb_errors response_data with
         | Some errors =>
             let unique_errors : gset string :=
               list_to_set (default "Unknown error" <$> errors) in
             for_each (elements unique_errors) (λ unique_error,
               cb ("Error fetching data for article ID " +:+
                   str_int article_id +:+ ": " +:+ unique_error))
         | None =>
             if bool_decide (status_code = 200) &&
                (match pb_data response_data with Absent => false | _ => true end)
             then
               insert_arva_records table_name e response_data print;;
               cb ("Records for article ID " +:+ str_int article_id +:+
                   " have been inserted.")
             else
               cb ("Failed to fetch data for article ID " +:+
                   str_int article_id +:+ ": " +:+ str_int status_code)
         end
     end)
    [RequestException]
    (λ error,
       cb ("Error fetching data for article ID " +:+ str_int article_id +:+
           ": " +:+ str_exn error)).

(** [get_arva_records(config, article_ids, callback)].  [article_ids] is
    given as the pieces of [article_ids.split(",")], each as the result of
    [int(id.strip())], [None] where that raises [ValueError]; the list is
    built before the first request.  The text of the [ValueError] goes
    on with the piece that [int] refused, which is not kept here. *)
Definition get_arva_records (table_name : string) (e : env)
    (article_ids : list (option Z)) (cb : string -> M unit) : M unit :=
  match mapM id article_ids with
  | None => raise ValueError "invalid literal for int() with base 10"
  | Some ids => for_each ids (pull_one table_name e cb)
  end.

(* ================================================================== *)
(** * prog.py: push engine *)
(* ================================================================== *)

(** [s.split(";")]. *)
Fixpoint split_semicolon (s : string) : list string :=
  match s with
  | EmptyString => [""]
  | String c rest =>
      if decide (c = ";"%char) then "" :: split_semicolon rest
      else
        match split_semicolon rest with
        | piece :: pieces => String c piece :: pieces
        | [] => [String c ""]
        end
  end.

(** [prepare_record_variables(row)]: the row's [article_id] and
    [exp_article_id] and the mutation variables. *)
Definition prepare_record_variables (row : push_row)
    : M (Z * option Z * variables) :=
  match row_tags row with
  | None => raise AttributeError "'NoneType' object has no attribute 'split'"
  | Some tags =>
      mret (row_article_id row, row_exp_article_id row,
            {| var_content := row_content row; var_locale := row_locale row;
               var_path := row_path row; var_tags := split_semicolon tags;
               var_title := row_title row; var_id := None |})
  end.

(** [response.raise_for_status()] raises for the 4xx and 5xx codes. *)
Definition is_http_error (status_code : Z) : bool :=
  (400 <=? status_code) && (status_code <? 600).

(** [execute_graphql_mutation(api_config, variables, mutation_type)]; the
    three mutation types used are keys of [api_config].  When
    [requests.post] itself raises, the handler's [response.text] reads a
    local that was never bound. *)
Definition execute_graphql_mutation (m : mutation) : M mutation_body :=
  n ← next_request;
  w ← ask;
  match remote_mutation w n m with
  | PostFailed _ =>
      raise UnboundLocalError
        "cannot access local variable 'response' where it is not associated with a value"
  | Replied status_code text json =>
      if is_http_error status_code then
        raise RuntimeError
          ("GraphQL mutation failed: " +:+ request_error_text w n +:+
           " - " +:+ text)
      else
        match json with
        | Some response_data => mret response_data
        | None =>
            raise RuntimeError
              ("GraphQL mutation failed: " +:+ request_error_text w n +:+
               " - " +:+ text)
        end
  end.

(** [not v] for a text parameter: [None] and the empty string. *)
Definition is_blank (o : option string) : bool :=
  match o with
  | None => true
  | Some s => bool_decide (s = "")
  end.

(** [UPDATE {table} SET exp_article_id = ?, status = 'succeeded'
     WHERE path = ? AND locale = ?]; every row it changes fires the
    update trigger. *)
Definition sql_update_status (table_name : string) (e : env) (page_id : Z)
    (pth loc : option string) : M unit :=
  now ← sql_now;
  d ← get_work;
  match mains d !! e with
  | Some rows =>
      let matches (r : env_record) : bool :=
        bool_decide (is_Some pth ∧ path r = pth) &&
        bool_decide (is_Some loc ∧ locale r = loc) in
      let rows' :=
        (λ r, if matches r then
                fire_trigger d e now
                  {| exp_article_id := Some page_id;
                     article_id := article_id r; locale := locale r;
                     title := title r; tags := tags r; path := path r;
                     content := content r; status := Some "succeeded";
                     modified_timestamp := modified_timestamp r |}
              else r) <$> rows in
      bind_parameters [VInt page_id; text_value pth; text_value loc];;
      put_work (set_mains (<[e := rows']> (mains d)) d)
  | None =>
      raise SqliteError ("no such table: " +:+ env_table_name table_name e)
  end.

(** [update_record_status(cursor, env_table_name, page_id, variables)]. *)
Definition update_record_status (table_name : string) (e : env)
    (page_id : Z) (vars : variables) : M unit :=
  try_except
    (if is_blank (var_path vars) || is_blank (var_locale vars) then
       raise ValueError "Missing required variables: 'path' or 'locale'"
     else
       sql_update_status table_name e page_id (var_path vars)
         (var_locale vars))
    [SqliteError; ValueError]
    (λ error,
       if bool_decide (exn_cls error = SqliteError) then
         raise RuntimeError
           ("Database error while updating record status: " +:+ str_exn error)
       else raise ValueError ("Invalid input: " +:+ str_exn error)).

(** [SELECT ... FROM "{table}" WHERE pageId = ?] on a related table. *)
Definition sql_select_related (table_name : string) (e : env)
    (k : related_kind) (page_id : Z) : M (list row) :=
  d ← get_work;
  match relateds d !! (e, k) with
  | Some rows =>
      bind_parameters [VInt page_id];;
      mret (filter (λ r, page_id_is k page_id r) rows)
  | None =>
      raise SqliteError
        ("no such table: " +:+ related_table_name table_name e k)
  end.

(** A dictionary of the follow-up payload: key [key] holds column [col]. *)
Definition entry (k : related_kind) (r : row) (key col : string)
    : string * pyval :=
  (key, of_value (column k col r)).

Definition fetch_related_data (table_name : string) (e : env)
    (article_id : Z) : M related_data :=
  rows ← sql_select_related table_name e Institution article_id;
  let institutions :=
    (λ r, [entry Institution r "id" "id"; entry Institution r "name" "name";
           entry Institution r "url" "url";
           ("isResponsible",
            PBool (truthy (of_value (column Institution "isResponsible" r))))])
      <$> rows in
  rows ← sql_select_related table_name e LegalAct article_id;
  let legal_acts :=
    (λ r, [entry LegalAct r "title" "title"; entry LegalAct r "url" "url";
           entry LegalAct r "legalActType" "legalActType";
           entry LegalAct r "globalId" "globalId";
           entry LegalAct r "groupId" "groupId";
           entry LegalAct r "versionStartDate" "versionStartDate"])
      <$> rows in
  rows ← sql_select_related table_name e PageContact article_id;
  let contacts :=
    (λ r, [entry PageContact r "id" "contactId";
           entry PageContact r "role" "role";
           entry PageContact r "firstName" "firstName";
           entry PageContact r "lastName" "lastName";
           entry PageContact r "company" "company";
           entry PageContact r "email" "email";
           entry PageContact r "countryCode" "countryCode";
           entry PageContact r "nationalNumber" "nationalNumber"])
      <$> rows in
  rows ← sql_select_related table_name e RelatedPages article_id;
  let related_pages :=
    (λ r, [entry RelatedPages r "id" "id";
           entry RelatedPages r "title" "title";
           entry RelatedPages r "locale" "locale"])
      <$> rows in
  rows ← sql_select_related table_name e Service article_id;
  let services :=
    (λ r, [entry Service r "id" "id"; entry Service r "name" "name";
           entry Service r "url" "url"])
      <$> rows in
  mret {| institutionInput := institutions; legalActInput := legal_acts;
          pageContactInput := contacts; relatedPagesInput := related_pages;
          serviceInput := services; rd_pageId := None |}.

(** [handle_follow_up_mutation(api_config, page_id, related_data,
    callback)]; [response_data.get("data")] is false for a missing key,
    for [null] and for the empty object. *)
Definition handle_follow_up_mutation (page_id : Z) (rd : related_data)
    (cb : string -> M unit) : M unit :=
  let rd :=
    {| institutionInput := institutionInput rd;
       legalActInput := legalActInput rd;
       pageContactInput := pageContactInput rd;
       relatedPagesInput := relatedPagesInput rd;
       serviceInput := serviceInput rd; rd_pageId := Some page_id |} in
  try_except
    (response_data ← execute_graphql_mutation (FollowUp rd);
     match mb_data response_data with
     | Present _ =>
         cb ("Successfully processed related records for pageId: " +:+
             str_int page_id)
     | Absent | Null | Empty =>
         cb ("Failed to process related records for pageId: " +:+
             str_int page_id)
     end)
    [RuntimeError]
    (λ error,
       cb ("Error during follow-up mutation for pageId " +:+ str_int page_id
           +:+ ": " +:+ str_exn error)).

(** [not exp_article_id]: NULL and 0. *)
Definition is_unsynced (exp : option Z) : bool :=
  match exp with
  | None => true
  | Some n => bool_decide (n = 0)
  end.

(** [process_record(cursor, env_table_name, api_config, row, callback)]. *)
Definition process_record (table_name : string) (e : env) (row : push_row)
    (cb : string -> M unit) : M unit :=
  try_except_all
    (record_data ← prepare_record_variables row;
     let '(article_id, exp_article_id, vars) := record_data in
     let vars :=
       if is_unsynced exp_article_id then vars
       else
         {| var_content := var_content vars; var_locale := var_locale vars;
            var_path := var_path vars; var_tags := var_tags vars;
            var_title := var_title vars; var_id := exp_article_id |} in
     response_data ←
       (if is_unsynced exp_article_id
        then execute_graphql_mutation (Create vars)
        else execute_graphql_mutation (Update vars));
     match mb_errors response_data with
     | Some errors =>
         let record_id :=
           if is_unsynced exp_article_id
           then "article id: " +:+ str_int article_id
           else "exp_article_id id: " +:+ str_opt_int exp_article_id in
         match errors with
         | [] => raise IndexError "list index out of range"
         | error :: _ =>
             cb ("Failed to process record " +:+ record_id +:+ ": " +:+
                 str_opt error)
         end
     | None =>
         result ←
           match mb_data response_data with
           | Absent => raise KeyError "'data'"
           | Null => raise TypeError "'NoneType' object is not subscriptable"
           | Empty | Present None => raise KeyError "'pages'"
           | Present (Some result) => mret result
           end;
         page_id ←
           match md_create result with
           | Some created =>
               cb ("Record " +:+ str_int (pr_page_id created) +:+ ": " +:+
                   str_opt (pr_message created));;
               mret (Some (pr_page_id created))
           | None => mret None
           end;
         page_id ←
           match md_update result with
           | Some updated =>
               cb ("Record " +:+ str_int (pr_page_id updated) +:+ ": " +:+
                   str_opt (pr_message updated));;
               mret (Some (pr_page_id updated))
           | None => mret page_id
           end;
         match page_id with
         | None =>
             raise UnboundLocalError
               "cannot access local variable 'page_id' where it is not associated with a value"
         | Some page_id =>
             update_record_status table_name e page_id vars;;
             related_data ← fetch_related_data table_name e article_id;
             handle_follow_up_mutation page_id related_data cb
         end
     end)
    (λ error, cb ("Error while processing record: " +:+ str_exn error)).

(** [get_api_config(bearer_token, graphql_url)]; the configuration it
    returns holds the request documents and headers only. *)
Definition get_api_config (bearer_token graphql_url : string) : M unit :=
  if bool_decide (bearer_token = "") || bool_decide (graphql_url = "") then
    raise ValueError "Bearer token and GraphQL URL must be provided."
  else mret tt.

(** [process_records(db, env, bearer_token, graphql_url, callback)].
    [initialize_db_connection] is the first statement of the [try] block:
    when it raises, the handler reports it and the [finally] block reads
    [cursor], which was never bound. *)
Definition process_records (table_name : string) (e : env)
    (bearer_token graphql_url : string) (cb : string -> M unit) : M unit :=
  bound ←
    try_except_all
      (initialize_db_connection;; mret true)
      (λ general_error,
         cb ("Error processing records: " +:+ str_exn general_error);;
         mret false);
  if bound : bool then
    try_finally
      (try_except_all
         (get_api_config bearer_token graphql_url;;
          rows ← fetch_all_records table_name e;
          match rows with
          | [] => cb "No records to process."
          | _ =>
              for_each rows (λ row,
                try_except_all
                  (process_record table_name e row cb)
                  (λ record_error,
                     cb ("Error processing record: " +:+
                         str_exn record_error)));;
              commit;;
              cb "All records processed."
          end)
         (λ general_error,
            cb ("Error processing records: " +:+ str_exn general_error)))
      (cursor_close;; conn_close)
  else
    raise UnboundLocalError
      "cannot access local variable 'cursor' where it is not associated with a value".

(** The state in which the front end starts a run on a store: nothing
    open, nothing reported yet. *)
Definition start (d : store) : state :=
  {| disk := d; work := d; open_conns := 0; open_cursors := 0;
     sink := []; console := []; ticks := 0; requests := 0 |}.

(** What a run gave: it returned or raised; and the state it left. *)
Definition outcome {A} (p : result A * state) : result A := fst p.

Definition final {A} (p : result A * state) : state := snd p.

(* ================================================================== *)
(** * helper.py: checks of the front end's input *)
(* ================================================================== *)

Definition in_range (lo hi : N) (c : ascii) : bool :=
  ((lo <=? N_of_ascii c) && (N_of_ascii c <=? hi))%N.

(** [c.isdigit()] for a character of the class below. *)
Definition is_digit (c : ascii) : bool := in_range 48 57 c.

(** The class [[a-zA-Z0-9_]]. *)
Definition is_word_char (c : ascii) : bool :=
  in_range 97 122 c || in_range 65 90 c || is_digit c ||
  bool_decide (c = "_"%char).

(** [[a-zA-Z0-9_]*$]: [$] matches at the end of the text and before a
    newline that ends it. *)
Fixpoint word_chars_to_end (s : string) : bool :=
  match s with
  | EmptyString => true
  | String c rest =>
      if is_word_char c then word_chars_to_end rest
      else bool_decide (c = "010"%char) && bool_decide (rest = "")
  end.

(** [re.match(r"^[a-zA-Z0-9_]+$", name)]. *)
Definition matches_project_name (name : string) : bool :=
  match name with
  | EmptyString => false
  | String c rest => is_word_char c && word_chars_to_end rest
  end.

(** [name[-1]]. *)
Fixpoint last_char (s : string) : option ascii :=
  match s with
  | EmptyString => None
  | String c EmptyString => Some c
  | String _ rest => last_char rest
  end.

(** [valid_project_name(name, callback)]. *)
Definition valid_project_name (name : string) (cb : string -> M unit)
    : M bool :=
  match name with
  | EmptyString => cb "Name can't be empty!";; mret false
  | String first _ =>
      if negb (matches_project_name name) then
        cb "Invalid project name (only alphanumeric characters and underscores)!";;
        mret false
      else if is_digit first then
        cb "Project name cannot start with a number!";; mret false
      else if bool_decide (first = "_"%char) then
        cb "Project name cannot start with an underscore!";; mret false
      else if bool_decide (last_char name = Some "_"%char) then
        cb "Project name cannot end with an underscore!";; mret false
      else mret true
  end.

(** [get_env_url(env)]: [envs.get(env)]. *)
Definition get_env_url (env : string) : option string :=
  if bool_decide (env = "dev") then
    Some "https://arva-main.dev.riaint.ee/graphql"
  else if bool_decide (env = "test") then
    Some "https://arva-main.test.riaint.ee/graphql"
  else if bool_decide (env = "prod") then
    Some "https://arva-main.prod.riaint.ee/graphql"
  else None.

(** [check_target_env(target_env, callback)]. *)
Definition check_target_env (target_env : string) (cb : string -> M unit)
    : M bool :=
  if bool_decide (target_env ∈ ["dev"; "test"; "prod"]) then mret true
  else
    cb "Invalid input. Please choose from 'dev', 'test', or 'prod'.";;
    mret false.

(** [db.replace(".db", "")] of [initialize_db_connection]: every
    occurrence of [.db] is removed, from the left. *)
Fixpoint replace_db (db : string) : string :=
  match db with
  | EmptyString => EmptyString
  | String c rest =>
      match rest with
      | String c' (String c'' rest') =>
          if bool_decide (c = "."%char ∧ c' = "d"%char ∧ c'' = "b"%char)
          then replace_db rest'
          else String c (replace_db rest)
      | _ => String c (replace_db rest)
      end
  end.

(* ================================================================== *)
(** * Closed forms of the statements, used in the proofs *)
(* ================================================================== *)

(** What the [CREATE ... IF NOT EXISTS] statements of [create_db] make
    of a store. *)
Definition ensure_main (e : env) (d : store) : store :=
  match mains d !! e with
  | Some _ => d
  | None => set_mains (<[e := []]> (mains d)) d
  end.

Definition ensure_trigger (e : env) (d : store) : store :=
  set_triggers ({[e]} ∪ triggers d) d.

Definition ensure_related (e : env) (k : related_kind) (d : store) : store :=
  match relateds d !! (e, k) with
  | Some _ => d
  | None => set_relateds (<[(e, k) := []]> (relateds d)) d
  end.

Definition ensure_env (e : env) (d : store) : store :=
  foldl (λ d k, ensure_related e k d) (ensure_trigger e (ensure_main e d))
    related_tables.

Definition ensure_schema (d : store) : store :=
  foldl (λ d e, ensure_env e d) d envs.

Definition initial_run (now : string) (rows : list run_row) : run_row :=
  mk_run_row (next_run_id rows) (Some now) (Some "initial").

Definition add_initial_run (now : string) (d : store) : store :=
  let rows := default [] (last_run d) in
  set_last_run (Some (rows ++ [initial_run now rows])) d.

Definition ensure_initial (d : store) : store :=
  set_initial (Some (default [] (initial d))) d.

Definition created_store (now : string) (d : store) : store :=
  ensure_schema (ensure_initial (add_initial_run now d)).

Definition created_message (db : string) : string :=
  "Database and tables created successfully in: " +:+ db.

(* ================================================================== *)
(** * Sample data *)
(* ================================================================== *)

(** A world in which the store opens, the clock advances by a second
    per reading from 2024-01-05 03:04:00, the run-log timestamps parse,
    and the remote API is unreachable. *)
Definition sample_world : world :=
  {| can_connect := true;
     request_error_text := λ _, "Expecting value: line 1 column 1 (char 0)";
     name_error := λ _, None;
     clock := λ n, "2024-01-05 03:04:0" +:+ pretty (Z.of_nat n);
     strptime := λ _, Some (mk_datetime 2024 1 5 3 4 0);
     remote_query := λ _ _, PostFailed "connection refused";
     remote_mutation := λ _ _, PostFailed "connection refused" |}.

(** The most recent run-log timestamp: the cutoff of the push scan. *)
Definition last_run_timestamp (runs : list run_row) : option string :=
  latest_run runs ≫= last_sync_timestamp.

(** [a > b] on texts, as SQLite compares them. *)
Definition text_gt (a b : string) : Prop := String.ltb b a = true.

(** The row that the UPDATE of [update_record_status] makes of a row it
    matches, before the trigger runs. *)
Definition with_status (page_id : Z) (r : env_record) : env_record :=
  {| exp_article_id := Some page_id; article_id := article_id r;
     locale := locale r; title := title r; tags := tags r; path := path r;
     content := content r; status := Some "succeeded";
     modified_timestamp := modified_timestamp r |}.

Definition same_path_locale (p l : string) (r : env_record) : bool :=
  bool_decide (path r = Some p) && bool_decide (locale r = Some l).

(** The main table after that UPDATE, with parameters [page_id], [p], [l],
    run at the clock reading [now] on the store [d]. *)
Definition status_updated (d : store) (e : env) (now : string) (page_id : Z)
    (p l : string) (rows : list env_record) : list env_record :=
  (λ r, if same_path_locale p l r
        then fire_trigger d e now (with_status page_id r) else r) <$> rows.

(** The page id that [process_record] reads from [data.pages]: that of
    [update] when present, else that of [create]. *)
Definition reply_page_id (result : mutation_data) : option Z :=
  match md_update result with
  | Some updated => Some (pr_page_id updated)
  | None => pr_page_id <$> md_create result
  end.

(** A reply to a create or update mutation that carries no [errors] and
    whose [data.pages] is [result]. *)
Definition success_reply (status_code : Z) (text : string)
    (result : mutation_data) : http mutation_body :=
  Replied status_code text
    (Some {| mb_errors := None; mb_data := Present (Some result) |}).

(** The variables [process_record] sends for a row that was never
    pushed. *)
Definition create_variables (r : env_record) (tgs : string) : variables :=
  {| var_content := content r; var_locale := locale r; var_path := path r;
     var_tags := split_semicolon tgs; var_title := title r; var_id := None |}.

(** A computation that leaves the store as it found it, both what is
    committed and the connection's view, whatever it returns or raises. *)
Definition keeps_store {A} (m : M A) : Prop :=
  ∀ w s, work (snd (m w s)) = work s ∧ disk (snd (m w s)) = disk s.

(** A computation that, in the world [w], keeps a property of the store
    that holds of both the committed store and the connection's view. *)
Definition preserves (w : world) (P : store → Prop) {A} (m : M A) : Prop :=
  ∀ s, P (disk s) → P (work s) →
       P (disk (snd (m w s))) ∧ P (work (snd (m w s))).

(** A row of the table is a push candidate for the cutoff [c] under the
    key [a]. *)
Definition has_candidate (c : string) (a : Z) (rows : list env_record)
    : Prop :=
  ∃ r, r ∈ rows ∧ article_id r = a ∧ is_candidate (Some c) r = true.

(** The run log is [runs] and the table of [e] holds a candidate with
    key [a]. *)
Definition candidate_in (e : env) (runs : list run_row) (c : string) (a : Z)
    (d : store) : Prop :=
  last_run d = Some runs ∧
  ∃ rows, mains d !! e = Some rows ∧ has_candidate c a rows.

(** Push runs one after the other, each on an environment with a token
    and an endpoint, reporting to the callback. *)
Definition push_runs (w : world) (table_name : string)
    (runs : list (env * string * string)) (s : state) : state :=
  foldl (λ s '(e, bearer_token, graphql_url),
           final (process_records table_name e bearer_token graphql_url
                    callback w s))
        s runs.

(** A world for push runs: the clock reads 2024-02-01 00:00:00, a create
    or update mutation is answered with page id 99, a follow-up with
    data. *)
Definition sample_push_world : world :=
  {| can_connect := true;
     request_error_text := λ _, "Expecting value: line 1 column 1 (char 0)";
     name_error := λ _, None;
     clock := λ _, "2024-02-01 00:00:00";
     strptime := λ _, Some (mk_datetime 2024 1 5 3 4 0);
     remote_query := λ _ _, PostFailed "connection refused";
     remote_mutation := λ _ m,
       match m with
       | Create _ =>
           success_reply 200 ""
             {| md_create := Some {| pr_page_id := 99;
                                     pr_message := Some "Page created" |};
                md_update := None |}
       | Update _ =>
           success_reply 200 ""
             {| md_create := None;
                md_update := Some {| pr_page_id := 99;
                                     pr_message := Some "Page updated" |} |}
       | FollowUp _ =>
           Replied 200 ""
             (Some {| mb_errors := None; mb_data := Present None |})
       end |}.

(** Three rows of a main table: one never synchronised, one with the
    same path and locale last modified before the sample run log's
    timestamp, one modified after it. *)
Definition sample_row_a : env_record :=
  {| exp_article_id := None; article_id := 1; locale := Some "en";
     title := Some "A"; tags := Some "x;y"; path := Some "/a";
     content := Some "text a"; status := None; modified_timestamp := None |}.

Definition sample_row_b : env_record :=
  {| exp_article_id := None; article_id := 2; locale := Some "en";
     title := Some "B"; tags := Some ""; path := Some "/a";
     content := Some "text b"; status := None;
     modified_timestamp := Some "2024-01-04 00:00:00" |}.

Definition sample_row_c : env_record :=
  {| exp_article_id := Some 7; article_id := 3; locale := Some "et";
     title := Some "C"; tags := Some "z"; path := Some "/c";
     content := Some "text c"; status := Some "succeeded";
     modified_timestamp := Some "2024-01-06 00:00:00" |}.

Definition sample_rows : list env_record :=
  [sample_row_a; sample_row_b; sample_row_c].

Definition sample_runs : list run_row :=
  [mk_run_row 1 (Some "2024-01-05 03:04:00") (Some "initial")].

(** A store created at 2024-01-05 03:04:00 whose [dev] table holds the
    sample rows. *)
Definition sample_store : store :=
  let d := created_store "2024-01-05 03:04:00" empty_store in
  set_mains (<[Dev := sample_rows]> (mains d)) d.

(** What the INSERT ... SELECT of [_copy_related_tables] for the kind [k]
    makes of a store in which both tables exist. *)
Definition with_copied_related (source_env target_env : env)
    (k : related_kind) (d : store) : store :=
  match relateds d !! (source_env, k), relateds d !! (target_env, k) with
  | Some source, Some target =>
      set_relateds
        (<[(target_env, k) := target ++ (copied_row k <$> source)]>
           (relateds d)) d
  | _, _ => d
  end.

(** A store in which the [test] table already holds a row with the key
    of a row of [dev]. *)
Definition sample_conflict_store : store :=
  set_mains (<[Test := [sample_row_a]]> (mains sample_store)) sample_store.

(** A page contact of [dev] for page 1, to be copied. *)
Definition sample_contact_row : row :=
  [VInt 5; VInt 77; VInt 1; VText "editor"; VText "Mari"; VText "Maasikas";
   VNull; VText "mari@example.ee"; VText "+372"; VText "5550000"].

Definition sample_related_store : store :=
  set_relateds (<[(Dev, PageContact) := [sample_contact_row]]>
                  (relateds sample_store)) sample_store.

(** What [DELETE FROM ... WHERE pageId = ?] and the INSERTs of a pull make
    of a store; a table that does not exist is left out. *)
Definition with_deleted (e : env) (k : related_kind) (page_id : Z)
    (d : store) : store :=
  match relateds d !! (e, k) with
  | Some rows =>
      set_relateds
        (<[(e, k) := filter (λ r, ¬ page_id_is k page_id r) rows]>
           (relateds d)) d
  | None => d
  end.

Definition with_inserted (e : env) (k : related_kind) (new : list row)
    (d : store) : store :=
  match relateds d !! (e, k) with
  | Some rows => set_relateds (<[(e, k) := rows ++ new]> (relateds d)) d
  | None => d
  end.

(** The rows a pull inserts into the related table of kind [k]. *)
Definition pulled_rows (k : related_kind) (page_id : Z) (data : pull_data)
    : list row :=
  match k with
  | Institution =>
      (λ x, make_row Institution institution_columns
              (institution_values page_id x))
        <$> getArvaInstitutionsForPage data
  | LegalAct =>
      (λ x, make_row LegalAct legal_act_columns (legal_act_values page_id x))
        <$> getLegalActsForPage data
  | PageContact =>
      (λ x, make_row PageContact page_contact_columns
              (page_contact_values page_id x))
        <$> getArvaPageContactForPage data
  | RelatedPages =>
      (λ x, make_row RelatedPages related_page_columns
              (related_page_values page_id x))
        <$> getRelatedPagesForPage data
  | Service =>
      (λ x, make_row Service service_columns (service_values page_id x))
        <$> getArvaServicesForPage data
  end.

(** The main table after the upsert of the page of a reply. *)
Definition upserted (d : store) (e : env) (now : string) (page_data : page)
    (rows : list env_record) : list env_record :=
  upsert_rows d e now (pg_id page_data) (pg_locale page_data)
    (pg_title page_data) (Some (join_tags (pg_tags page_data)))
    (pg_path page_data) (pg_content page_data) rows.

(** The store after the statements of [insert_arva_records] for the page
    [page_data] of [data], run at the clock reading [now]. *)
Definition pulled_store (e : env) (now : string) (page_data : page)
    (data : pull_data) (d : store) : store :=
  let d1 :=
    match mains d !! e with
    | Some rows =>
        set_mains (<[e := upserted d e now page_data rows]> (mains d)) d
    | None => d
    end in
  let d2 :=
    foldl (λ d k, with_deleted e k (pg_id page_data) d) d1 related_tables in
  foldl (λ d k, with_inserted e k (pulled_rows k (pg_id page_data) data) d)
    d2 related_tables.

(** A reply to the read query: page 42 with two tags, two institutions and
    no other related entity. *)
Definition sample_page : page :=
  {| pg_id := 42; pg_locale := Some "et"; pg_title := Some "Teenus";
     pg_tags := [Some "toetus"; None; Some "pere"];
     pg_path := Some "/teenus"; pg_content := Some "sisu" |}.

Definition sample_pull_data : pull_data :=
  {| single := Some sample_page;
     getArvaInstitutionsForPage :=
       [ {| in_id := 1; in_name := Some "RIA"; in_url := Some "https://ria.ee";
            in_isResponsible := Some true |};
         {| in_id := 2; in_name := Some "SKA"; in_url := None;
            in_isResponsible := None |} ];
     getLegalActsForPage := [];
     getArvaPageContactForPage := [];
     getRelatedPagesForPage := [];
     getArvaServicesForPage := [] |}.

Definition sample_pull_body : pull_body :=
  {| pb_errors := None; pb_data := Present sample_pull_data |}.

(** A world whose remote API answers the read query for 42 with the
    sample page, for 7 with an [errors] array that repeats a message, and
    for any other identifier with a page that is [null]. *)
Definition sample_pull_world : world :=
  {| can_connect := true;
     request_error_text := λ _, "Expecting value: line 1 column 1 (char 0)";
     name_error := λ _, None;
     clock := λ _, "2024-02-01 00:00:00";
     strptime := λ _, Some (mk_datetime 2024 1 5 3 4 0);
     remote_query := λ _ id,
       if bool_decide (id = 42) then Replied 200 "" (Some sample_pull_body)
       else if bool_decide (id = 7) then
         Replied 200 ""
           (Some {| pb_errors := Some [Some "Forbidden"; Some "Not found";
                                       Some "Forbidden"; None];
                    pb_data := Null |})
       else
         Replied 200 ""
           (Some {| pb_errors := None;
                    pb_data := Present
                      {| single := None;
                         getArvaInstitutionsForPage := [];
                         getLegalActsForPage := [];
                         getArvaPageContactForPage := [];
                         getRelatedPagesForPage := [];
                         getArvaServicesForPage := [] |} |});
     remote_mutation := λ _ _, PostFailed "connection refused" |}.

(** The message of [insert_arva_records] after its commit. *)
Definition saved_message (e : env) (id : Z) : string :=
  "Data saved successfully in the database for article ID " +:+
  str_int id +:+ " in environment: " +:+ env_name e.

(** The related rows of a table after a pull of page [page_id]: the rows
    of the other pages, then the pulled rows. *)
Definition replaced_rows (k : related_kind) (page_id : Z) (data : pull_data)
    (old : list row) : list row :=
  filter (λ r, ¬ page_id_is k page_id r) old ++ pulled_rows k page_id data.

(** Two pulls of the sample page into the [dev] table of the sample
    store. *)
Definition sample_first_pull : result unit * state :=
  insert_arva_records "p" Dev sample_pull_body callback sample_pull_world
    (start sample_store).

Definition sample_second_pull : result unit * state :=
  insert_arva_records "p" Dev sample_pull_body callback sample_pull_world
    (final sample_first_pull).

(** The copy from [dev] to [test] when [test] holds a key of [dev]. *)
Definition sample_conflict_copy : result unit * state :=
  copy_table "p" Dev Test callback sample_world (start sample_conflict_store).

(** The message of [get_arva_records] for one error text of a reply. *)
Definition fetch_error_message (article_id : Z) (text : string) : string :=
  "Error fetching data for article ID " +:+ str_int article_id +:+ ": " +:+
  text.

(** The texts of an [errors] array: [error.get("message", "Unknown
    error")]. *)
Definition error_texts (errors : list gql_error) : list string :=
  default "Unknown error" <$> errors.

(** A computation that raises, if at all, an exception of one of the
    given classes. *)
Definition raises_only (classes : list exn_class) {A} (m : M A) : Prop :=
  ∀ w s, match fst (m w s) with
         | Ok _ => True
         | Raise err => exn_cls err ∈ classes
         end.

(** Every integer that the statements of [insert_arva_records] bind for
    the page [page_data] of the reply [data] (the ids of the page and of
    its related entities) fits an SQLite INTEGER. *)
Definition reply_fits (page_data : page) (data : pull_data) : bool :=
  let page_id := pg_id page_data in
  fits_int64 page_id &&
  forallb (λ x, values_fit (institution_values page_id x))
    (getArvaInstitutionsForPage data) &&
  forallb (λ x, values_fit (legal_act_values page_id x))
    (getLegalActsForPage data) &&
  forallb (λ x, values_fit (page_contact_values page_id x))
    (getArvaPageContactForPage data) &&
  forallb (λ x, values_fit (related_page_values page_id x))
    (getRelatedPagesForPage data) &&
  forallb (λ x, values_fit (service_values page_id x))
    (getArvaServicesForPage data).

(** A reply that the pull engine handles: the request failed in
    transport, the body is not JSON, it carries an [errors] array, the
    status is not 200 or there is no [data], or [data] holds a page. *)
Definition handled_reply (reply : http pull_body) : Prop :=
  match reply with
  | PostFailed _ => True
  | Replied _ _ None => True
  | Replied status_code _ (Some body) =>
      is_Some (pb_errors body) ∨ status_code ≠ 200 ∨ pb_data body = Absent ∨
      ∃ data page_data,
        pb_data body = Present data ∧ single data = Some page_data ∧
        reply_fits page_data data = true
  end.

(** The pull of identifier 5 in the sample pull world, whose reply holds
    [single: null]. *)
Definition sample_null_pull : result unit * state :=
  get_arva_records "p" Dev [Some 5] callback sample_pull_world
    (start sample_store).

(** A computation that leaves a component [proj] of the state as it
    found it, whatever it returns or raises. *)
Definition keeps_proj {X A} (proj : state → X) (m : M A) : Prop :=
  ∀ w s, proj (snd (m w s)) = proj s.

(** The connections and cursors that are open. *)
Definition handles (s : state) : nat * nat := (open_conns s, open_cursors s).

(** What a front end can observe of a run that has not committed: the
    committed store and the messages given to the callback. *)
Definition committed (s : state) : store * list string := (disk s, sink s).

(** A computation that, when it returns, has committed the connection's
    view and given the callback one message, which satisfies [ok], and
    when it raises, has left the committed store and the callback's
    messages alone. *)
Definition commits_or_keeps (ok : string → Prop) {A} (m : M A) : Prop :=
  ∀ w s,
    match fst (m w s) with
    | Ok _ =>
        ∃ msg, ok msg ∧ sink (snd (m w s)) = sink s ++ [msg] ∧
               disk (snd (m w s)) = work (snd (m w s))
    | Raise _ => committed (snd (m w s)) = committed s
    end.

(** The message of [get_arva_records] after [insert_arva_records]
    returned. *)
Definition inserted_message (article_id : Z) : string :=
  "Records for article ID " +:+ str_int article_id +:+ " have been inserted.".

(** A world in which the store does not open. *)
Definition sample_closed_world : world :=
  {| can_connect := false;
     request_error_text := λ _, "Expecting value: line 1 column 1 (char 0)";
     name_error := λ _, None;
     clock := clock sample_push_world;
     strptime := strptime sample_push_world;
     remote_query := remote_query sample_pull_world;
     remote_mutation := remote_mutation sample_push_world |}.

(** A store file without tables. *)
Definition sample_pull_into_empty : result unit * state :=
  pull_one "p" Dev callback 42 sample_pull_world (start empty_store).

(** The sample store with an empty run log. *)
Definition sample_store_no_runs : store :=
  set_last_run (Some []) sample_store.

(** A row with an empty path and a row with NULL tags. *)
Definition sample_row_blank_path : env_record :=
  {| exp_article_id := None; article_id := 4; locale := Some "en";
     title := Some "D"; tags := Some "t"; path := Some "";
     content := Some "text d"; status := None; modified_timestamp := None |}.

Definition sample_row_null_tags : env_record :=
  {| exp_article_id := None; article_id := 5; locale := Some "en";
     title := Some "E"; tags := None; path := Some "/e";
     content := Some "text e"; status := None; modified_timestamp := None |}.

(** A world whose remote API answers a create or update mutation with
    page id 99 and fails in transport on the follow-up. *)
Definition sample_follow_up_down_world : world :=
  {| can_connect := true;
     request_error_text := λ _, "Expecting value: line 1 column 1 (char 0)";
     name_error := λ _, None;
     clock := clock sample_push_world;
     strptime := strptime sample_push_world;
     remote_query := remote_query sample_push_world;
     remote_mutation := λ n m,
       match m with
       | FollowUp _ => PostFailed "connection reset"
       | _ => remote_mutation sample_push_world n m
       end |}.

(** A world whose remote API answers every mutation with an [errors]
    array. *)
Definition sample_rejecting_world : world :=
  {| can_connect := true;
     request_error_text := λ _, "Expecting value: line 1 column 1 (char 0)";
     name_error := λ _, None;
     clock := clock sample_push_world;
     strptime := strptime sample_push_world;
     remote_query := remote_query sample_push_world;
     remote_mutation := λ _ _,
       Replied 200 ""
         (Some {| mb_errors := Some [Some "Forbidden"; Some "Other"];
                  mb_data := Null |}) |}.

(** The messages of the push engine. *)
Definition record_message (page_id : Z) (msg : option string) : string :=
  "Record " +:+ str_int page_id +:+ ": " +:+ str_opt msg.

Definition unbound_response_message : string :=
  "cannot access local variable 'response' where it is not associated with a value".

(** Two rows with the same key and the same five synchronised columns. *)
Definition same_content (r r' : env_record) : Prop :=
  article_id r' = article_id r ∧ locale r' = locale r ∧
  title r' = title r ∧ tags r' = tags r ∧ path r' = path r ∧
  content r' = content r.

(** What a push run on [e] leaves of a store [d0]: the run log, the
    staging table, the triggers, every related table and the main tables
    of the other environments as they are; the main table of [e] with
    the same rows in the same order, each with its key and synchronised
    columns. *)
Definition push_frame (e : env) (d0 d : store) : Prop :=
  last_run d = last_run d0 ∧ initial d = initial d0 ∧
  triggers d = triggers d0 ∧ relateds d = relateds d0 ∧
  (∀ e', e' ≠ e → mains d !! e' = mains d0 !! e') ∧
  option_Forall2 (Forall2 same_content) (mains d0 !! e) (mains d !! e).

(** A computation that, in the world [w], keeps a property of the
    committed store, whatever the connection's view was before. *)
Definition preserves_disk (w : world) (P : store → Prop) {A} (m : M A)
    : Prop :=
  ∀ s, P (disk s) → P (disk (snd (m w s))).

(** What a copy into [target_env] leaves of a store [d0]: the run log,
    the staging table, the triggers and the tables of the other
    environments as they are; the main table of [target_env] with its
    rows, in their order, among the rows it holds afterwards; each
    related table of [target_env], which has no key, with its rows
    first. *)
Definition copy_frame (target_env : env) (d0 d : store) : Prop :=
  last_run d = last_run d0 ∧ initial d = initial d0 ∧
  triggers d = triggers d0 ∧
  (∀ e, e ≠ target_env → mains d !! e = mains d0 !! e) ∧
  (∀ e k, e ≠ target_env → relateds d !! (e, k) = relateds d0 !! (e, k)) ∧
  option_Forall2 sublist (mains d0 !! target_env) (mains d !! target_env) ∧
  ∀ k, option_Forall2 prefix (relateds d0 !! (target_env, k))
         (relateds d !! (target_env, k)).

(** Two rows with the same key and the same push state. *)
Definition same_push_state (r r' : env_record) : Prop :=
  article_id r' = article_id r ∧ exp_article_id r' = exp_article_id r ∧
  status r' = status r.

(** The rows [rows0] are all still there among [rows], in their order,
    each with its key and push state. *)
Definition kept_rows (rows0 rows : list env_record) : Prop :=
  ∃ kept, kept `sublist_of` rows ∧ Forall2 same_push_state rows0 kept.

(** What a pull into [e] leaves of a store [d0]: the run log, the
    staging table, the triggers and the tables of the other environments
    as they are; the rows of the main table of [e], none of which is
    deleted or loses its push state; the related tables of [e], none of
    which is created or dropped. *)
Definition pull_frame (e : env) (d0 d : store) : Prop :=
  last_run d = last_run d0 ∧ initial d = initial d0 ∧
  triggers d = triggers d0 ∧
  (∀ e', e' ≠ e → mains d !! e' = mains d0 !! e') ∧
  (∀ e' k, e' ≠ e → relateds d !! (e', k) = relateds d0 !! (e', k)) ∧
  option_Forall2 kept_rows (mains d0 !! e) (mains d !! e) ∧
  ∀ k, is_Some (relateds d !! (e, k)) ↔ is_Some (relateds d0 !! (e, k)).

(** The primary key of the main tables: no two rows of a table have the
    same [article_id]. *)
Definition keys_unique (d : store) : Prop :=
  ∀ e rows, mains d !! e = Some rows → NoDup (article_id <$> rows).

(** The text holds a semicolon. *)
Fixpoint has_semicolon (s : string) : bool :=
  match s with
  | EmptyString => false
  | String c rest => bool_decide (c = ";"%char) || has_semicolon rest
  end.

(** A run log with three runs, the most recent one in the middle. *)
Definition sample_run_log : list run_row :=
  [mk_run_row 1 (Some "2024-01-05 03:04:00") (Some "initial");
   mk_run_row 2 (Some "2024-03-01 10:00:00") (Some "initial");
   mk_run_row 3 None (Some "initial")].

(** The scan of a push run on the store [d] finds nothing: the main
    table or the run log is missing, or no row is a candidate for the
    cutoff the run log gives. *)
Definition nothing_to_push (w : world) (e : env) (d : store) : Prop :=
  match mains d !! e, last_run d with
  | Some rows, Some runs =>
      Forall (λ r, is_candidate
                     (adapt_datetime <$>
                      (last_run_timestamp runs ≫= strptime w)) r = false)
             rows
  | _, _ => True
  end.

(** The sample store after a push of all its rows: every row carries a
    timestamp that is not later than the run log's. *)
Definition sample_settled_store : store :=
  let d := created_store "2024-01-05 03:04:00" empty_store in
  set_mains (<[Dev := [sample_row_b]]> (mains d)) d.

(** Every character of the text satisfies [P]. *)
Fixpoint all_chars (P : ascii → bool) (s : string) : bool :=
  match s with
  | EmptyString => true
  | String c rest => P c && all_chars P rest
  end.

(** The text made of a newline. *)
Definition newline : string := String "010"%char EmptyString.

(** SQLite takes every name that [create_db] interpolates for
    [table_name] (the staging table, and per environment the main
    table, the trigger and the five related tables) for a name of the
    store. *)
Definition names_accepted (w : world) (table_name : string) : Prop :=
  name_error w (table_name +:+ "_initial") = None ∧
  ∀ e,
    name_error w (env_table_name table_name e) = None ∧
    name_error w ("update_modified_timestamp_" +:+ env_table_name table_name e)
      = None ∧
    ∀ k, name_error w (related_table_name table_name e k) = None.

(** The main table is listed in the order of its keys, as SQLite scans
    it. *)
Fixpoint key_ordered (rows : list env_record) : Prop :=
  match rows with
  | [] => True
  | r :: rest =>
      Forall (λ r', article_id r < article_id r') rest ∧ key_ordered rest
  end.

(** The main table after the rows [new] have been inserted one after
    the other, each at the place of its key. *)
Definition insert_all (table new : list env_record) : list env_record :=
  foldl (λ t r, insert_by_key r t) table new.

(** The rows of every main table stand in the order of their keys. *)
Definition keys_ordered (d : store) : Prop :=
  ∀ e rows, mains d !! e = Some rows → key_ordered rows.

(** A world whose SQLite reads the dotted names that [create_db] makes
    of the project [a.b] as names in a database [a], which is not
    attached. *)
Definition sample_dotted_name_world : world :=
  {| can_connect := true;
     request_error_text := λ _, "Expecting value: line 1 column 1 (char 0)";
     name_error := λ name,
       if String.prefix "a." name then Some "unknown database a" else None;
     clock := λ n, "2024-01-05 03:04:0" +:+ pretty (Z.of_nat n);
     strptime := λ _, Some (mk_datetime 2024 1 5 3 4 0);
     remote_query := λ _ _, PostFailed "connection refused";
     remote_mutation := λ _ _, PostFailed "connection refused" |}.

(** A world whose remote API answers a create mutation with the page id
    [2 ^ 63], one more than the greatest SQLite INTEGER. *)
Definition sample_big_id_world : world :=
  {| can_connect := true;
     request_error_text := λ _, "Expecting value: line 1 column 1 (char 0)";
     name_error := λ _, None;
     clock := λ _, "2024-02-01 00:00:00";
     strptime := λ _, Some (mk_datetime 2024 1 5 3 4 0);
     remote_query := λ _ _, PostFailed "connection refused";
     remote_mutation := λ _ m,
       match m with
       | Create _ =>
           success_reply 200 ""
             {| md_create := Some {| pr_page_id := 2 ^ 63;
                                     pr_message := Some "Page created" |};
                md_update := None |}
       | _ => PostFailed "connection refused"
       end |}.

(* ================================================================== *)
(** * Proofs *)
(* ================================================================== *)
Lemma bind_run {A B} (m : M A) (f : A → M B) w s a s' :
  m w s = (Ok a, s') → (m ≫= f) w s = f a w s'.
Proof. intros H. unfold mbind, M_bind. by rewrite H. Qed.

Lemma bind_raise {A B} (m : M A) (f : A → M B) w s e s' :
  m w s = (Raise e, s') → (m ≫= f) w s = (Raise e, s').
Proof. intros H. unfold mbind, M_bind. by rewrite H. Qed.

Ltac monad :=
  cbv [mbind M_bind mret M_ret get_work put_work ask raise]; cbn.

Ltac st :=
  cbv [with_work with_disk with_handles with_sink with_console with_ticks
       with_requests];
  cbn [disk work open_conns open_cursors sink console ticks requests
       Init.Nat.pred].

(** ** Binding parameters *)

Lemma bind_parameters_run vals w s :
  values_fit vals = true → bind_parameters vals w s = (Ok tt, s).
Proof. intros H. unfold bind_parameters. by rewrite H. Qed.

Lemma bind_parameters_overflow vals w s :
  values_fit vals = false →
  bind_parameters vals w s =
  (Raise (mk_exn OverflowError
            "Python int too large to convert to SQLite INTEGER"), s).
Proof. intros H. unfold bind_parameters. by rewrite H. Qed.

Lemma text_value_ok o :
  match text_value o with VInt n => fits_int64 n | _ => true end = true.
Proof. by destruct o. Qed.

Lemma values_fit_int_texts N texts :
  values_fit (VInt N :: (text_value <$> texts)) = fits_int64 N.
Proof.
  unfold values_fit. cbn [forallb].
  assert (forallb (λ v, match v with VInt n => fits_int64 n | _ => true end)
            (text_value <$> texts) = true) as ->; [|apply andb_true_r].
  induction texts as [|o texts IH]; [done|].
  cbn. by rewrite text_value_ok, IH.
Qed.

Lemma bind_int_texts_run N texts w s :
  fits_int64 N = true →
  bind_parameters (VInt N :: (text_value <$> texts)) w s = (Ok tt, s).
Proof.
  intros HN. apply bind_parameters_run. by rewrite values_fit_int_texts.
Qed.

Lemma with_work_id s : with_work (work s) s = s.
Proof. by destruct s. Qed.

Lemma check_name_run name w s :
  name_error w name = None → check_name name w s = (Ok tt, s).
Proof. intros H. unfold check_name. monad. by rewrite H. Qed.

Lemma check_name_fail name msg w s :
  name_error w name = Some msg →
  check_name name w s = (Raise (mk_exn SqliteError msg), s).
Proof. intros H. unfold check_name. monad. by rewrite H. Qed.

Lemma create_main_env_table_run tn e w s :
  name_error w (env_table_name tn e) = None →
  create_main_env_table tn e w s
  = (Ok tt, with_work (ensure_main e (work s)) s).
Proof.
  intros Hn. unfold create_main_env_table.
  erewrite bind_run by (by apply check_name_run).
  unfold ensure_main. monad.
  destruct (mains (work s) !! e); cbn; [by rewrite with_work_id | done].
Qed.

Lemma mains_ensure_main e d e' :
  mains (ensure_main e d) !! e' =
  if decide (e = e') then Some (default [] (mains d !! e)) else mains d !! e'.
Proof.
  unfold ensure_main. destruct (mains d !! e) eqn:E; cbn.
  - case_decide; by subst.
  - rewrite lookup_insert. case_decide; [done|done].
Qed.

Lemma create_update_trigger_run tn e w s :
  name_error w ("update_modified_timestamp_" +:+ env_table_name tn e) = None →
  is_Some (mains (work s) !! e) →
  create_update_trigger tn e w s = (Ok tt, with_work (ensure_trigger e (work s)) s).
Proof.
  intros Hn [rows H]. unfold create_update_trigger.
  erewrite bind_run by (by apply check_name_run).
  monad. by rewrite H.
Qed.

Lemma create_related_table_run tn e k w s :
  name_error w (related_table_name tn e k) = None →
  create_related_table tn e k w s
  = (Ok tt, with_work (ensure_related e k (work s)) s).
Proof.
  intros Hn. unfold create_related_table.
  erewrite bind_run by (by apply check_name_run).
  unfold ensure_related. monad.
  destruct (relateds (work s) !! (e, k)); cbn; [by rewrite with_work_id | done].
Qed.

Lemma with_work_twice d d' s : with_work d (with_work d' s) = with_work d s.
Proof. done. Qed.

Lemma create_related_tables_run tn e w s :
  (∀ k, name_error w (related_table_name tn e k) = None) →
  create_related_tables tn e w s =
  (Ok tt, with_work (foldl (λ d k, ensure_related e k d) (work s) related_tables) s).
Proof.
  intros Hn. unfold create_related_tables.
  generalize related_tables. intros l. revert s.
  induction l as [|k l IH]; intros s; cbn.
  - by rewrite with_work_id.
  - erewrite bind_run by (by apply create_related_table_run).
    rewrite IH. done.
Qed.

Lemma create_env_run tn e w s :
  names_accepted w tn →
  (create_main_env_table tn e;; create_update_trigger tn e;;
   create_related_tables tn e) w s
  = (Ok tt, with_work (ensure_env e (work s)) s).
Proof.
  intros [_ Hn]. destruct (Hn e) as (Hm & Ht & Hr).
  erewrite bind_run by (by apply create_main_env_table_run).
  erewrite bind_run.
  2:{ apply create_update_trigger_run; [done|]. cbn. rewrite mains_ensure_main.
      rewrite decide_True by done. eauto. }
  rewrite create_related_tables_run by done. done.
Qed.

Lemma create_env_tables_run tn w s :
  names_accepted w tn →
  create_env_tables tn w s = (Ok tt, with_work (ensure_schema (work s)) s).
Proof.
  intros Hn. unfold create_env_tables, ensure_schema.
  generalize envs. intros l. revert s.
  induction l as [|e l IH]; intros s; cbn.
  - by rewrite with_work_id.
  - erewrite bind_run by (by apply create_env_run).
    rewrite IH. done.
Qed.

(** [create_base_tables]: the run log is made, and committed at once,
    when it is missing; the row of this run is inserted. *)
Lemma create_base_tables_run w s :
  create_base_tables w s =
  (Ok tt,
   with_ticks (S (ticks s))
     (with_work (add_initial_run (clock w (ticks s)) (work s))
        (match last_run (work s) with
         | Some _ => s
         | None => with_disk (set_last_run (Some []) (work s)) s
         end))).
Proof.
  unfold create_base_tables, sql_create_last_run, sql_insert_initial_run.
  cbv [mbind M_bind mret M_ret get_work put_work ask raise sql_now commit].
  cbn.
  destruct s as [dk wk oc ocu sk co ti rq]; cbn.
  destruct wk as [lr ini ms tr rl]; cbn.
  destruct lr; cbn; done.
Qed.

Lemma create_initial_table_run tn w s :
  name_error w (tn +:+ "_initial") = None →
  create_initial_table tn w s = (Ok tt, with_work (ensure_initial (work s)) s).
Proof.
  intros Hn. unfold create_initial_table.
  erewrite bind_run by (by apply check_name_run).
  unfold ensure_initial. monad.
  destruct s as [dk wk oc ocu sk co ti rq]; cbn.
  destruct wk as [lr ini ms tr rl]; cbn.
  destruct ini; cbn; done.
Qed.

Lemma try_except_ok {A} (body : M A) cl h w s a s' :
  body w s = (Ok a, s') → try_except body cl h w s = (Ok a, s').
Proof. intros H. unfold try_except. by rewrite H. Qed.

Lemma try_finally_run {A} (body : M A) fin w s r s' s'' :
  body w s = (r, s') → fin w s' = (Ok tt, s'') →
  try_finally body fin w s = (r, s'').
Proof. intros H1 H2. unfold try_finally. by rewrite H1, H2. Qed.

Lemma connect_run w s :
  can_connect w = true →
  connect w s =
  (Ok tt, with_handles (S (open_conns s)) (open_cursors s) (with_work (disk s) s)).
Proof. intros H. unfold connect. by rewrite H. Qed.

Lemma close_run w s :
  (cursor_close;; conn_close) w s =
  (Ok tt, with_handles (pred (open_conns s)) (pred (open_cursors s))
            (with_work (disk s) s)).
Proof. done. Qed.


Lemma create_db_run db tn w s :
  can_connect w = true →
  names_accepted w tn →
  create_db db tn callback w s =
  (Ok tt,
   {| disk := created_store (clock w (ticks s)) (disk s);
      work := created_store (clock w (ticks s)) (disk s);
      open_conns := open_conns s; open_cursors := open_cursors s;
      sink := sink s ++ [created_message db]; console := console s;
      ticks := S (ticks s); requests := requests s |}).
Proof.
  intros Hc Hn. unfold create_db, initialize_db_connection.
  erewrite bind_run; cycle 1.
  { erewrite bind_run by (by apply connect_run). unfold open_cursor. st. reflexivity. }
  erewrite try_finally_run; cycle 1.
  - apply try_except_ok.
    erewrite bind_run by apply create_base_tables_run. st.
    erewrite bind_run by (apply create_initial_table_run, Hn).
    erewrite bind_run by (by apply create_env_tables_run).
    unfold commit, callback.  cbv [mbind M_bind mret M_ret]. reflexivity.
  - rewrite close_run. reflexivity.
  - destruct (last_run (disk s)); st;
      unfold created_store, created_message; reflexivity.
Qed.

Lemma ensure_related_fields e k d :
  last_run (ensure_related e k d) = last_run d ∧
  initial (ensure_related e k d) = initial d ∧
  mains (ensure_related e k d) = mains d ∧
  triggers (ensure_related e k d) = triggers d.
Proof. unfold ensure_related. by destruct (relateds d !! (e, k)). Qed.

Lemma ensure_main_fields e d :
  last_run (ensure_main e d) = last_run d ∧
  initial (ensure_main e d) = initial d ∧
  relateds (ensure_main e d) = relateds d ∧
  triggers (ensure_main e d) = triggers d.
Proof. unfold ensure_main. by destruct (mains d !! e). Qed.

Lemma relateds_ensure_related e k d p :
  relateds (ensure_related e k d) !! p =
  if decide ((e, k) = p) then Some (default [] (relateds d !! (e, k)))
  else relateds d !! p.
Proof.
  unfold ensure_related. destruct (relateds d !! (e, k)) eqn:E; cbn.
  - case_decide; by subst.
  - rewrite lookup_insert. by case_decide.
Qed.

Lemma ensure_env_fields e d :
  last_run (ensure_env e d) = last_run d ∧
  initial (ensure_env e d) = initial d.
Proof.
  unfold ensure_env, related_tables. cbn [foldl].
  repeat match goal with
  | |- context [last_run (ensure_related ?e ?k ?d)] =>
      rewrite (proj1 (ensure_related_fields e k d))
  | |- context [initial (ensure_related ?e ?k ?d)] =>
      rewrite (proj1 (proj2 (ensure_related_fields e k d)))
  end.
  cbn. by rewrite (proj1 (ensure_main_fields e d)), (proj1 (proj2 (ensure_main_fields e d))).
Qed.

Lemma mains_ensure_env e d e' :
  mains (ensure_env e d) !! e' =
  if decide (e = e') then Some (default [] (mains d !! e)) else mains d !! e'.
Proof.
  unfold ensure_env, related_tables. cbn [foldl].
  repeat match goal with
  | |- context [mains (ensure_related ?e ?k ?d)] =>
      rewrite (proj1 (proj2 (proj2 (ensure_related_fields e k d))))
  end.
  cbn. apply mains_ensure_main.
Qed.

Lemma triggers_ensure_env e d :
  triggers (ensure_env e d) = {[e]} ∪ triggers d.
Proof.
  unfold ensure_env, related_tables. cbn [foldl].
  repeat match goal with
  | |- context [triggers (ensure_related ?e ?k ?d)] =>
      rewrite (proj2 (proj2 (proj2 (ensure_related_fields e k d))))
  end.
  cbn. by rewrite (proj2 (proj2 (proj2 (ensure_main_fields e d)))).
Qed.

Lemma relateds_ensure_env e d e' k :
  relateds (ensure_env e d) !! (e', k) =
  if decide (e = e') then Some (default [] (relateds d !! (e', k)))
  else relateds d !! (e', k).
Proof.
  unfold ensure_env, related_tables. cbn [foldl].
  rewrite !relateds_ensure_related. cbn.
  rewrite (proj1 (proj2 (proj2 (ensure_main_fields e d)))).
  destruct (decide (e = e')) as [->|Hne].
  - destruct k; repeat (case_decide; simplify_eq; try done);
      by destruct (relateds d !! _).
  - repeat (case_decide; simplify_eq; try done).
Qed.

Lemma created_store_last_run now d :
  last_run (created_store now d) =
  Some (default [] (last_run d) ++ [initial_run now (default [] (last_run d))]).
Proof.
  unfold created_store, ensure_schema, envs. cbn [foldl].
  rewrite !(proj1 (ensure_env_fields _ _)). done.
Qed.

Lemma created_store_initial now d :
  initial (created_store now d) = Some (default [] (initial d)).
Proof.
  unfold created_store, ensure_schema, envs. cbn [foldl].
  rewrite !(proj2 (ensure_env_fields _ _)). done.
Qed.

Lemma created_store_mains now d e :
  mains (created_store now d) !! e = Some (default [] (mains d !! e)).
Proof.
  unfold created_store, ensure_schema, envs. cbn [foldl].
  rewrite !mains_ensure_env. cbn.
  destruct e; repeat (case_decide; simplify_eq; try done);
    by destruct (mains d !! _).
Qed.

Lemma created_store_relateds now d e k :
  relateds (created_store now d) !! (e, k) =
  Some (default [] (relateds d !! (e, k))).
Proof.
  unfold created_store, ensure_schema, envs. cbn [foldl].
  rewrite !relateds_ensure_env. cbn.
  destruct e; repeat (case_decide; simplify_eq; try done);
    by destruct (relateds d !! _).
Qed.

Lemma created_store_triggers now d e :
  e ∈ triggers (created_store now d).
Proof.
  unfold created_store, ensure_schema, envs. cbn [foldl].
  rewrite !triggers_ensure_env. destruct e; set_solver.
Qed.

Lemma created_store_triggers_eq now d :
  triggers (created_store now d) = {[Prod]} ∪ ({[Test]} ∪ ({[Dev]} ∪ triggers d)).
Proof.
  unfold created_store, ensure_schema, envs. cbn [foldl].
  rewrite !triggers_ensure_env. done.
Qed.

(** C6.  With a store that can be opened and a table name whose
    interpolated names SQLite accepts, [create_db] run twice in a row
    reports success both times and raises nothing; after the first run
    every table and trigger of the schema exists (a table that existed
    keeps its rows); the second run leaves the staging table, the main
    tables, the triggers and the related tables exactly as the first left
    them; and each run appends one row with status ['initial'] and the
    time of that run to [last_run]. *)
Theorem create_db_idempotent (w : world) (db table_name : string) (s : state) :
  can_connect w = true →
  names_accepted w table_name →
  let r1 := create_db db table_name callback w s in
  let r2 := create_db db table_name callback w (final r1) in
  let d1 := disk (final r1) in
  let d2 := disk (final r2) in
  let rows0 := default [] (last_run (disk s)) in
  let run1 := mk_run_row (next_run_id rows0) (Some (clock w (ticks s)))
                (Some "initial") in
  let run2 := mk_run_row (next_run_id (rows0 ++ [run1]))
                (Some (clock w (S (ticks s)))) (Some "initial") in
  outcome r1 = Ok tt ∧ outcome r2 = Ok tt ∧
  sink (final r2) = (sink s ++ [created_message db]) ++ [created_message db] ∧
  initial d1 = Some (default [] (initial (disk s))) ∧
  (∀ e, mains d1 !! e = Some (default [] (mains (disk s) !! e))) ∧
  (∀ e, e ∈ triggers d1) ∧
  (∀ e k, relateds d1 !! (e, k) = Some (default [] (relateds (disk s) !! (e, k)))) ∧
  initial d2 = initial d1 ∧ mains d2 = mains d1 ∧
  triggers d2 = triggers d1 ∧ relateds d2 = relateds d1 ∧
  last_run d1 = Some (rows0 ++ [run1]) ∧
  last_run d2 = Some ((rows0 ++ [run1]) ++ [run2]).
Proof.
  intros Hc Hn r1 r2 d1 d2 rows0 run1 run2.
  subst r1 r2 d1 d2.
  rewrite (create_db_run db table_name w s Hc Hn).
  cbn [final snd outcome fst].
  rewrite (create_db_run db table_name w _ Hc Hn).
  cbn [final snd outcome fst disk sink ticks].
  set (d1 := created_store (clock w (ticks s)) (disk s)).
  assert (Hm : ∀ e, mains d1 !! e = Some (default [] (mains (disk s) !! e)))
    by (intros; apply created_store_mains).
  assert (Hr : ∀ e k, relateds d1 !! (e, k) =
                      Some (default [] (relateds (disk s) !! (e, k))))
    by (intros; apply created_store_relateds).
  assert (Ht : ∀ e, e ∈ triggers d1) by (intros; apply created_store_triggers).
  assert (Hi : initial d1 = Some (default [] (initial (disk s))))
    by apply created_store_initial.
  assert (Hl : last_run d1 = Some (rows0 ++ [run1]))
    by apply created_store_last_run.
  clearbody d1.
  repeat split; try done.
  - rewrite created_store_initial. by rewrite Hi.
  - apply map_eq. intros e. rewrite created_store_mains. by rewrite Hm.
  - rewrite created_store_triggers_eq. apply set_eq. intros x.
    specialize (Ht x). set_solver.
  - apply map_eq. intros [e k]. rewrite created_store_relateds. by rewrite Hr.
  - rewrite created_store_last_run. by rewrite Hl.
Qed.

Lemma create_db_idempotent_witness :
  outcome (create_db "p.db" "p" callback sample_world
             (final (create_db "p.db" "p" callback sample_world
                       (start empty_store)))) = Ok tt.
Proof.
  refine (proj1 (proj2 (create_db_idempotent sample_world "p.db" "p"
                          (start empty_store) eq_refl _))).
  by split.
Defined.

Lemma try_except_raise_caught {A} (body : M A) cl h w s e s' :
  body w s = (Raise e, s') → exn_cls e ∈ cl →
  try_except body cl h w s = h e w s'.
Proof.
  intros H Hin. unfold try_except. rewrite H.
  by rewrite bool_decide_eq_true_2.
Qed.

Lemma try_except_raise_missed {A} (body : M A) cl h w s e s' :
  body w s = (Raise e, s') → exn_cls e ∉ cl →
  try_except body cl h w s = (Raise e, s').
Proof.
  intros H Hin. unfold try_except. rewrite H.
  by rewrite bool_decide_eq_false_2.
Qed.

(** ** The order of the run-log timestamps *)

Lemma string_ltb_trans a b c :
  String.ltb a b = true → String.ltb b c = true → String.ltb a c = true.
Proof.
  unfold String.ltb. intros H1 H2.
  destruct (String.compare a b) eqn:E1; try discriminate.
  destruct (String.compare b c) eqn:E2; try discriminate.
  apply OrderedTypeEx.String_as_OT.cmp_lt in E1, E2.
  pose proof (OrderedTypeEx.String_as_OT.lt_trans _ _ _ E1 E2) as H.
  apply OrderedTypeEx.String_as_OT.cmp_lt in H.
  unfold OrderedTypeEx.String_as_OT.cmp in H. by rewrite H.
Qed.

Lemma string_ltb_total a b :
  String.ltb a b = false → String.ltb b a = false → a = b.
Proof.
  unfold String.ltb. rewrite (String.compare_antisym a b).
  destruct (String.compare b a) eqn:E; cbn; try done.
  intros _ _. symmetry. by apply String.compare_eq_iff.
Qed.

Lemma string_ltb_irrefl a : String.ltb a a = false.
Proof.
  unfold String.ltb. pose proof (String.compare_antisym a a) as H.
  by destruct (String.compare a a).
Qed.

(** [sql_lt] is a strict weak order: what is not below [b] is not below
    anything [b] is not below. *)
Lemma sql_lt_not_below a b c :
  sql_lt a b = false → sql_lt b c = false → sql_lt a c = false.
Proof.
  destruct a as [a|], b as [b|], c as [c|]; cbn; try done.
  intros Hab Hbc. destruct (String.ltb a c) eqn:Hac; [|done].
  destruct (String.ltb b a) eqn:Hba.
  - by rewrite (string_ltb_trans b a c) in Hbc.
  - assert (a = b) as -> by by apply string_ltb_total. congruence.
Qed.

Lemma sql_lt_asym a b : sql_lt a b = true → sql_lt b a = false.
Proof.
  destruct a as [a|], b as [b|]; cbn; try done.
  intros Hab. destruct (String.ltb b a) eqn:Hba; [|done].
  pose proof (string_ltb_trans a b a Hab Hba) as H.
  by rewrite string_ltb_irrefl in H.
Qed.

Lemma sql_lt_irrefl a : sql_lt a a = false.
Proof. destruct a; cbn; [apply string_ltb_irrefl|done]. Qed.

Lemma latest_run_maximal runs r :
  latest_run runs = Some r →
  r ∈ runs ∧
  ∀ r', r' ∈ runs →
    sql_lt (last_sync_timestamp r) (last_sync_timestamp r') = false.
Proof.
  revert r. induction runs as [|x runs IH]; intros r; cbn; [done|].
  destruct (latest_run runs) as [m|] eqn:Em.
  - destruct (IH m eq_refl) as [Hin Hmax].
    destruct (sql_lt (last_sync_timestamp x) (last_sync_timestamp m)) eqn:Hx;
      intros [= <-].
    + split; [by right|]. intros r' [->|Hr']%elem_of_cons.
      * by apply sql_lt_asym.
      * by apply Hmax.
    + split; [by left|]. intros r' [->|Hr']%elem_of_cons.
      * apply sql_lt_irrefl.
      * eapply sql_lt_not_below; [exact Hx|by apply Hmax].
  - intros [= <-]. destruct runs as [|y runs].
    + split; [by left|]. intros r' [->|Hr']%elem_of_cons.
      * apply sql_lt_irrefl.
      * by apply elem_of_nil in Hr'.
    + cbn in Em. repeat case_match; done.
Qed.

Lemma latest_run_None runs : latest_run runs = None → runs = [].
Proof.
  destruct runs as [|x runs]; [done|]. cbn. by repeat case_match.
Qed.

(** The cutoff of the scan is the greatest timestamp of the run log. *)
Lemma last_run_timestamp_greatest runs c :
  (∃ run, run ∈ runs ∧ last_sync_timestamp run = Some c) →
  (∀ run, run ∈ runs → sql_lt (Some c) (last_sync_timestamp run) = false) →
  last_run_timestamp runs = Some c.
Proof.
  intros (run & Hin & Hts) Hmax. unfold last_run_timestamp.
  destruct (latest_run runs) as [r|] eqn:E.
  - destruct (latest_run_maximal runs r E) as [Hr Hge]. cbn.
    specialize (Hge run Hin). rewrite Hts in Hge.
    specialize (Hmax r Hr).
    destruct (last_sync_timestamp r) as [t|]; [|done].
    cbn in Hge, Hmax. f_equal. by apply string_ltb_total.
  - apply latest_run_None in E. subst. by apply elem_of_nil in Hin.
Qed.

Lemma last_run_timestamp_none runs :
  (∀ run, run ∈ runs → last_sync_timestamp run = None) →
  last_run_timestamp runs = None.
Proof.
  intros Hall. unfold last_run_timestamp.
  destruct (latest_run runs) as [r|] eqn:E; [|done].
  destruct (latest_run_maximal runs r E) as [Hr _]. cbn. by apply Hall.
Qed.

(** [get_last_run_info] on a store with a run log: it returns the parsed
    most recent timestamp, or [None] after a message on the console. *)
Lemma get_last_run_info_run w s runs :
  last_run (work s) = Some runs →
  ∃ msgs,
    get_last_run_info w s =
    (Ok (last_run_timestamp runs ≫= strptime w),
     with_console (console s ++ msgs) s).
Proof.
  intros Hl. unfold get_last_run_info, last_run_timestamp.
  unfold try_except. cbv [mbind M_bind mret M_ret get_work ask raise print].
  rewrite Hl.
  destruct (option_bind _ _ last_sync_timestamp (latest_run runs)) as [ts|] eqn:E;
    cbn [option_bind].
  - destruct (strptime w ts) as [dt|] eqn:Ep.
    + exists []. rewrite app_nil_r. by destruct s.
    + cbn. eexists [_]. reflexivity.
  - eexists [_]. reflexivity.
Qed.

Lemma fetch_all_records_run w tn e s runs rows :
  last_run (work s) = Some runs →
  mains (work s) !! e = Some rows →
  ∃ msgs,
    fetch_all_records tn e w s =
    (Ok (select_push_columns <$>
         filter (λ r, is_candidate
                        (adapt_datetime <$> (last_run_timestamp runs ≫= strptime w)) r)
                rows),
     with_console (console s ++ msgs) s).
Proof.
  intros Hl Hm. unfold fetch_all_records.
  destruct (get_last_run_info_run w s runs Hl) as [msgs Hg].
  exists msgs. apply try_except_ok.
  erewrite bind_run by apply Hg.
  cbv [mbind M_bind mret M_ret get_work]. st. by rewrite Hm.
Qed.

(** C1.  On a store with a run log, let the cutoff be the greatest
    timestamp of the log: a timestamp of one of its rows that no row's
    timestamp exceeds (NULL counting below every text), in the form the
    datetime adapter writes; or nothing, when no row has a timestamp.
    Then [fetch_all_records] returns, in the order of the table, the
    push columns of exactly those rows whose [modified_timestamp] is
    NULL or strictly greater than the cutoff; a row whose timestamp is
    less than or equal to the cutoff is not selected. *)
Theorem push_candidate_selection (w : world) (table_name : string) (e : env)
    (s : state) (runs : list run_row) (rows : list env_record)
    (cutoff : option string) :
  last_run (work s) = Some runs →
  mains (work s) !! e = Some rows →
  match cutoff with
  | Some c =>
      (∃ run, run ∈ runs ∧ last_sync_timestamp run = Some c) ∧
      (∀ run, run ∈ runs →
              sql_lt (Some c) (last_sync_timestamp run) = false) ∧
      (∃ dt, strptime w c = Some dt ∧ adapt_datetime dt = c)
  | None => ∀ run, run ∈ runs → last_sync_timestamp run = None
  end →
  ∃ selected,
    outcome (fetch_all_records table_name e w s) =
      Ok (select_push_columns <$> selected) ∧
    selected `sublist_of` rows ∧
    ∀ r, r ∈ selected ↔
         r ∈ rows ∧
         (modified_timestamp r = None ∨
          ∃ m c, modified_timestamp r = Some m ∧
                 cutoff = Some c ∧ text_gt m c).
Proof.
  intros Hl Hm Hcut.
  destruct (fetch_all_records_run w table_name e s runs rows Hl Hm)
    as [msgs Hrun].
  assert (Hc : adapt_datetime <$> (last_run_timestamp runs ≫= strptime w)
               = cutoff).
  { destruct cutoff as [c|].
    - destruct Hcut as (Hin & Hmax & dt & Hp & Ha).
      rewrite (last_run_timestamp_greatest runs c Hin Hmax). cbn.
      rewrite Hp. cbn. by rewrite Ha.
    - by rewrite (last_run_timestamp_none runs Hcut). }
  rewrite Hc in Hrun.
  eexists. rewrite Hrun. split; [reflexivity|].
  split; [apply sublist_filter|].
  intros r. rewrite list_elem_of_filter.
  split; intros [Hcand Hin]; split; try done.
  - unfold is_candidate in Hcand.
    destruct (modified_timestamp r) as [m|]; [|by left].
    right. destruct cutoff as [c|]; [|done].
    exists m, c. repeat split. unfold text_gt.
    by destruct (String.ltb c m).
  - unfold is_candidate.
    destruct Hin as [->|(m & c & -> & -> & Hgt)]; [done|].
    unfold text_gt in Hgt. by rewrite Hgt.
Qed.

(** ** Computations that leave the store alone *)

Lemma keeps_store_ret {A} (a : A) : keeps_store (mret a).
Proof. by intros w s. Qed.

Lemma keeps_store_raise {A} c msg : keeps_store (@raise A c msg).
Proof. by intros w s. Qed.

Lemma keeps_store_bind {A B} (m : M A) (f : A → M B) :
  keeps_store m → (∀ a, keeps_store (f a)) → keeps_store (m ≫= f).
Proof.
  intros Hm Hf w s. unfold mbind, M_bind.
  specialize (Hm w s). destruct (m w s) as [[a|err] s1]; cbn in *.
  - destruct Hm as [<- <-]. apply Hf.
  - done.
Qed.

Lemma keeps_store_try_except {A} (body : M A) cl h :
  keeps_store body → (∀ err, keeps_store (h err)) →
  keeps_store (try_except body cl h).
Proof.
  intros Hm Hh w s. unfold try_except.
  specialize (Hm w s). destruct (body w s) as [[a|err] s1]; cbn in *; [done|].
  case_bool_decide; cbn; [|done]. destruct Hm as [<- <-]. apply Hh.
Qed.

Lemma keeps_store_try_except_all {A} (body : M A) h :
  keeps_store body → (∀ err, keeps_store (h err)) →
  keeps_store (try_except_all body h).
Proof.
  intros Hm Hh w s. unfold try_except_all.
  specialize (Hm w s). destruct (body w s) as [[a|err] s1]; cbn in *; [done|].
  destruct Hm as [<- <-]. apply Hh.
Qed.

Lemma keeps_store_callback msg : keeps_store (callback msg).
Proof. by intros w s. Qed.

Lemma keeps_store_print msg : keeps_store (print msg).
Proof. by intros w s. Qed.

Lemma keeps_store_get_work : keeps_store get_work.
Proof. by intros w s. Qed.

Lemma keeps_store_ask : keeps_store ask.
Proof. by intros w s. Qed.

Lemma keeps_store_next_request : keeps_store next_request.
Proof. by intros w s. Qed.

Lemma keeps_store_sql_now : keeps_store sql_now.
Proof. by intros w s. Qed.

Lemma keeps_store_for_each {A} (l : list A) body :
  (∀ x, keeps_store (body x)) → keeps_store (for_each l body).
Proof.
  intros Hb. induction l as [|x l IH]; cbn.
  - apply keeps_store_ret.
  - apply keeps_store_bind; [apply Hb | intros _; apply IH].
Qed.

Lemma keeps_store_bind_parameters vals : keeps_store (bind_parameters vals).
Proof.
  intros w s. unfold bind_parameters. by destruct (values_fit _).
Qed.

Create HintDb keeps discriminated.
Hint Resolve keeps_store_ret keeps_store_raise keeps_store_callback
  keeps_store_print keeps_store_get_work keeps_store_ask
  keeps_store_next_request keeps_store_sql_now
  keeps_store_bind_parameters : keeps.

Ltac keeps :=
  repeat first
    [ progress auto with keeps
    | apply keeps_store_bind; [|intros ?]
    | apply keeps_store_try_except; [|intros ?]
    | apply keeps_store_try_except_all; [|intros ?]
    | apply keeps_store_for_each; intros ?
    | match goal with
      | |- keeps_store (match ?x with _ => _ end) => destruct x
      | |- keeps_store (if ?x then _ else _) => destruct x
      end ].

Lemma keeps_store_execute_graphql_mutation m :
  keeps_store (execute_graphql_mutation m).
Proof.
  unfold execute_graphql_mutation.
  apply keeps_store_bind; [auto with keeps|intros n].
  apply keeps_store_bind; [auto with keeps|intros w].
  keeps.
Qed.

Lemma keeps_store_sql_select_related tn e k p :
  keeps_store (sql_select_related tn e k p).
Proof. unfold sql_select_related. keeps. Qed.

Lemma keeps_store_fetch_related_data tn e a :
  keeps_store (fetch_related_data tn e a).
Proof.
  unfold fetch_related_data.
  repeat (apply keeps_store_bind;
          [apply keeps_store_sql_select_related | intros ?]).
  apply keeps_store_ret.
Qed.

Lemma keeps_store_handle_follow_up_mutation p rd :
  keeps_store (handle_follow_up_mutation p rd callback).
Proof.
  unfold handle_follow_up_mutation.
  apply keeps_store_try_except; [|intros; auto with keeps].
  apply keeps_store_bind; [apply keeps_store_execute_graphql_mutation|intros b].
  keeps.
Qed.

(** ** The push of one row *)

Lemma sql_update_status_run w tn e s rows N p l :
  mains (work s) !! e = Some rows → p ≠ "" → l ≠ "" →
  fits_int64 N = true →
  sql_update_status tn e N (Some p) (Some l) w s =
  (Ok tt,
   with_work
     (set_mains
        (<[e := status_updated (work s) e (clock w (ticks s)) N p l rows]>
           (mains (work s))) (work s))
     (with_ticks (S (ticks s)) s)).
Proof.
  intros Hm Hp Hl HN. unfold sql_update_status.
  erewrite bind_run by reflexivity.
  erewrite bind_run by reflexivity. st. rewrite Hm.
  erewrite bind_run
    by (apply (bind_int_texts_run N [Some p; Some l]), HN).
  unfold put_work. st. do 4 f_equal.
  unfold status_updated. apply list_fmap_ext. intros i r _.
  unfold same_path_locale.
  assert (E1 : bool_decide (is_Some (Some p) ∧ path r = Some p)
               = bool_decide (path r = Some p))
    by (apply bool_decide_ext; naive_solver).
  assert (E2 : bool_decide (is_Some (Some l) ∧ locale r = Some l)
               = bool_decide (locale r = Some l))
    by (apply bool_decide_ext; naive_solver).
  by rewrite E1, E2.
Qed.

Lemma update_record_status_run w tn e s rows N vars p l :
  mains (work s) !! e = Some rows →
  var_path vars = Some p → var_locale vars = Some l → p ≠ "" → l ≠ "" →
  fits_int64 N = true →
  update_record_status tn e N vars w s =
  (Ok tt,
   with_work
     (set_mains
        (<[e := status_updated (work s) e (clock w (ticks s)) N p l rows]>
           (mains (work s))) (work s))
     (with_ticks (S (ticks s)) s)).
Proof.
  intros Hm Hvp Hvl Hp Hl HN. unfold update_record_status.
  apply try_except_ok. rewrite Hvp, Hvl. cbn [is_blank].
  rewrite !bool_decide_eq_false_2 by done. cbn [orb].
  by apply sql_update_status_run.
Qed.

Lemma try_except_all_keeps_ok (body : M unit) (h : exn → M unit) w s :
  (∀ err w s, ∃ s', h err w s = (Ok tt, s') ∧ work s' = work s) →
  ∃ s', try_except_all body h w s = (Ok tt, s') ∧
        work s' = work (snd (body w s)).
Proof.
  intros Hh. unfold try_except_all.
  destruct (body w s) as [[[]|err] s1]; cbn.
  - by eexists.
  - destruct (Hh err w s1) as (s' & -> & Hw). by eexists.
Qed.

Lemma callback_ok msg w s :
  ∃ s', callback msg w s = (Ok tt, s') ∧ work s' = work s.
Proof. by eexists. Qed.

Lemma execute_graphql_mutation_run w s m code text body :
  remote_mutation w (requests s) m = Replied code text (Some body) →
  is_http_error code = false →
  execute_graphql_mutation m w s = (Ok body, with_requests (S (requests s)) s).
Proof.
  intros Hr Hc. unfold execute_graphql_mutation.
  cbv [mbind M_bind mret M_ret next_request ask]. st.
  by rewrite Hr, Hc.
Qed.

Lemma bind_ret {A B} (a : A) (f : A → M B) w s : (mret a ≫= f) w s = f a w s.
Proof. done. Qed.

Lemma bind_assoc {A B C} (m : M A) (f : A → M B) (g : B → M C) w s :
  ((m ≫= f) ≫= g) w s = (m ≫= λ a, f a ≫= g) w s.
Proof. unfold mbind, M_bind. by destruct (m w s) as [[a|err] s1]. Qed.

Lemma bind_callback {B} msg (f : unit → M B) w s :
  (callback msg ≫= f) w s = f tt w (with_sink (sink s ++ [msg]) s).
Proof. done. Qed.

Lemma follow_up_keeps_work tn e a N w s :
  work (snd ((fetch_related_data tn e a ≫= λ related_data,
                handle_follow_up_mutation N related_data callback) w s))
  = work s.
Proof.
  apply (keeps_store_bind (fetch_related_data tn e a)).
  - apply keeps_store_fetch_related_data.
  - intros rd. apply keeps_store_handle_follow_up_mutation.
Qed.

(** The push of one row whose mutation succeeds: whatever the follow-up
    does, [process_record] returns, and the connection's view of the
    store is the one the status UPDATE left. *)
Lemma process_record_success w tn e s rows row tgs p l code text result N :
  fits_int64 N = true →
  mains (work s) !! e = Some rows →
  row_tags row = Some tgs →
  row_path row = Some p → row_locale row = Some l → p ≠ "" → l ≠ "" →
  let vars :=
    {| var_content := row_content row; var_locale := row_locale row;
       var_path := row_path row; var_tags := split_semicolon tgs;
       var_title := row_title row;
       var_id := if is_unsynced (row_exp_article_id row) then None
                 else row_exp_article_id row |} in
  remote_mutation w (requests s)
    (if is_unsynced (row_exp_article_id row) then Create vars else Update vars)
    = success_reply code text result →
  is_http_error code = false →
  reply_page_id result = Some N →
  ∃ s', process_record tn e row callback w s = (Ok tt, s') ∧
        work s' =
        set_mains
          (<[e := status_updated (work s) e (clock w (ticks s)) N p l rows]>
             (mains (work s))) (work s).
Proof.
  intros Hfit Hm Htags Hpath Hloc Hp Hl vars Hreply Hcode HN.
  unfold process_record.
  edestruct (try_except_all_keeps_ok) as (s' & Hrun & Hwork);
    [|exists s'; split; [apply Hrun|]].
  { intros err w' s0. apply callback_ok. }
  rewrite Hwork. clear Hrun Hwork s'.
  unfold prepare_record_variables. rewrite Htags.
  rewrite bind_ret. cbn beta iota zeta.
  subst vars. unfold success_reply in Hreply.
  destruct (is_unsynced (row_exp_article_id row)) eqn:Eu.
  all: erewrite bind_run by (eapply execute_graphql_mutation_run; eassumption).
  all: cbn [mb_errors mb_data].
  all: rewrite bind_ret.
  all: unfold reply_page_id in HN.
  all: destruct (md_create result) as [created|], (md_update result) as [updated|];
       cbn in HN; simplify_eq.
  all: repeat first [rewrite bind_assoc | rewrite bind_callback | rewrite bind_ret].
  all: (erewrite bind_run;
        [| eapply update_record_status_run; [st; eassumption | cbn; eassumption .. ]]).
  all: by rewrite follow_up_keeps_work.
Qed.

(** ** The rows after the status UPDATE *)

Lemma fire_trigger_fields d e now r :
  exp_article_id (fire_trigger d e now r) = exp_article_id r ∧
  article_id (fire_trigger d e now r) = article_id r ∧
  locale (fire_trigger d e now r) = locale r ∧
  title (fire_trigger d e now r) = title r ∧
  tags (fire_trigger d e now r) = tags r ∧
  path (fire_trigger d e now r) = path r ∧
  content (fire_trigger d e now r) = content r ∧
  status (fire_trigger d e now r) = status r.
Proof. unfold fire_trigger. by case_bool_decide. Qed.

Lemma fire_trigger_timestamp d e now r :
  e ∈ triggers d → modified_timestamp (fire_trigger d e now r) = Some now.
Proof. intros H. unfold fire_trigger. by rewrite bool_decide_eq_true_2. Qed.

Lemma same_path_locale_true p l r :
  same_path_locale p l r = true ↔ path r = Some p ∧ locale r = Some l.
Proof.
  unfold same_path_locale. rewrite andb_true_iff, !bool_decide_eq_true. done.
Qed.

Lemma elem_of_status_updated d e now N p l rows r' :
  r' ∈ status_updated d e now N p l rows ↔
  ∃ r, r ∈ rows ∧
       r' = if same_path_locale p l r
            then fire_trigger d e now (with_status N r) else r.
Proof.
  unfold status_updated. rewrite list_elem_of_fmap. naive_solver.
Qed.

(** A row of the updated table that has the pushed [(path, locale)] holds
    the new remote id and status. *)
Lemma status_updated_matching d e now N p l rows r' :
  r' ∈ status_updated d e now N p l rows →
  path r' = Some p → locale r' = Some l →
  exp_article_id r' = Some N ∧ status r' = Some "succeeded".
Proof.
  intros (r & Hin & ->)%elem_of_status_updated Hp Hl.
  destruct (same_path_locale p l r) eqn:E.
  - destruct (fire_trigger_fields d e now (with_status N r))
      as (-> & _ & _ & _ & _ & _ & _ & ->). done.
  - assert (same_path_locale p l r = true) by by apply same_path_locale_true.
    congruence.
Qed.

(** A row with the pushed [(path, locale)] is still there after the
    UPDATE, with the same key and synchronised columns. *)
Lemma status_updated_pushed d e now N p l rows r :
  r ∈ rows → path r = Some p → locale r = Some l →
  ∃ r', r' ∈ status_updated d e now N p l rows ∧
        r' = fire_trigger d e now (with_status N r) ∧
        article_id r' = article_id r ∧ path r' = Some p ∧ locale r' = Some l ∧
        exp_article_id r' = Some N ∧ status r' = Some "succeeded".
Proof.
  intros Hin Hp Hl.
  assert (E : same_path_locale p l r = true) by by apply same_path_locale_true.
  exists (fire_trigger d e now (with_status N r)).
  destruct (fire_trigger_fields d e now (with_status N r))
    as (-> & -> & -> & _ & _ & -> & _ & ->).
  repeat split; try done.
  apply elem_of_status_updated. exists r. by rewrite E.
Qed.

(** A row with another [(path, locale)] is left as it was. *)
Lemma status_updated_other d e now N p l rows r :
  r ∈ rows → ¬ (path r = Some p ∧ locale r = Some l) →
  r ∈ status_updated d e now N p l rows.
Proof.
  intros Hin Hne. apply elem_of_status_updated. exists r. split; [done|].
  destruct (same_path_locale p l r) eqn:E; [|done].
  by apply same_path_locale_true in E.
Qed.

Lemma status_updated_length d e now N p l rows :
  length (status_updated d e now N p l rows) = length rows.
Proof. unfold status_updated. by rewrite length_fmap. Qed.

Lemma lookup_set_mains_insert (d : store) (e : env) (rows : list env_record) :
  mains (set_mains (<[e := rows]> (mains d)) d) !! e = Some rows.
Proof. cbn. by rewrite lookup_insert_eq. Qed.

(** C2.  A row that was never pushed ([exp_article_id] NULL) with
    non-empty [path] and [locale] is pushed; the create mutation is
    answered without errors and with page id [N], which fits an SQLite
    INTEGER (the API declares its ids as GraphQL [Int]).  Then
    [process_record] returns, the row is still in the table under its [article_id] and
    [(path, locale)], every row of the table with that [(path, locale)]
    has [exp_article_id = N] and [status = 'succeeded'], and the rows with
    another [(path, locale)] are unchanged: the UPDATE selects by
    [(path, locale)] only. *)
Theorem push_create_sets_remote_id (w : world) (table_name : string)
    (e : env) (s : state) (rows : list env_record) (r : env_record)
    (tgs p l : string) (code : Z) (text : string) (N : Z)
    (msg : option string) :
  mains (work s) !! e = Some rows →
  r ∈ rows →
  exp_article_id r = None →
  tags r = Some tgs →
  path r = Some p → locale r = Some l → p ≠ "" → l ≠ "" →
  remote_mutation w (requests s) (Create (create_variables r tgs)) =
    success_reply code text
      {| md_create := Some {| pr_page_id := N; pr_message := msg |};
         md_update := None |} →
  is_http_error code = false →
  fits_int64 N = true →
  ∃ s' rows',
    process_record table_name e (select_push_columns r) callback w s
      = (Ok tt, s') ∧
    mains (work s') !! e = Some rows' ∧
    length rows' = length rows ∧
    (∃ r', r' ∈ rows' ∧ article_id r' = article_id r ∧
           path r' = Some p ∧ locale r' = Some l) ∧
    (∀ r', r' ∈ rows' → path r' = Some p → locale r' = Some l →
           exp_article_id r' = Some N ∧ status r' = Some "succeeded") ∧
    (∀ r0, r0 ∈ rows → ¬ (path r0 = Some p ∧ locale r0 = Some l) →
           r0 ∈ rows').
Proof.
  intros Hm Hin Hexp Htags Hpath Hloc Hp Hl Hreply Hcode Hfit.
  destruct (process_record_success w table_name e s rows
              (select_push_columns r) tgs p l code text
              {| md_create := Some {| pr_page_id := N; pr_message := msg |};
                 md_update := None |} N Hfit) as (s' & Hrun & Hwork);
    try done.
  { cbn. rewrite Hexp. cbn. exact Hreply. }
  exists s', (status_updated (work s) e (clock w (ticks s)) N p l rows).
  split; [done|]. rewrite Hwork.
  split; [apply lookup_set_mains_insert|].
  split; [apply status_updated_length|].
  split; [|split].
  - destruct (status_updated_pushed (work s) e (clock w (ticks s)) N p l rows r)
      as (r' & ? & _ & ? & ? & ? & _); eauto.
  - intros r'. apply status_updated_matching.
  - intros r0. apply status_updated_other.
Qed.

(** C10.  Two distinct rows of a table share non-empty [path] and
    [locale]; one of them is pushed and its mutation (create or update)
    is answered without errors and with page id [N], which fits an
    SQLite INTEGER.  Then both rows, not only the pushed one, have [exp_article_id = N] and
    [status = 'succeeded']. *)
Theorem push_marks_all_rows_with_same_path_locale (w : world)
    (table_name : string) (e : env) (s : state) (rows : list env_record)
    (r1 r2 : env_record) (tgs p l : string) (code : Z) (text : string)
    (result : mutation_data) (N : Z) :
  mains (work s) !! e = Some rows →
  r1 ∈ rows → r2 ∈ rows → article_id r1 ≠ article_id r2 →
  path r1 = Some p → locale r1 = Some l →
  path r2 = Some p → locale r2 = Some l →
  p ≠ "" → l ≠ "" →
  tags r1 = Some tgs →
  (let vars :=
     {| var_content := content r1; var_locale := locale r1;
        var_path := path r1; var_tags := split_semicolon tgs;
        var_title := title r1;
        var_id := if is_unsynced (exp_article_id r1) then None
                  else exp_article_id r1 |} in
   remote_mutation w (requests s)
     (if is_unsynced (exp_article_id r1) then Create vars else Update vars)
   = success_reply code text result) →
  is_http_error code = false →
  reply_page_id result = Some N →
  fits_int64 N = true →
  ∃ s' rows' r1' r2',
    process_record table_name e (select_push_columns r1) callback w s
      = (Ok tt, s') ∧
    mains (work s') !! e = Some rows' ∧
    r1' ∈ rows' ∧ r2' ∈ rows' ∧
    article_id r1' = article_id r1 ∧ article_id r2' = article_id r2 ∧
    exp_article_id r1' = Some N ∧ status r1' = Some "succeeded" ∧
    exp_article_id r2' = Some N ∧ status r2' = Some "succeeded".
Proof.
  intros Hm Hin1 Hin2 Hne Hp1 Hl1 Hp2 Hl2 Hp Hl Htags Hreply Hcode HN Hfit.
  destruct (process_record_success w table_name e s rows
              (select_push_columns r1) tgs p l code text result N Hfit)
    as (s' & Hrun & Hwork); try done.
  destruct (status_updated_pushed (work s) e (clock w (ticks s)) N p l rows r1)
    as (r1' & ? & _ & ? & _ & _ & ? & ?); try done.
  destruct (status_updated_pushed (work s) e (clock w (ticks s)) N p l rows r2)
    as (r2' & ? & _ & ? & _ & _ & ? & ?); try done.
  exists s', (status_updated (work s) e (clock w (ticks s)) N p l rows), r1', r2'.
  rewrite Hwork. split; [done|].
  split; [apply lookup_set_mains_insert|]. done.
Qed.

(** ** Properties of the store that a run keeps *)

Section Preserves.
Context (w : world) (P : store → Prop).

Lemma preserves_keeps {A} (m : M A) : keeps_store m → preserves w P m.
Proof. intros Hk s Hd Hw. destruct (Hk w s) as [-> ->]. done. Qed.

Lemma preserves_bind {A B} (m : M A) (f : A → M B) :
  preserves w P m → (∀ a, preserves w P (f a)) → preserves w P (m ≫= f).
Proof.
  intros Hm Hf s Hd Hw. unfold mbind, M_bind.
  specialize (Hm s Hd Hw). destruct (m w s) as [[a|err] s1]; cbn in *.
  - destruct Hm. by apply Hf.
  - done.
Qed.

Lemma preserves_try_except {A} (body : M A) cl h :
  preserves w P body → (∀ err, preserves w P (h err)) →
  preserves w P (try_except body cl h).
Proof.
  intros Hm Hh s Hd Hw. unfold try_except.
  specialize (Hm s Hd Hw).
  destruct (body w s) as [[a|err] s1]; cbn in *; [done|].
  case_bool_decide; cbn; [|done]. destruct Hm. by apply Hh.
Qed.

Lemma preserves_try_except_all {A} (body : M A) h :
  preserves w P body → (∀ err, preserves w P (h err)) →
  preserves w P (try_except_all body h).
Proof.
  intros Hm Hh s Hd Hw. unfold try_except_all.
  specialize (Hm s Hd Hw).
  destruct (body w s) as [[a|err] s1]; cbn in *; [done|].
  destruct Hm. by apply Hh.
Qed.

Lemma preserves_try_finally {A} (body : M A) fin :
  preserves w P body → preserves w P fin →
  preserves w P (try_finally body fin).
Proof.
  intros Hm Hf s Hd Hw. unfold try_finally.
  specialize (Hm s Hd Hw). destruct (body w s) as [r s1]; cbn in *.
  destruct Hm as [Hd1 Hw1]. specialize (Hf s1 Hd1 Hw1).
  by destruct (fin w s1) as [[a|err] s2].
Qed.

Lemma preserves_for_each {A} (l : list A) body :
  (∀ x, preserves w P (body x)) → preserves w P (for_each l body).
Proof.
  intros Hb. induction l as [|x l IH]; cbn.
  - apply preserves_keeps, keeps_store_ret.
  - apply preserves_bind; [apply Hb | intros _; apply IH].
Qed.

Lemma preserves_connect : preserves w P connect.
Proof. intros s Hd Hw. unfold connect. by destruct (can_connect w). Qed.

Lemma preserves_open_cursor : preserves w P open_cursor.
Proof. by intros s Hd Hw. Qed.

Lemma preserves_commit : preserves w P commit.
Proof. by intros s Hd Hw. Qed.

Lemma preserves_close : preserves w P (cursor_close;; conn_close).
Proof. by intros s Hd Hw. Qed.
End Preserves.

Lemma keeps_store_get_last_run_info : keeps_store get_last_run_info.
Proof.
  unfold get_last_run_info. apply keeps_store_try_except; [|intros; keeps].
  apply keeps_store_bind; [auto with keeps|intros d].
  destruct (last_run d) as [rows|]; [|auto with keeps].
  destruct (latest_run rows ≫= last_sync_timestamp) as [ts|]; [|keeps].
  apply keeps_store_bind; [auto with keeps|intros w]. keeps.
Qed.

Lemma keeps_store_fetch_all_records tn e : keeps_store (fetch_all_records tn e).
Proof.
  unfold fetch_all_records. apply keeps_store_try_except; [|intros; keeps].
  apply keeps_store_bind; [apply keeps_store_get_last_run_info|intros c].
  keeps.
Qed.

Lemma keeps_store_get_api_config tok url : keeps_store (get_api_config tok url).
Proof. unfold get_api_config. keeps. Qed.

Lemma keeps_store_prepare_record_variables row :
  keeps_store (prepare_record_variables row).
Proof. unfold prepare_record_variables. keeps. Qed.

(** The first statement of [process_records] with its handler. *)
Lemma open_store_run w s (h : exn → M bool) :
  can_connect w = true →
  try_except_all (initialize_db_connection;; mret true) h w s =
  (Ok true,
   with_handles (S (open_conns s)) (S (open_cursors s)) (with_work (disk s) s)).
Proof.
  intros Hc. unfold try_except_all, initialize_db_connection.
  erewrite bind_run; cycle 1.
  { erewrite bind_run by (by apply connect_run). reflexivity. }
  reflexivity.
Qed.

Lemma open_store_fail w s msg :
  can_connect w = false →
  try_except_all (initialize_db_connection;; mret true)
    (λ err, callback (msg err);; mret false) w s =
  (Ok false,
   with_sink (sink s ++ [msg (mk_exn SqliteError "unable to open database file")]) s).
Proof.
  intros Hc. unfold try_except_all, initialize_db_connection.
  erewrite bind_raise; cycle 1.
  { erewrite bind_raise; [reflexivity|]. unfold connect. by rewrite Hc. }
  reflexivity.
Qed.

(** ** Push keeps a candidate a candidate *)

Section CandidateKept.
Context (w : world) (e : env) (runs : list run_row) (c : string) (a : Z).
Hypothesis clock_after : ∀ n, text_gt (clock w n) c.

Lemma has_candidate_status_updated d e' now N p l rows :
  text_gt now c →
  has_candidate c a rows →
  has_candidate c a (status_updated d e' now N p l rows).
Proof.
  intros Hnow (r & Hin & Ha & Hc).
  exists (if same_path_locale p l r
          then fire_trigger d e' now (with_status N r) else r).
  split; [apply elem_of_status_updated; eauto|].
  destruct (same_path_locale p l r); [|done].
  destruct (fire_trigger_fields d e' now (with_status N r))
    as (_ & -> & _). split; [done|].
  unfold fire_trigger. case_bool_decide; [|done].
  unfold is_candidate. cbn. exact Hnow.
Qed.

Lemma preserves_sql_update_status tn e' N pth loc :
  preserves w (candidate_in e runs c a) (sql_update_status tn e' N pth loc).
Proof.
  intros s Hd Hw. unfold sql_update_status, bind_parameters.
  cbv [mbind M_bind mret M_ret sql_now get_work put_work raise]. st.
  destruct (mains (work s) !! e') as [rows'|] eqn:Em; cbn; [|done].
  destruct (values_fit _); cbn; [|done].
  split; [done|].
  destruct Hw as (Hl & rows & Hm & Hc). split; [done|]. cbn.
  destruct (decide (e' = e)) as [->|Hne].
  - rewrite lookup_insert_eq. eexists. split; [done|].
    rewrite Hm in Em. simplify_eq.
    destruct Hc as (r & Hin & Ha & Hc).
    set (f := λ r : env_record, _).
    exists (f r). split; [by apply list_elem_of_fmap_2|].
    subst f. cbn beta.
    destruct (_ && _); [|done].
    destruct (fire_trigger_fields (work s) e (clock w (ticks s))
                (with_status N r)) as (_ & Hid & _).
    split.
    + etransitivity; [|exact Ha].
      unfold fire_trigger. by case_bool_decide.
    + unfold fire_trigger. case_bool_decide; [|done].
      unfold is_candidate. cbn. apply clock_after.
  - rewrite lookup_insert_ne by done. eauto.
Qed.

Lemma preserves_update_record_status tn e' N vars :
  preserves w (candidate_in e runs c a) (update_record_status tn e' N vars).
Proof.
  unfold update_record_status. apply preserves_try_except.
  - destruct (_ || _).
    + apply preserves_keeps. keeps.
    + apply preserves_sql_update_status.
  - intros err. apply preserves_keeps. keeps.
Qed.

Lemma preserves_process_record tn e' row :
  preserves w (candidate_in e runs c a) (process_record tn e' row callback).
Proof.
  unfold process_record. apply preserves_try_except_all;
    [|intros; apply preserves_keeps; keeps].
  apply preserves_bind;
    [apply preserves_keeps, keeps_store_prepare_record_variables|].
  intros [[aid exp] vars].
  apply preserves_bind.
  { destruct (is_unsynced exp);
      apply preserves_keeps, keeps_store_execute_graphql_mutation. }
  intros body. destruct (mb_errors body) as [errors|].
  { apply preserves_keeps. keeps. }
  apply preserves_bind; [apply preserves_keeps; keeps|intros result].
  apply preserves_bind; [apply preserves_keeps; keeps|intros pid1].
  apply preserves_bind; [apply preserves_keeps; keeps|intros pid2].
  destruct pid2 as [page_id|]; [|apply preserves_keeps; keeps].
  apply preserves_bind; [apply preserves_update_record_status|intros _].
  apply preserves_bind;
    [apply preserves_keeps, keeps_store_fetch_related_data|intros rd].
  apply preserves_keeps, keeps_store_handle_follow_up_mutation.
Qed.

(** A push run on any environment keeps the run log and keeps the row
    of key [a] a candidate in the committed store. *)
Lemma process_records_keeps_candidate tn e' tok url s :
  candidate_in e runs c a (disk s) →
  candidate_in e runs c a
    (disk (final (process_records tn e' tok url callback w s))).
Proof.
  intros Hd. unfold process_records.
  destruct (can_connect w) eqn:Hc.
  - erewrite bind_run by (by apply open_store_run).
    set (s1 := with_handles _ _ _).
    assert (H1 : candidate_in e runs c a (disk s1)) by done.
    assert (H2 : candidate_in e runs c a (work s1)) by done.
    clearbody s1.
    match goal with
    | |- candidate_in _ _ _ _ (disk (final (?m w s1))) =>
        assert (Hp : preserves w (candidate_in e runs c a) m)
    end.
    { apply preserves_try_finally; [|apply preserves_close].
      apply preserves_try_except_all; [|intros; apply preserves_keeps; keeps].
      apply preserves_bind;
        [apply preserves_keeps, keeps_store_get_api_config|intros _].
      apply preserves_bind;
        [apply preserves_keeps, keeps_store_fetch_all_records|intros rows].
      destruct rows as [|row rows]; [apply preserves_keeps; keeps|].
      apply preserves_bind.
      { apply preserves_for_each. intros x.
        apply preserves_try_except_all;
          [apply preserves_process_record
          |intros; apply preserves_keeps; keeps]. }
      intros _. apply preserves_bind; [apply preserves_commit|intros _].
      apply preserves_keeps. keeps. }
    apply (Hp s1 H1 H2).
  - erewrite bind_run by (by apply open_store_fail). done.
Qed.

Lemma push_runs_keep_candidate tn pushes s :
  candidate_in e runs c a (disk s) →
  candidate_in e runs c a (disk (push_runs w tn pushes s)).
Proof.
  revert s. unfold push_runs.
  induction pushes as [|[[e' tok] url] pushes IH]; intros s Hd; cbn; [done|].
  apply IH. by apply process_records_keeps_candidate.
Qed.
End CandidateKept.

Lemma fetch_all_records_finds_candidate w tn e s runs c a :
  candidate_in e runs c a (work s) →
  (∃ run, run ∈ runs ∧ last_sync_timestamp run = Some c) →
  (∀ run, run ∈ runs → sql_lt (Some c) (last_sync_timestamp run) = false) →
  (∃ dt, strptime w c = Some dt ∧ adapt_datetime dt = c) →
  ∃ found row,
    outcome (fetch_all_records tn e w s) = Ok found ∧
    row ∈ found ∧ row_article_id row = a.
Proof.
  intros (Hl & rows & Hm & r & Hin & Ha & Hc) Hrun0 Hmax (dt & Hp & Had).
  pose proof (last_run_timestamp_greatest runs c Hrun0 Hmax) as Hts.
  destruct (fetch_all_records_run w tn e s runs rows Hl Hm) as [msgs Hrun].
  rewrite Hrun. eexists _, (select_push_columns r).
  split; [reflexivity|]. split; [|done].
  apply list_elem_of_fmap_2, list_elem_of_filter. split; [|done].
  rewrite Hts. cbn. rewrite Hp. cbn. rewrite Had. by rewrite Hc.
Qed.


Lemma push_candidate_selection_witness :
  ∃ selected,
    outcome (fetch_all_records "p" Dev sample_world (start sample_store)) =
      Ok (select_push_columns <$> selected) ∧
    selected `sublist_of` sample_rows ∧
    ∀ r, r ∈ selected ↔
         r ∈ sample_rows ∧
         (modified_timestamp r = None ∨
          ∃ m c, modified_timestamp r = Some m ∧
                 Some "2024-01-05 03:04:00" = Some c ∧ text_gt m c).
Proof.
  apply (push_candidate_selection sample_world "p" Dev (start sample_store)
           sample_runs sample_rows (Some "2024-01-05 03:04:00")).
  - vm_compute. reflexivity.
  - vm_compute. reflexivity.
  - split; [|split].
    + eexists. split; [apply list_elem_of_here|reflexivity].
    + intros run Hrun. apply list_elem_of_singleton in Hrun. by subst.
    + exists (mk_datetime 2024 1 5 3 4 0). split; vm_compute; reflexivity.
Defined.

Lemma push_create_sets_remote_id_witness :
  ∃ s' rows',
    process_record "p" Dev (select_push_columns sample_row_a) callback
      sample_push_world (start sample_store) = (Ok tt, s') ∧
    mains (work s') !! Dev = Some rows' ∧
    length rows' = length sample_rows ∧
    (∃ r', r' ∈ rows' ∧ article_id r' = article_id sample_row_a ∧
           path r' = Some "/a" ∧ locale r' = Some "en") ∧
    (∀ r', r' ∈ rows' → path r' = Some "/a" → locale r' = Some "en" →
           exp_article_id r' = Some 99 ∧ status r' = Some "succeeded") ∧
    (∀ r0, r0 ∈ sample_rows → ¬ (path r0 = Some "/a" ∧ locale r0 = Some "en") →
           r0 ∈ rows').
Proof.
  apply (push_create_sets_remote_id sample_push_world "p" Dev
           (start sample_store) sample_rows sample_row_a "x;y" "/a" "en"
           200 "" 99 (Some "Page created")).
  - vm_compute. reflexivity.
  - apply list_elem_of_here.
  - reflexivity.
  - reflexivity.
  - reflexivity.
  - reflexivity.
  - discriminate.
  - discriminate.
  - reflexivity.
  - reflexivity.
  - reflexivity.
Defined.

Lemma push_marks_all_rows_with_same_path_locale_witness :
  ∃ s' rows' r1' r2',
    process_record "p" Dev (select_push_columns sample_row_a) callback
      sample_push_world (start sample_store) = (Ok tt, s') ∧
    mains (work s') !! Dev = Some rows' ∧
    r1' ∈ rows' ∧ r2' ∈ rows' ∧
    article_id r1' = 1 ∧ article_id r2' = 2 ∧
    exp_article_id r1' = Some 99 ∧ status r1' = Some "succeeded" ∧
    exp_article_id r2' = Some 99 ∧ status r2' = Some "succeeded".
Proof.
  apply (push_marks_all_rows_with_same_path_locale sample_push_world "p" Dev
           (start sample_store) sample_rows sample_row_a sample_row_b
           "x;y" "/a" "en" 200 ""
           {| md_create := Some {| pr_page_id := 99;
                                   pr_message := Some "Page created" |};
              md_update := None |} 99).
  - vm_compute. reflexivity.
  - apply list_elem_of_here.
  - apply list_elem_of_further, list_elem_of_here.
  - discriminate.
  - reflexivity.
  - reflexivity.
  - reflexivity.
  - reflexivity.
  - discriminate.
  - discriminate.
  - reflexivity.
  - reflexivity.
  - reflexivity.
  - reflexivity.
  - reflexivity.
Defined.


(** ** The copy operator *)

(** ** Rows at the place of their key *)

Lemma insert_by_key_perm r rows : insert_by_key r rows ≡ₚ r :: rows.
Proof.
  induction rows as [|r' rows IH]; cbn; [done|].
  destruct (article_id r <? article_id r'); [done|].
  rewrite IH. apply Permutation_swap.
Qed.

Lemma elem_of_insert_by_key x r rows :
  x ∈ insert_by_key r rows ↔ x = r ∨ x ∈ rows.
Proof. by rewrite insert_by_key_perm, elem_of_cons. Qed.

Lemma insert_by_key_keys r rows :
  article_id <$> insert_by_key r rows ≡ₚ article_id r :: (article_id <$> rows).
Proof. by rewrite insert_by_key_perm. Qed.

Lemma insert_by_key_sublist r rows : rows `sublist_of` insert_by_key r rows.
Proof.
  induction rows as [|r' rows IH]; cbn.
  - apply sublist_nil_l.
  - destruct (article_id r <? article_id r').
    + by apply sublist_cons.
    + by apply sublist_skip.
Qed.

Lemma key_ordered_insert_by_key r rows :
  key_ordered rows → article_id r ∉ article_id <$> rows →
  key_ordered (insert_by_key r rows).
Proof.
  induction rows as [|r' rows IH]; cbn [insert_by_key key_ordered].
  - intros _ _. by split.
  - intros [Hall Hord] Hnot.
    rewrite fmap_cons, not_elem_of_cons in Hnot. destruct Hnot as [Hne Hnot].
    destruct (article_id r <? article_id r') eqn:E.
    + apply Z.ltb_lt in E. cbn [key_ordered]. split; [|by split].
      constructor; [done|].
      eapply Forall_impl; [exact Hall|]. intros x Hx. cbn in Hx. lia.
    + apply Z.ltb_ge in E. cbn [key_ordered]. split; [|by apply IH].
      apply Forall_forall. intros x [->|Hx]%elem_of_insert_by_key.
      * lia.
      * by apply (proj1 (Forall_forall _ _) Hall).
Qed.

Lemma insert_all_perm table new : insert_all table new ≡ₚ table ++ new.
Proof.
  unfold insert_all. revert table.
  induction new as [|r new IH]; intros table; cbn.
  - by rewrite app_nil_r.
  - rewrite IH, insert_by_key_perm. cbn. apply Permutation_middle.
Qed.

Lemma insert_all_sublist table new : table `sublist_of` insert_all table new.
Proof.
  unfold insert_all. revert table.
  induction new as [|r new IH]; intros table; cbn; [done|].
  etransitivity; [apply (insert_by_key_sublist r)|apply IH].
Qed.

Lemma key_ordered_insert_all table new :
  key_ordered table →
  NoDup (article_id <$> new) →
  (∀ r, r ∈ new → article_id r ∉ article_id <$> table) →
  key_ordered (insert_all table new).
Proof.
  unfold insert_all. revert table.
  induction new as [|r new IH]; intros table Hord Hnd Hfree; cbn; [done|].
  rewrite fmap_cons in Hnd. apply NoDup_cons in Hnd as [Hr Hnd].
  apply IH; [|done|].
  - apply key_ordered_insert_by_key; [done|]. apply Hfree. left.
  - intros r' Hr'. rewrite insert_by_key_keys, not_elem_of_cons. split.
    + intros Heq. apply Hr. rewrite <- Heq. by apply list_elem_of_fmap_2.
    + apply Hfree. by right.
Qed.

Lemma insert_records_free table new :
  NoDup (article_id <$> new) →
  (∀ r, r ∈ new → article_id r ∉ article_id <$> table) →
  insert_records table new = Some (insert_all table new).
Proof.
  unfold insert_all. revert table.
  induction new as [|r new IH]; intros table Hnd Hfree; cbn; [done|].
  rewrite fmap_cons in Hnd. apply NoDup_cons in Hnd as [Hr Hnd].
  rewrite bool_decide_eq_false_2 by (apply Hfree; left).
  apply IH; [done|].
  intros r' Hr'. rewrite insert_by_key_keys, not_elem_of_cons. split.
  - intros Heq. apply Hr. rewrite <- Heq. by apply list_elem_of_fmap_2.
  - apply Hfree. by right.
Qed.

Lemma insert_records_taken table new r :
  r ∈ new → article_id r ∈ article_id <$> table →
  insert_records table new = None.
Proof.
  revert table. induction new as [|r' new IH]; intros table Hin Hk; cbn.
  - by apply elem_of_nil in Hin.
  - case_bool_decide; [done|].
    apply elem_of_cons in Hin as [->|Hin]; [done|].
    apply IH; [done|]. rewrite insert_by_key_keys. by right.
Qed.

Lemma copied_record_article_id (source : list env_record) :
  article_id <$> (copied_record <$> source) = article_id <$> source.
Proof. rewrite <- list_fmap_compose. by apply list_fmap_ext. Qed.

Lemma _copy_main_table_run w tn src tgt s source target :
  mains (work s) !! src = Some source →
  mains (work s) !! tgt = Some target →
  NoDup (article_id <$> source) →
  (∀ r, r ∈ source → article_id r ∉ article_id <$> target) →
  _copy_main_table tn src tgt w s =
  (Ok tt,
   with_work
     (set_mains
        (<[tgt := insert_all target (copied_record <$> source)]>
           (mains (work s)))
        (work s)) s).
Proof.
  intros Hs Ht Hnd Hfree. unfold _copy_main_table.
  cbv [mbind M_bind mret M_ret get_work put_work]. rewrite Hs, Ht.
  rewrite insert_records_free; [done| |].
  - by rewrite copied_record_article_id.
  - intros r' (r & -> & Hin)%list_elem_of_fmap. by apply (Hfree r).
Qed.

Lemma _copy_main_table_conflict w tn src tgt s source target r :
  mains (work s) !! src = Some source →
  mains (work s) !! tgt = Some target →
  r ∈ source → article_id r ∈ article_id <$> target →
  _copy_main_table tn src tgt w s =
  (Raise (mk_exn SqliteError
            ("UNIQUE constraint failed: " +:+ env_table_name tn tgt +:+
             ".article_id")), s).
Proof.
  intros Hs Ht Hin Hk. unfold _copy_main_table.
  cbv [mbind M_bind mret M_ret get_work put_work raise]. rewrite Hs, Ht.
  rewrite (insert_records_taken target _ (copied_record r)); [done| |done].
  by apply list_elem_of_fmap_2.
Qed.

Lemma _copy_related_table_run w tn src tgt k s :
  is_Some (relateds (work s) !! (src, k)) →
  is_Some (relateds (work s) !! (tgt, k)) →
  _copy_related_table tn src tgt k w s =
  (Ok tt, with_work (with_copied_related src tgt k (work s)) s).
Proof.
  intros [rs Hs] [rt Ht]. unfold _copy_related_table, with_copied_related.
  cbv [mbind M_bind mret M_ret get_work put_work]. by rewrite Hs, Ht.
Qed.

Lemma relateds_with_copied_related src tgt k d p :
  relateds (with_copied_related src tgt k d) !! p =
  match relateds d !! (src, k), relateds d !! (tgt, k) with
  | Some rs, Some rt =>
      if decide (p = (tgt, k)) then Some (rt ++ (copied_row k <$> rs))
      else relateds d !! p
  | _, _ => relateds d !! p
  end.
Proof.
  unfold with_copied_related.
  destruct (relateds d !! (src, k)) as [rs|] eqn:Es; [|done].
  destruct (relateds d !! (tgt, k)) as [rt|] eqn:Et; [|done].
  cbn. rewrite lookup_insert. case_decide; case_decide; by simplify_eq.
Qed.

Lemma with_copied_related_fields src tgt k d :
  last_run (with_copied_related src tgt k d) = last_run d ∧
  initial (with_copied_related src tgt k d) = initial d ∧
  mains (with_copied_related src tgt k d) = mains d ∧
  triggers (with_copied_related src tgt k d) = triggers d.
Proof.
  unfold with_copied_related.
  by destruct (relateds d !! (src, k)), (relateds d !! (tgt, k)).
Qed.

(** A copy step for the kind [k] leaves the tables of the other kinds. *)
Lemma relateds_with_copied_related_ne src tgt k d e' k' :
  k' ≠ k →
  relateds (with_copied_related src tgt k d) !! (e', k') =
  relateds d !! (e', k').
Proof.
  intros Hne. rewrite relateds_with_copied_related.
  destruct (relateds d !! (src, k)), (relateds d !! (tgt, k)); try done.
  case_decide; by simplify_eq.
Qed.

Lemma relateds_with_copied_related_eq src tgt k d rs rt :
  relateds d !! (src, k) = Some rs → relateds d !! (tgt, k) = Some rt →
  relateds (with_copied_related src tgt k d) !! (tgt, k) =
  Some (rt ++ (copied_row k <$> rs)).
Proof.
  intros Hs Ht. rewrite relateds_with_copied_related, Hs, Ht.
  by rewrite decide_True.
Qed.

Lemma is_Some_with_copied_related src tgt k d p :
  is_Some (relateds d !! p) →
  is_Some (relateds (with_copied_related src tgt k d) !! p).
Proof.
  intros H. rewrite relateds_with_copied_related.
  destruct (relateds d !! (src, k)), (relateds d !! (tgt, k)); try done.
  by case_decide.
Qed.

Lemma _copy_related_tables_run w tn src tgt s kinds :
  (∀ k, is_Some (relateds (work s) !! (src, k))) →
  (∀ k, is_Some (relateds (work s) !! (tgt, k))) →
  _copy_related_tables tn src tgt kinds w s =
  (Ok tt,
   with_work (foldl (λ d k, with_copied_related src tgt k d) (work s) kinds) s).
Proof.
  unfold _copy_related_tables. revert s.
  induction kinds as [|k kinds IH]; intros s Hs Ht; cbn.
  - by rewrite with_work_id.
  - erewrite bind_run by (by apply _copy_related_table_run).
    rewrite IH; [done| |]; intros k'; cbn;
      by apply is_Some_with_copied_related.
Qed.

Lemma copied_related_all_lookup src tgt d k rs rt :
  relateds d !! (src, k) = Some rs → relateds d !! (tgt, k) = Some rt →
  relateds (foldl (λ d k, with_copied_related src tgt k d) d related_tables)
    !! (tgt, k) = Some (rt ++ (copied_row k <$> rs)).
Proof.
  intros Hs Ht. unfold related_tables. cbn [foldl].
  destruct k.
  all: repeat first
    [ rewrite relateds_with_copied_related_ne by done
    | erewrite relateds_with_copied_related_eq; [reflexivity| |] ].
  all: repeat rewrite relateds_with_copied_related_ne by done; done.
Qed.

Lemma copied_related_all_fields src tgt d kinds :
  last_run (foldl (λ d k, with_copied_related src tgt k d) d kinds) = last_run d ∧
  initial (foldl (λ d k, with_copied_related src tgt k d) d kinds) = initial d ∧
  mains (foldl (λ d k, with_copied_related src tgt k d) d kinds) = mains d ∧
  triggers (foldl (λ d k, with_copied_related src tgt k d) d kinds) = triggers d.
Proof.
  revert d. induction kinds as [|k kinds IH]; intros d; cbn; [done|].
  destruct (IH (with_copied_related src tgt k d)) as (-> & -> & -> & ->).
  apply with_copied_related_fields.
Qed.

(** The columns that the copy statement carries over: every column of the
    kind but [contactId]. *)
Lemma column_copied_row k c r :
  c ∈ columns k → c ≠ "contactId" →
  column k c (copied_row k r) = column k c r.
Proof.
  intros Hin Hne.
  destruct k; cbn in Hin;
    repeat (apply elem_of_cons in Hin as [->|Hin]; [try done; vm_compute; reflexivity|]);
    by apply elem_of_nil in Hin.
Qed.

Lemma copied_row_length k r : length (copied_row k r) = length (columns k).
Proof. unfold copied_row, make_row. by rewrite length_fmap. Qed.

Lemma copy_table_run w tn src tgt s source target :
  can_connect w = true →
  mains (disk s) !! src = Some source →
  mains (disk s) !! tgt = Some target →
  (∀ k, is_Some (relateds (disk s) !! (src, k))) →
  (∀ k, is_Some (relateds (disk s) !! (tgt, k))) →
  NoDup (article_id <$> source) →
  (∀ r, r ∈ source → article_id r ∉ article_id <$> target) →
  let d' :=
    foldl (λ d k, with_copied_related src tgt k d)
      (set_mains
         (<[tgt := insert_all target (copied_record <$> source)]>
            (mains (disk s)))
         (disk s))
      related_tables in
  copy_table tn src tgt callback w s =
  (Ok tt,
   {| disk := d'; work := d'; open_conns := S (open_conns s);
      open_cursors := S (open_cursors s);
      sink := sink s ++ ["Data copied successfully."];
      console := console s; ticks := ticks s; requests := requests s |}).
Proof.
  intros Hc Hs Ht Hrs Hrt Hnd Hfree d'. unfold copy_table, initialize_db_connection.
  erewrite bind_run; cycle 1.
  { erewrite bind_run by (by apply connect_run). reflexivity. }
  apply try_except_ok.
  erewrite bind_run by (by eapply _copy_main_table_run). st.
  erewrite bind_run by (by apply _copy_related_tables_run).
  st. reflexivity.
Qed.

Lemma copy_table_key_taken w tn src tgt s source target r :
  can_connect w = true →
  mains (disk s) !! src = Some source →
  mains (disk s) !! tgt = Some target →
  r ∈ source → article_id r ∈ article_id <$> target →
  copy_table tn src tgt callback w s =
  (Ok tt,
   {| disk := disk s; work := disk s; open_conns := S (open_conns s);
      open_cursors := S (open_cursors s);
      sink := sink s ++
        ["An error occurred: UNIQUE constraint failed: " +:+
         env_table_name tn tgt +:+ ".article_id"];
      console := console s; ticks := ticks s; requests := requests s |}).
Proof.
  intros Hc Hs Ht Hin Hk. unfold copy_table, initialize_db_connection.
  erewrite bind_run; cycle 1.
  { erewrite bind_run by (by apply connect_run). reflexivity. }
  erewrite try_except_raise_caught; cycle 1.
  - erewrite bind_raise; [reflexivity|].
    by eapply _copy_main_table_conflict.
  - by left.
  - reflexivity.
Qed.

(** C5 (amended).  The store opens and the tables of both
    environments exist.  When no [article_id] of the source main table
    is in the target main table, [copy_table] reports success and
    commits: the target main table holds its old rows, in their order,
    and one new row per source row, with the same [article_id],
    [locale], [title], [tags], [path] and [content] and with NULL
    [exp_article_id], [status] and [modified_timestamp] (a table in key
    order stays in key order); each of the five target related tables
    is the old one followed by one row per source row, in order, with
    the same value in every column other than [contactId].  When an
    [article_id] of the source is in the target, [copy_table] reports
    the failed UNIQUE constraint and the committed store is as it
    was. *)
Theorem copy_table_appends (w : world) (table_name : string)
    (source_env target_env : env) (s : state)
    (source target : list env_record) :
  can_connect w = true →
  mains (disk s) !! source_env = Some source →
  mains (disk s) !! target_env = Some target →
  (∀ k, is_Some (relateds (disk s) !! (source_env, k))) →
  (∀ k, is_Some (relateds (disk s) !! (target_env, k))) →
  NoDup (article_id <$> source) →
  let run := copy_table table_name source_env target_env callback w s in
  ((∀ r, r ∈ source → article_id r ∉ article_id <$> target) →
   outcome run = Ok tt ∧
   sink (final run) = sink s ++ ["Data copied successfully."] ∧
   (∃ target' new,
      mains (disk (final run)) !! target_env = Some target' ∧
      target' ≡ₚ target ++ new ∧
      target `sublist_of` target' ∧
      (key_ordered target → key_ordered target') ∧
      length new = length source ∧
      ∀ i r, source !! i = Some r →
        ∃ r', new !! i = Some r' ∧
          article_id r' = article_id r ∧ locale r' = locale r ∧
          title r' = title r ∧ tags r' = tags r ∧ path r' = path r ∧
          content r' = content r ∧
          exp_article_id r' = None ∧ status r' = None ∧
          modified_timestamp r' = None) ∧
   (∀ k rs rt,
      relateds (disk s) !! (source_env, k) = Some rs →
      relateds (disk s) !! (target_env, k) = Some rt →
      ∃ new,
        relateds (disk (final run)) !! (target_env, k) = Some (rt ++ new) ∧
        length new = length rs ∧
        ∀ i r, rs !! i = Some r →
          ∃ r', new !! i = Some r' ∧
            ∀ c, c ∈ columns k → c ≠ "contactId" →
                 column k c r' = column k c r)) ∧
  (∀ r, r ∈ source → article_id r ∈ article_id <$> target →
   outcome run = Ok tt ∧
   sink (final run) =
     sink s ++ ["An error occurred: UNIQUE constraint failed: " +:+
                env_table_name table_name target_env +:+ ".article_id"] ∧
   disk (final run) = disk s).
Proof.
  intros Hc Hs Ht Hrs Hrt Hnd run. subst run. split.
  - intros Hfree.
    rewrite (copy_table_run w table_name source_env target_env s source
               target) by done.
    cbn [outcome final fst snd disk sink].
    split; [done|]. split; [done|]. split.
    + exists (insert_all target (copied_record <$> source)),
        (copied_record <$> source).
      destruct (copied_related_all_fields source_env target_env
                  (set_mains
                     (<[target_env := insert_all target
                                        (copied_record <$> source)]>
                        (mains (disk s))) (disk s)) related_tables)
        as (_ & _ & -> & _).
      split; [apply lookup_set_mains_insert|].
      split; [apply insert_all_perm|].
      split; [apply insert_all_sublist|].
      split.
      { intros Hord. apply key_ordered_insert_all; [done| |].
        - by rewrite copied_record_article_id.
        - intros r' (r & -> & Hin)%list_elem_of_fmap. by apply (Hfree r). }
      split; [by rewrite length_fmap|].
      intros i r Hi. exists (copied_record r).
      split; [by rewrite list_lookup_fmap, Hi|done].
    + intros k rs rt Hks Hkt. exists (copied_row k <$> rs).
      split; [by apply copied_related_all_lookup|].
      split; [by rewrite length_fmap|].
      intros i r Hi. exists (copied_row k r).
      split; [by rewrite list_lookup_fmap, Hi|].
      intros c. apply column_copied_row.
  - intros r Hin Hk.
    by rewrite (copy_table_key_taken w table_name source_env target_env s
                  source target r).
Qed.

Lemma copy_table_appends_witness :
  outcome (copy_table "p" Dev Test callback sample_world (start sample_store))
  = Ok tt.
Proof.
  refine (proj1 (proj1 (copy_table_appends sample_world "p" Dev Test
                   (start sample_store) sample_rows [] _ _ _ _ _ _) _)).
  - reflexivity.
  - vm_compute. reflexivity.
  - vm_compute. reflexivity.
  - intros []; vm_compute; eauto.
  - intros []; vm_compute; eauto.
  - apply (bool_decide_unpack (NoDup (article_id <$> sample_rows))).
    vm_compute. exact I.
  - intros r _ Hin. cbn in Hin. by apply elem_of_nil in Hin.
Defined.

(** C5, counterexample.  The [test] table already holds a row with
    [article_id = 1], which is also a key of the [dev] table of three
    rows.  The copy from [dev] to [test] reports a failed UNIQUE
    constraint and leaves the [test] table with its one row: no row is
    appended. *)
Lemma copy_table_conflict_counterexample :
  mains sample_conflict_store !! Dev = Some sample_rows ∧
  mains sample_conflict_store !! Test = Some [sample_row_a] ∧
  outcome sample_conflict_copy = Ok tt ∧
  mains (disk (final sample_conflict_copy)) !! Test = Some [sample_row_a] ∧
  sink (final sample_conflict_copy) =
    ["An error occurred: UNIQUE constraint failed: p_test.article_id"] ∧
  ¬ (∃ rows', mains (disk (final sample_conflict_copy)) !! Test = Some rows' ∧
              length rows' = (length [sample_row_a] + length sample_rows)%nat).
Proof.
  assert (E : mains (disk (final sample_conflict_copy)) !! Test
              = Some [sample_row_a]) by (vm_compute; reflexivity).
  repeat split; try (vm_compute; reflexivity).
  intros (rows' & Hrows & Hlen). rewrite E in Hrows.
  injection Hrows as <-. discriminate Hlen.
Qed.

(** C9, at the failing input.  [copy_table] returns with its connection
    and its cursor still open, both when the copy succeeds and when it
    reports an error; [create_db] on the same start closes both. *)
Theorem copy_table_leaves_connection_open :
  let copied := final (copy_table "p" Dev Test callback sample_world
                         (start sample_store)) in
  let failed := final (copy_table "p" Dev Test callback sample_world
                         (start sample_conflict_store)) in
  let created := final (create_db "p.db" "p" callback sample_world
                          (start sample_store)) in
  sink copied = ["Data copied successfully."] ∧
  open_conns copied = 1%nat ∧ open_cursors copied = 1%nat ∧
  sink failed =
    ["An error occurred: UNIQUE constraint failed: p_test.article_id"] ∧
  open_conns failed = 1%nat ∧ open_cursors failed = 1%nat ∧
  open_conns created = 0%nat ∧ open_cursors created = 0%nat.
Proof. cbv zeta. repeat split; vm_compute; reflexivity. Qed.

(** ** The statements of a pull *)

Lemma sql_upsert_page_run w tn e s rows id loc ttl tgs pth cnt :
  mains (work s) !! e = Some rows →
  fits_int64 id = true →
  sql_upsert_page tn e id loc ttl tgs pth cnt w s =
  (Ok tt,
   with_work
     (set_mains
        (<[e := upsert_rows (work s) e (clock w (ticks s)) id loc ttl tgs pth
                  cnt rows]> (mains (work s))) (work s))
     (with_ticks (S (ticks s)) s)).
Proof.
  intros Hm Hid. unfold sql_upsert_page.
  erewrite bind_run by reflexivity.
  erewrite bind_run by reflexivity. st. rewrite Hm.
  erewrite bind_run
    by (apply (bind_int_texts_run id [loc; ttl; tgs; pth; cnt]), Hid).
  reflexivity.
Qed.

Lemma sql_delete_related_run w tn e k p s :
  is_Some (relateds (work s) !! (e, k)) →
  fits_int64 p = true →
  sql_delete_related tn e k p w s =
  (Ok tt, with_work (with_deleted e k p (work s)) s).
Proof.
  intros [rows H] Hp. unfold sql_delete_related, with_deleted.
  erewrite bind_run by reflexivity. rewrite H.
  erewrite bind_run by (apply (bind_int_texts_run p []), Hp).
  reflexivity.
Qed.

Lemma sql_insert_related_run w tn e k cols vals s :
  is_Some (relateds (work s) !! (e, k)) →
  values_fit vals = true →
  sql_insert_related tn e k cols vals w s =
  (Ok tt, with_work (with_inserted e k [make_row k cols vals] (work s)) s).
Proof.
  intros [rows H] Hv. unfold sql_insert_related, with_inserted.
  erewrite bind_run by reflexivity. rewrite H.
  erewrite bind_run by (by apply bind_parameters_run).
  reflexivity.
Qed.

Lemma relateds_with_deleted e k p d q :
  relateds (with_deleted e k p d) !! q =
  if decide (q = (e, k))
  then filter (λ r, ¬ page_id_is k p r) <$> relateds d !! (e, k)
  else relateds d !! q.
Proof.
  unfold with_deleted. destruct (relateds d !! (e, k)) as [rows|] eqn:E; cbn.
  - rewrite lookup_insert. case_decide; case_decide; by simplify_eq.
  - case_decide; by simplify_eq.
Qed.

Lemma relateds_with_inserted e k new d q :
  relateds (with_inserted e k new d) !! q =
  if decide (q = (e, k)) then (.++ new) <$> relateds d !! (e, k)
  else relateds d !! q.
Proof.
  unfold with_inserted. destruct (relateds d !! (e, k)) as [rows|] eqn:E; cbn.
  - rewrite lookup_insert. case_decide; case_decide; by simplify_eq.
  - case_decide; by simplify_eq.
Qed.

Lemma with_deleted_fields e k p d :
  last_run (with_deleted e k p d) = last_run d ∧
  initial (with_deleted e k p d) = initial d ∧
  mains (with_deleted e k p d) = mains d ∧
  triggers (with_deleted e k p d) = triggers d.
Proof. unfold with_deleted. by destruct (relateds d !! (e, k)). Qed.

Lemma with_inserted_fields e k new d :
  last_run (with_inserted e k new d) = last_run d ∧
  initial (with_inserted e k new d) = initial d ∧
  mains (with_inserted e k new d) = mains d ∧
  triggers (with_inserted e k new d) = triggers d.
Proof. unfold with_inserted. by destruct (relateds d !! (e, k)). Qed.

Lemma store_eq (d d' : store) :
  last_run d = last_run d' → initial d = initial d' → mains d = mains d' →
  triggers d = triggers d' → relateds d = relateds d' → d = d'.
Proof. destruct d, d'; cbn. by intros -> -> -> -> ->. Qed.

Lemma with_inserted_nil e k d : with_inserted e k [] d = d.
Proof.
  destruct (with_inserted_fields e k [] d) as (? & ? & ? & ?).
  apply store_eq; try done. apply map_eq. intros q.
  rewrite relateds_with_inserted. case_decide; [|done]. subst q.
  destruct (relateds d !! (e, k)); cbn; [|done]. by rewrite app_nil_r.
Qed.

Lemma with_inserted_app e k new new' d :
  with_inserted e k new' (with_inserted e k new d) =
  with_inserted e k (new ++ new') d.
Proof.
  destruct (with_inserted_fields e k new d) as (E1 & E2 & E3 & E4).
  destruct (with_inserted_fields e k new' (with_inserted e k new d))
    as (F1 & F2 & F3 & F4).
  destruct (with_inserted_fields e k (new ++ new') d) as (G1 & G2 & G3 & G4).
  apply store_eq; try congruence. apply map_eq. intros q.
  rewrite !relateds_with_inserted. case_decide; [|done].
  rewrite decide_True by done.
  destruct (relateds d !! (e, k)); cbn; [|done]. by rewrite <- app_assoc.
Qed.

Lemma is_Some_with_inserted e k new d q :
  is_Some (relateds d !! q) →
  is_Some (relateds (with_inserted e k new d) !! q).
Proof.
  intros H. rewrite relateds_with_inserted. case_decide; [|done].
  subst q. by apply fmap_is_Some.
Qed.

Lemma is_Some_with_deleted e k p d q :
  is_Some (relateds d !! q) →
  is_Some (relateds (with_deleted e k p d) !! q).
Proof.
  intros H. rewrite relateds_with_deleted. case_decide; [|done].
  subst q. by apply fmap_is_Some.
Qed.

(** A loop of INSERT statements appends one row per element. *)
Lemma insert_loop_run {A} w tn e k cols (vals : A → list value) (l : list A) s :
  is_Some (relateds (work s) !! (e, k)) →
  forallb (λ x, values_fit (vals x)) l = true →
  for_each l (λ x, sql_insert_related tn e k cols (vals x)) w s =
  (Ok tt,
   with_work
     (with_inserted e k ((λ x, make_row k cols (vals x)) <$> l) (work s)) s).
Proof.
  revert s. induction l as [|x l IH]; intros s Hs Hv; cbn.
  - by rewrite with_inserted_nil, with_work_id.
  - cbn in Hv. apply andb_true_iff in Hv as [Hx Hv].
    erewrite bind_run by (by apply sql_insert_related_run).
    rewrite IH by (done || by apply is_Some_with_inserted).
    cbn. by rewrite with_inserted_app.
Qed.

Lemma _delete_records_run w tn e p s :
  (∀ k, is_Some (relateds (work s) !! (e, k))) →
  fits_int64 p = true →
  _delete_records tn e p w s =
  (Ok tt,
   with_console
     (console s ++ ["Deleting records for article_id: " +:+ str_int p;
                    "Deletion completed."])
     (with_work (foldl (λ d k, with_deleted e k p d) (work s) related_tables)
        s)).
Proof.
  intros Hs Hp. unfold _delete_records.
  rewrite (bind_run (print _) _ w s tt _ eq_refl).
  unfold print at 1. st.
  set (s0 := mk_state _ _ _ _ _ _ _ _).
  assert (Hloop : ∀ kinds s1,
    (∀ k, is_Some (relateds (work s1) !! (e, k))) →
    for_each kinds (λ k, sql_delete_related tn e k p) w s1 =
    (Ok tt, with_work (foldl (λ d k, with_deleted e k p d) (work s1) kinds) s1)).
  { induction kinds as [|k kinds IH]; intros s1 H1; cbn.
    - by rewrite with_work_id.
    - erewrite bind_run by (by apply sql_delete_related_run).
      rewrite IH; [done|]. intros k'. cbn. by apply is_Some_with_deleted. }
  erewrite bind_run by (by apply (Hloop related_tables s0)).
  subst s0. unfold print. st. by rewrite <- app_assoc.
Qed.

Lemma is_Some_deleted_all e p kinds d q :
  is_Some (relateds d !! q) →
  is_Some (relateds (foldl (λ d k, with_deleted e k p d) d kinds) !! q).
Proof.
  revert d. induction kinds as [|k kinds IH]; intros d H; cbn; [done|].
  by apply IH, is_Some_with_deleted.
Qed.

Lemma _insert_arva_institution_run w tn e id body data s :
  pb_data body = Present data →
  is_Some (relateds (work s) !! (e, Institution)) →
  forallb (λ x, values_fit (institution_values id x)) (getArvaInstitutionsForPage data) = true →
  _insert_arva_institution tn e id body w s =
  (Ok tt,
   with_work (with_inserted e Institution (pulled_rows Institution id data)
                (work s)) s).
Proof.
  intros Hd Hs Hv. unfold _insert_arva_institution, response_data_of.
  rewrite Hd, bind_ret. by apply insert_loop_run.
Qed.

Lemma _insert_arva_legal_act_run w tn e id body data s :
  pb_data body = Present data →
  is_Some (relateds (work s) !! (e, LegalAct)) →
  forallb (λ x, values_fit (legal_act_values id x)) (getLegalActsForPage data) = true →
  _insert_arva_legal_act tn e id body w s =
  (Ok tt,
   with_work (with_inserted e LegalAct (pulled_rows LegalAct id data)
                (work s)) s).
Proof.
  intros Hd Hs Hv. unfold _insert_arva_legal_act, response_data_of.
  rewrite Hd, bind_ret. by apply insert_loop_run.
Qed.

Lemma _insert_arva_page_contact_run w tn e id body data s :
  pb_data body = Present data →
  is_Some (relateds (work s) !! (e, PageContact)) →
  forallb (λ x, values_fit (page_contact_values id x)) (getArvaPageContactForPage data) = true →
  _insert_arva_page_contact tn e id body w s =
  (Ok tt,
   with_work (with_inserted e PageContact (pulled_rows PageContact id data)
                (work s)) s).
Proof.
  intros Hd Hs Hv. unfold _insert_arva_page_contact, response_data_of.
  rewrite Hd, bind_ret. by apply insert_loop_run.
Qed.

Lemma _insert_arva_related_pages_run w tn e id body data s :
  pb_data body = Present data →
  is_Some (relateds (work s) !! (e, RelatedPages)) →
  forallb (λ x, values_fit (related_page_values id x)) (getRelatedPagesForPage data) = true →
  _insert_arva_related_pages tn e id body w s =
  (Ok tt,
   with_work (with_inserted e RelatedPages (pulled_rows RelatedPages id data)
                (work s)) s).
Proof.
  intros Hd Hs Hv. unfold _insert_arva_related_pages, response_data_of.
  rewrite Hd, bind_ret. by apply insert_loop_run.
Qed.

Lemma _insert_arva_service_run w tn e id body data s :
  pb_data body = Present data →
  is_Some (relateds (work s) !! (e, Service)) →
  forallb (λ x, values_fit (service_values id x)) (getArvaServicesForPage data) = true →
  _insert_arva_service tn e id body w s =
  (Ok tt,
   with_work (with_inserted e Service (pulled_rows Service id data)
                (work s)) s).
Proof.
  intros Hd Hs Hv. unfold _insert_arva_service, response_data_of.
  rewrite Hd, bind_ret. by apply insert_loop_run.
Qed.

Lemma _insert_page_data_run w tn e s rows body data page_data :
  pb_data body = Present data → single data = Some page_data →
  mains (work s) !! e = Some rows →
  fits_int64 (pg_id page_data) = true →
  _insert_page_data tn e body w s =
  (Ok (pg_id page_data),
   with_work
     (set_mains
        (<[e := upserted (work s) e (clock w (ticks s)) page_data rows]>
           (mains (work s))) (work s))
     (with_ticks (S (ticks s)) s)).
Proof.
  intros Hd Hp Hm Hid. unfold _insert_page_data. rewrite Hd, Hp.
  erewrite bind_run by (by apply sql_upsert_page_run). reflexivity.
Qed.

(** [insert_arva_records] on a reply with a page, in a store where the
    tables of the environment exist: the statements run, are committed,
    the callback is told, and connection and cursor are closed. *)
Lemma insert_arva_records_run w tn e s rows body data page_data
    (cb : string → M unit) (told : string → state → state) :
  (∀ msg w s, cb msg w s = (Ok tt, told msg s)) →
  can_connect w = true →
  pb_data body = Present data → single data = Some page_data →
  mains (disk s) !! e = Some rows →
  (∀ k, is_Some (relateds (disk s) !! (e, k))) →
  reply_fits page_data data = true →
  let d' := pulled_store e (clock w (ticks s)) page_data data (disk s) in
  let s1 :=
    {| disk := d'; work := d'; open_conns := S (open_conns s);
       open_cursors := S (open_cursors s); sink := sink s;
       console := console s ++
         ["Deleting records for article_id: " +:+ str_int (pg_id page_data);
          "Deletion completed."];
       ticks := S (ticks s); requests := requests s |} in
  let s2 := told (saved_message e (pg_id page_data)) s1 in
  insert_arva_records tn e body cb w s =
  (Ok tt,
   with_handles (pred (open_conns s2)) (pred (open_cursors s2))
     (with_work (disk s2) s2)).
Proof.
  intros Hcb Hc Hd Hp Hm Hr Hfit d' s1 s2. unfold insert_arva_records.
  unfold reply_fits in Hfit. cbv zeta in Hfit.
  do 5 (apply andb_true_iff in Hfit as [Hfit ?]).
  erewrite bind_run by (by apply connect_run).
  rewrite (bind_run open_cursor _ _ _ tt _ eq_refl). st.
  erewrite try_finally_run; cycle 1.
  - apply try_except_ok.
    erewrite bind_run
      by (eapply _insert_page_data_run; [exact Hd|exact Hp|exact Hm|exact Hfit]).
    st.
    erewrite bind_run; cycle 1.
    { apply _delete_records_run; [|done]. intros k. apply Hr. }
    st.
    erewrite bind_run; cycle 1.
    { eapply _insert_arva_institution_run; [done| |done]. st.
      apply is_Some_deleted_all, Hr. }
    st.
    erewrite bind_run; cycle 1.
    { eapply _insert_arva_legal_act_run; [done| |done]. st.
      apply is_Some_with_inserted, is_Some_deleted_all, Hr. }
    st.
    erewrite bind_run; cycle 1.
    { eapply _insert_arva_page_contact_run; [done| |done]. st.
      do 2 apply is_Some_with_inserted. apply is_Some_deleted_all, Hr. }
    st.
    erewrite bind_run; cycle 1.
    { eapply _insert_arva_related_pages_run; [done| |done]. st.
      do 3 apply is_Some_with_inserted. apply is_Some_deleted_all, Hr. }
    st.
    erewrite bind_run; cycle 1.
    { eapply _insert_arva_service_run; [done| |done]. st.
      do 4 apply is_Some_with_inserted. apply is_Some_deleted_all, Hr. }
    st.
    rewrite (bind_run commit _ _ _ tt _ eq_refl). st.
    rewrite Hcb. reflexivity.
  - rewrite close_run. reflexivity.
  - subst s2 s1 d'. unfold pulled_store, saved_message, related_tables.
    rewrite Hm. cbn [foldl]. reflexivity.
Qed.

(** ** The store after a pull *)

Lemma deleted_all_fields e p kinds d :
  last_run (foldl (λ d k, with_deleted e k p d) d kinds) = last_run d ∧
  initial (foldl (λ d k, with_deleted e k p d) d kinds) = initial d ∧
  mains (foldl (λ d k, with_deleted e k p d) d kinds) = mains d ∧
  triggers (foldl (λ d k, with_deleted e k p d) d kinds) = triggers d.
Proof.
  revert d. induction kinds as [|k kinds IH]; intros d; cbn; [done|].
  destruct (IH (with_deleted e k p d)) as (-> & -> & -> & ->).
  apply with_deleted_fields.
Qed.

Lemma pulled_store_fields e now page_data data d rows :
  mains d !! e = Some rows →
  last_run (pulled_store e now page_data data d) = last_run d ∧
  initial (pulled_store e now page_data data d) = initial d ∧
  mains (pulled_store e now page_data data d) =
    <[e := upserted d e now page_data rows]> (mains d) ∧
  triggers (pulled_store e now page_data data d) = triggers d.
Proof.
  intros Hm. unfold pulled_store, related_tables. rewrite Hm. cbn [foldl].
  repeat match goal with
  | |- context [with_inserted ?e ?k ?n ?d] =>
      destruct (with_inserted_fields e k n d) as (-> & -> & -> & ->)
  end.
  repeat match goal with
  | |- context [with_deleted ?e ?k ?n ?d] =>
      destruct (with_deleted_fields e k n d) as (-> & -> & -> & ->)
  end.
  done.
Qed.

Lemma pulled_store_relateds e now page_data data d e' k :
  relateds (pulled_store e now page_data data d) !! (e', k) =
  if decide (e' = e)
  then replaced_rows k (pg_id page_data) data <$> relateds d !! (e, k)
  else relateds d !! (e', k).
Proof.
  unfold pulled_store, related_tables. cbn [foldl].
  rewrite !relateds_with_inserted, !relateds_with_deleted.
  assert (Hr : ∀ q, relateds
            match mains d !! e with
            | Some rows =>
                set_mains (<[e:=upserted d e now page_data rows]> (mains d)) d
            | None => d
            end !! q = relateds d !! q)
    by (intros q; by destruct (mains d !! e)).
  rewrite !Hr.
  destruct (decide (e' = e)) as [->|Hne].
  - destruct k; repeat (case_decide; simplify_eq; try done);
      by destruct (relateds d !! _).
  - repeat (case_decide; simplify_eq; try done).
Qed.

(** Every row a pull inserts carries the page id. *)
Lemma pulled_rows_page_id k id data r :
  r ∈ pulled_rows k id data → page_id_is k id r = true.
Proof.
  unfold pulled_rows.
  destruct k; intros (x & -> & _)%list_elem_of_fmap;
    apply bool_decide_eq_true; reflexivity.
Qed.

Lemma filter_none {A} (P : A → Prop) `{∀ x, Decision (P x)} (l : list A) :
  (∀ x, x ∈ l → ¬ P x) → filter P l = [].
Proof.
  induction l as [|x l IH]; intros Hl; [done|].
  rewrite filter_cons. rewrite decide_False by (apply Hl; left).
  apply IH. intros y Hy. apply Hl. by right.
Qed.

(** A second pull of the same page replaces the pulled rows by
    themselves. *)
Lemma replaced_rows_twice k id data old :
  replaced_rows k id data (replaced_rows k id data old) =
  replaced_rows k id data old.
Proof.
  unfold replaced_rows. rewrite filter_app.
  rewrite list_filter_filter_l by done.
  rewrite (filter_none _ (pulled_rows k id data)); [by rewrite app_nil_r|].
  intros r Hr Hn. apply Hn. by rewrite (pulled_rows_page_id k id data r).
Qed.

Lemma filter_all {A} (P : A → Prop) `{∀ x, Decision (P x)} (l : list A) :
  (∀ x, x ∈ l → P x) → filter P l = l.
Proof.
  induction l as [|x l IH]; intros Hl; [done|].
  rewrite filter_cons. rewrite decide_True by (apply Hl; left).
  f_equal. apply IH. intros y Hy. apply Hl. by right.
Qed.

(** After a pull the related rows of the page are the pulled ones, once
    each. *)
Lemma replaced_rows_of_page k id data old :
  filter (λ r, page_id_is k id r) (replaced_rows k id data old) =
  pulled_rows k id data.
Proof.
  unfold replaced_rows. rewrite filter_app.
  rewrite (filter_none _ (filter _ old)).
  - cbn. apply filter_all. intros r Hr.
    by rewrite (pulled_rows_page_id k id data r).
  - intros r [Hn _]%list_elem_of_filter. done.
Qed.

(** ** The main table after an upsert *)

Lemma upsert_rows_keys d e now id loc ttl tgs pth cnt rows :
  article_id <$> upsert_rows d e now id loc ttl tgs pth cnt rows ≡ₚ
  if bool_decide (id ∈ article_id <$> rows) then article_id <$> rows
  else id :: (article_id <$> rows).
Proof.
  unfold upsert_rows. case_bool_decide.
  - rewrite <- list_fmap_compose.
    erewrite list_fmap_ext; [reflexivity|]. intros i r _. cbn.
    case_bool_decide; [|done]. unfold fire_trigger. by case_bool_decide.
  - by rewrite insert_by_key_keys.
Qed.

Lemma upsert_rows_has_key d e now id loc ttl tgs pth cnt rows :
  id ∈ article_id <$> upsert_rows d e now id loc ttl tgs pth cnt rows.
Proof.
  rewrite upsert_rows_keys. case_bool_decide; [done|]. by left.
Qed.

Lemma upsert_rows_NoDup d e now id loc ttl tgs pth cnt rows :
  NoDup (article_id <$> rows) →
  NoDup (article_id <$> upsert_rows d e now id loc ttl tgs pth cnt rows).
Proof.
  intros Hnd. rewrite upsert_rows_keys. case_bool_decide; [done|].
  by apply NoDup_cons.
Qed.

Lemma upsert_rows_length d e now id loc ttl tgs pth cnt rows :
  id ∈ article_id <$> rows →
  length (upsert_rows d e now id loc ttl tgs pth cnt rows) = length rows.
Proof.
  intros Hk. unfold upsert_rows. rewrite bool_decide_eq_true_2 by done.
  by rewrite length_fmap.
Qed.

Lemma key_ordered_keys (rows rows' : list env_record) :
  article_id <$> rows' = article_id <$> rows →
  key_ordered rows → key_ordered rows'.
Proof.
  revert rows'. induction rows as [|r rows IH]; intros [|r' rows'] Hk;
    try done.
  rewrite !fmap_cons in Hk. injection Hk as Hr Hk.
  cbn [key_ordered]. intros [Hall Hord]. split; [|by apply IH].
  rewrite Hr. apply Forall_forall. intros x Hx.
  assert (Hin : article_id x ∈ article_id <$> rows)
    by (rewrite <- Hk; by apply list_elem_of_fmap_2).
  apply list_elem_of_fmap in Hin as (y & -> & Hy).
  by apply (proj1 (Forall_forall _ _) Hall).
Qed.

(** An upsert keeps the table in the order of its keys. *)
Lemma key_ordered_upsert_rows d e now id loc ttl tgs pth cnt rows :
  key_ordered rows →
  key_ordered (upsert_rows d e now id loc ttl tgs pth cnt rows).
Proof.
  intros Hord. unfold upsert_rows. case_bool_decide as Hk.
  - eapply key_ordered_keys; [|exact Hord].
    rewrite <- list_fmap_compose. apply list_fmap_ext. intros i r _. cbn.
    case_bool_decide; [|done]. unfold fire_trigger. by case_bool_decide.
  - by apply key_ordered_insert_by_key.
Qed.

(** The row of a page that the table did not hold is new: never pushed,
    never modified. *)
Lemma upsert_rows_fresh d e now id loc ttl tgs pth cnt rows r :
  id ∉ article_id <$> rows →
  r ∈ upsert_rows d e now id loc ttl tgs pth cnt rows → article_id r = id →
  exp_article_id r = None ∧ status r = None ∧ modified_timestamp r = None.
Proof.
  intros Hk. unfold upsert_rows. rewrite bool_decide_eq_false_2 by done.
  intros [->|Hin]%elem_of_insert_by_key Hid; [done|].
  exfalso. apply Hk. rewrite <- Hid. by apply list_elem_of_fmap_2.
Qed.

(** The row of the pulled page holds the pulled columns. *)
Lemma upsert_rows_pulled d e now id loc ttl tgs pth cnt rows r :
  r ∈ upsert_rows d e now id loc ttl tgs pth cnt rows → article_id r = id →
  locale r = loc ∧ title r = ttl ∧ tags r = tgs ∧ path r = pth ∧
  content r = cnt.
Proof.
  unfold upsert_rows. case_bool_decide as Hk.
  - intros (r0 & -> & Hin)%list_elem_of_fmap Hid.
    case_bool_decide as Hr0.
    + unfold fire_trigger. by case_bool_decide.
    + done.
  - intros [->|Hin]%elem_of_insert_by_key Hid; [done|].
    exfalso. apply Hk. rewrite <- Hid. by apply list_elem_of_fmap_2.
Qed.

(** An upsert of the page a table already holds with the pulled columns
    changes at most [modified_timestamp], and that only in the row of
    the page. *)
Lemma upsert_rows_again d e now id loc ttl tgs pth cnt rows i r :
  id ∈ article_id <$> rows →
  (∀ r, r ∈ rows → article_id r = id →
        locale r = loc ∧ title r = ttl ∧ tags r = tgs ∧ path r = pth ∧
        content r = cnt) →
  rows !! i = Some r →
  ∃ r', upsert_rows d e now id loc ttl tgs pth cnt rows !! i = Some r' ∧
        exp_article_id r' = exp_article_id r ∧
        article_id r' = article_id r ∧ locale r' = locale r ∧
        title r' = title r ∧ tags r' = tags r ∧ path r' = path r ∧
        content r' = content r ∧ status r' = status r ∧
        (article_id r ≠ id → r' = r) ∧
        (article_id r = id → e ∈ triggers d →
         modified_timestamp r' = Some now) ∧
        (e ∉ triggers d → r' = r).
Proof.
  intros Hk Hcols Hi. unfold upsert_rows.
  rewrite bool_decide_eq_true_2 by done.
  rewrite list_lookup_fmap, Hi. cbn. eexists; split; [reflexivity|].
  case_bool_decide as Hid.
  - destruct (Hcols r) as (Hl & Ht & Hg & Hp & Hc);
      [by eapply list_elem_of_lookup_2|done|].
    unfold fire_trigger. case_bool_decide; cbn; subst loc ttl tgs pth cnt;
      repeat split; try done; try by destruct r.
  - repeat split; try done.
Qed.

Lemma insert_arva_records_callback_run w tn e s rows body data page_data :
  can_connect w = true →
  pb_data body = Present data → single data = Some page_data →
  mains (disk s) !! e = Some rows →
  (∀ k, is_Some (relateds (disk s) !! (e, k))) →
  reply_fits page_data data = true →
  let d' := pulled_store e (clock w (ticks s)) page_data data (disk s) in
  insert_arva_records tn e body callback w s =
  (Ok tt,
   {| disk := d'; work := d'; open_conns := open_conns s;
      open_cursors := open_cursors s;
      sink := sink s ++ [saved_message e (pg_id page_data)];
      console := console s ++
        ["Deleting records for article_id: " +:+ str_int (pg_id page_data);
         "Deletion completed."];
      ticks := S (ticks s); requests := requests s |}).
Proof.
  intros Hc Hd Hp Hm Hr Hfit d'.
  rewrite (insert_arva_records_run w tn e s rows body data page_data callback
             (λ msg s, with_sink (sink s ++ [msg]) s)); done.
Qed.




(** ** Application errors of a pull *)

Lemma for_each_callback {A} (f : A → string) (l : list A) w s :
  for_each l (λ x, callback (f x)) w s =
  (Ok tt, with_sink (sink s ++ (f <$> l)) s).
Proof.
  revert s. induction l as [|x l IH]; intros s; cbn.
  - rewrite app_nil_r. by destruct s.
  - rewrite bind_callback, IH. st. by rewrite <- app_assoc.
Qed.

Lemma fetch_error_message_inj id : Inj (=) (=) (fetch_error_message id).
Proof.
  intros t1 t2 H. unfold fetch_error_message in H.
  by repeat apply String.app_inj in H.
Qed.

Lemma mapM_id_Some {A} (l : list A) : mapM id (Some <$> l) = Some l.
Proof. induction l as [|x l IH]; [done|]. cbn. by rewrite IH. Qed.

Lemma get_arva_records_ids w tn e ids s :
  get_arva_records tn e (Some <$> ids) callback w s =
  for_each ids (pull_one tn e callback) w s.
Proof. unfold get_arva_records. by rewrite mapM_id_Some. Qed.

Lemma pull_one_errors_run w tn e s id code text body errors :
  remote_query w (requests s) id = Replied code text (Some body) →
  pb_errors body = Some errors →
  pull_one tn e callback id w s =
  (Ok tt,
   with_sink
     (sink s ++ (fetch_error_message id <$>
                 elements (list_to_set (error_texts errors) : gset string)))
     (with_requests (S (requests s)) s)).
Proof.
  intros Hq He. unfold pull_one. apply try_except_ok.
  unfold next_request, ask. cbv [mbind M_bind]. st.
  rewrite Hq, He.
  rewrite (for_each_callback (fetch_error_message id)). st. reflexivity.
Qed.

(** C4.  The reply to the read query for an identifier carries an
    [errors] array.  Then the pull of that identifier returns, leaves the
    store as it was, gives the callback one message per distinct error
    text and no other, and [get_arva_records] goes on with the
    identifiers that follow. *)
Theorem pull_errors_reported_once (w : world) (table_name : string) (e : env)
    (s : state) (id : Z) (ids : list Z) (code : Z) (text : string)
    (body : pull_body) (errors : list gql_error) :
  remote_query w (requests s) id = Replied code text (Some body) →
  pb_errors body = Some errors →
  ∃ s' msgs,
    pull_one table_name e callback id w s = (Ok tt, s') ∧
    disk s' = disk s ∧ work s' = work s ∧
    sink s' = sink s ++ msgs ∧
    NoDup msgs ∧
    length msgs = size (list_to_set (error_texts errors) : gset string) ∧
    (∀ m, m ∈ msgs ↔
          ∃ t, t ∈ error_texts errors ∧ m = fetch_error_message id t) ∧
    get_arva_records table_name e (Some <$> (id :: ids)) callback w s =
    get_arva_records table_name e (Some <$> ids) callback w s'.
Proof.
  intros Hq He.
  pose proof (pull_one_errors_run w table_name e s id code text body errors
                Hq He) as Hrun.
  eexists _, _. split; [exact Hrun|].
  split; [done|]. split; [done|]. split; [done|].
  split; [|split; [|split]].
  - apply (NoDup_fmap_2 _), NoDup_elements. 
  - by rewrite length_fmap.
  - intros m. rewrite list_elem_of_fmap.
    split; intros (t & Ht & Hin); exists t.
    + by apply elem_of_elements, elem_of_list_to_set in Hin.
    + split; [done|]. by apply elem_of_elements, elem_of_list_to_set.
  - rewrite !get_arva_records_ids. cbn [for_each].
    erewrite bind_run by exact Hrun. reflexivity.
Qed.

Lemma pull_errors_reported_once_witness :
  ∃ s' msgs,
    pull_one "p" Dev callback 7 sample_pull_world (start sample_store)
      = (Ok tt, s') ∧
    disk s' = sample_store ∧ work s' = sample_store ∧
    sink s' = [] ++ msgs ∧
    NoDup msgs ∧
    length msgs =
      size (list_to_set ["Forbidden"; "Not found"; "Forbidden";
                         "Unknown error"] : gset string) ∧
    (∀ m, m ∈ msgs ↔
          ∃ t, t ∈ ["Forbidden"; "Not found"; "Forbidden"; "Unknown error"] ∧
               m = fetch_error_message 7 t) ∧
    get_arva_records "p" Dev (Some <$> [7; 42]) callback sample_pull_world
      (start sample_store) =
    get_arva_records "p" Dev (Some <$> [42]) callback sample_pull_world s'.
Proof.
  apply (pull_errors_reported_once sample_pull_world "p" Dev
           (start sample_store) 7 [42] 200 ""
           {| pb_errors := Some [Some "Forbidden"; Some "Not found";
                                 Some "Forbidden"; None];
              pb_data := Null |}
           [Some "Forbidden"; Some "Not found"; Some "Forbidden"; None]).
  - reflexivity.
  - reflexivity.
Defined.

(** ** Which exceptions a computation can raise *)

Lemma raises_only_ret {A} cls (a : A) : raises_only cls (mret a).
Proof. by intros w s. Qed.

Lemma raises_only_raise {A} cls c msg :
  c ∈ cls → raises_only cls (@raise A c msg).
Proof. by intros H w s. Qed.

Lemma raises_only_bind {A B} cls (m : M A) (f : A → M B) :
  raises_only cls m → (∀ a, raises_only cls (f a)) →
  raises_only cls (m ≫= f).
Proof.
  intros Hm Hf w s. unfold mbind, M_bind.
  specialize (Hm w s). destruct (m w s) as [[a|err] s1]; cbn in *.
  - apply Hf.
  - done.
Qed.

Lemma raises_only_bind_assoc {A B C} cls (m : M A) (g : A → M B)
    (f : B → M C) :
  raises_only cls (m ≫= (λ x, g x ≫= f)) → raises_only cls ((m ≫= g) ≫= f).
Proof.
  intros H w s. specialize (H w s). unfold mbind, M_bind in *.
  by destruct (m w s) as [[a|err] s1].
Qed.

Lemma raises_only_ret_bind {A B} cls (a : A) (f : A → M B) :
  raises_only cls (f a) → raises_only cls (mret a ≫= f).
Proof. intros H w s. apply H. Qed.

Lemma raises_only_for_each {A} cls (l : list A) body :
  (∀ x, raises_only cls (body x)) → raises_only cls (for_each l body).
Proof.
  intros Hb. induction l as [|x l IH]; cbn.
  - apply raises_only_ret.
  - apply raises_only_bind; [apply Hb | intros _; apply IH].
Qed.

Lemma raises_only_weaken {A} cls cls' (m : M A) :
  raises_only cls m → cls ⊆ cls' → raises_only cls' m.
Proof.
  intros Hm Hsub w s. specialize (Hm w s).
  destruct (fst (m w s)); [done|]. by apply Hsub.
Qed.

(** A [try] whose handler does not raise leaves the exceptions it does
    not name. *)
Lemma raises_only_try_except {A} cls (body : M A) cl h :
  raises_only (cl ++ cls) body → (∀ err, raises_only cls (h err)) →
  raises_only cls (try_except body cl h).
Proof.
  intros Hm Hh w s. unfold try_except.
  specialize (Hm w s). destruct (body w s) as [[a|err] s1]; cbn in *; [done|].
  case_bool_decide as Hc; cbn.
  - apply Hh.
  - apply elem_of_app in Hm as [?|?]; done.
Qed.

Lemma raises_only_try_except_all {A} cls (body : M A) h :
  (∀ err, raises_only cls (h err)) →
  raises_only cls (try_except_all body h).
Proof.
  intros Hh w s. unfold try_except_all.
  destruct (body w s) as [[a|err] s1]; cbn; [done|]. apply Hh.
Qed.

Lemma raises_only_try_finally {A} cls (body : M A) fin :
  raises_only cls body → raises_only cls fin →
  raises_only cls (try_finally body fin).
Proof.
  intros Hm Hf w s. unfold try_finally.
  specialize (Hm w s). destruct (body w s) as [r s1]; cbn in *.
  specialize (Hf w s1). by destruct (fin w s1) as [[a|err] s2].
Qed.

Lemma raises_only_nothing {A} (m : M A) w s :
  raises_only [] m → ∃ a, fst (m w s) = Ok a.
Proof.
  intros H. specialize (H w s). destruct (fst (m w s)) as [a|err]; [eauto|].
  by apply elem_of_nil in H.
Qed.

Lemma raises_only_callback cls msg : raises_only cls (callback msg).
Proof. by intros w s. Qed.

Lemma raises_only_print cls msg : raises_only cls (print msg).
Proof. by intros w s. Qed.

Lemma raises_only_get_work cls : raises_only cls get_work.
Proof. by intros w s. Qed.

Lemma raises_only_put_work cls d : raises_only cls (put_work d).
Proof. by intros w s. Qed.

Lemma raises_only_sql_now cls : raises_only cls sql_now.
Proof. by intros w s. Qed.

Lemma raises_only_commit cls : raises_only cls commit.
Proof. by intros w s. Qed.

Lemma raises_only_close cls : raises_only cls (cursor_close;; conn_close).
Proof. by intros w s. Qed.

Lemma raises_only_next_request cls : raises_only cls next_request.
Proof. by intros w s. Qed.

Lemma raises_only_ask cls : raises_only cls ask.
Proof. by intros w s. Qed.

Lemma raises_only_bind_parameters cls vals :
  values_fit vals = true → raises_only cls (bind_parameters vals).
Proof. intros H w s. unfold bind_parameters. by rewrite H. Qed.

Lemma raises_only_check_name name : raises_only [SqliteError] (check_name name).
Proof.
  intros w s. unfold check_name. cbv [mbind M_bind ask].
  destruct (name_error w name); cbn; [by left|done].
Qed.

Create HintDb raises discriminated.
Hint Resolve raises_only_ret raises_only_callback raises_only_print
  raises_only_get_work raises_only_put_work raises_only_sql_now
  raises_only_commit raises_only_close raises_only_next_request
  raises_only_ask raises_only_check_name : raises.

Ltac sqlite_only :=
  repeat first
    [ progress auto with raises
    | apply raises_only_raise; set_solver
    | apply raises_only_bind; [|intros ?]
    | apply raises_only_for_each; intros ?
    | match goal with
      | |- raises_only _ (match ?x with _ => _ end) => destruct x
      | |- raises_only _ (if ?x then _ else _) => destruct x
      end ].

Lemma raises_only__copy_main_table tn src tgt :
  raises_only [SqliteError] (_copy_main_table tn src tgt).
Proof. unfold _copy_main_table. sqlite_only. Qed.

Lemma raises_only__copy_related_tables tn src tgt kinds :
  raises_only [SqliteError] (_copy_related_tables tn src tgt kinds).
Proof. unfold _copy_related_tables, _copy_related_table. sqlite_only. Qed.

Lemma raises_only_sql_upsert_page tn e id loc ttl tgs pth cnt :
  fits_int64 id = true →
  raises_only [SqliteError] (sql_upsert_page tn e id loc ttl tgs pth cnt).
Proof.
  intros Hid. unfold sql_upsert_page.
  apply raises_only_bind; [auto with raises|intros now].
  apply raises_only_bind; [auto with raises|intros d].
  destruct (mains d !! e); [|apply raises_only_raise; set_solver].
  apply raises_only_bind; [|intros; auto with raises].
  apply raises_only_bind_parameters.
  by etrans; [exact (values_fit_int_texts id [loc; ttl; tgs; pth; cnt])|].
Qed.

Lemma raises_only_sql_delete_related tn e k p :
  fits_int64 p = true →
  raises_only [SqliteError] (sql_delete_related tn e k p).
Proof.
  intros Hp. unfold sql_delete_related.
  apply raises_only_bind; [auto with raises|intros d].
  destruct (relateds d !! (e, k)); [|apply raises_only_raise; set_solver].
  apply raises_only_bind; [|intros; auto with raises].
  apply raises_only_bind_parameters.
  by etrans; [exact (values_fit_int_texts p [])|].
Qed.

Lemma raises_only_sql_insert_related tn e k cols vals :
  values_fit vals = true →
  raises_only [SqliteError] (sql_insert_related tn e k cols vals).
Proof.
  intros Hv. unfold sql_insert_related.
  apply raises_only_bind; [auto with raises|intros d].
  destruct (relateds d !! (e, k)); [|apply raises_only_raise; set_solver].
  apply raises_only_bind; [|intros; auto with raises].
  by apply raises_only_bind_parameters.
Qed.

Lemma raises_only_insert_loop {A} tn e k cols (vals : A → list value) l :
  forallb (λ x, values_fit (vals x)) l = true →
  raises_only [SqliteError]
    (for_each l (λ x, sql_insert_related tn e k cols (vals x))).
Proof.
  induction l as [|x l IH]; cbn; [intros; apply raises_only_ret|].
  intros [Hx Hl]%andb_true_iff.
  apply raises_only_bind; [by apply raises_only_sql_insert_related|].
  intros _. by apply IH.
Qed.

Lemma raises_only_insert_body tn e body data page_data (cb : string → M unit) :
  pb_data body = Present data → single data = Some page_data →
  reply_fits page_data data = true →
  (∀ msg, raises_only [SqliteError] (cb msg)) →
  raises_only [SqliteError]
    (page_id ← _insert_page_data tn e body;
     _delete_records tn e page_id;;
     _insert_arva_institution tn e page_id body;;
     _insert_arva_legal_act tn e page_id body;;
     _insert_arva_page_contact tn e page_id body;;
     _insert_arva_related_pages tn e page_id body;;
     _insert_arva_service tn e page_id body;;
     commit;;
     cb ("Data saved successfully in the database for article ID " +:+
         str_int page_id +:+ " in environment: " +:+ env_name e)).
Proof.
  intros Hd Hp Hfit Hcb.
  unfold reply_fits in Hfit. cbv zeta in Hfit.
  do 5 (apply andb_true_iff in Hfit as [Hfit ?]).
  unfold _insert_page_data. rewrite Hd, Hp.
  apply raises_only_bind_assoc.
  apply raises_only_bind; [by apply raises_only_sql_upsert_page|intros _].
  apply raises_only_ret_bind.
  apply raises_only_bind.
  { unfold _delete_records.
    apply raises_only_bind; [auto with raises|intros _].
    apply raises_only_bind; [|intros; auto with raises].
    apply raises_only_for_each. intros k.
    by apply raises_only_sql_delete_related. }
  intros _.
  unfold _insert_arva_institution, _insert_arva_legal_act,
    _insert_arva_page_contact, _insert_arva_related_pages,
    _insert_arva_service, response_data_of. rewrite Hd.
  apply raises_only_bind; [apply raises_only_ret_bind|intros _].
  { by apply (raises_only_insert_loop _ _ _ _
                (institution_values (pg_id page_data))). }
  apply raises_only_bind; [apply raises_only_ret_bind|intros _].
  { by apply (raises_only_insert_loop _ _ _ _
                (legal_act_values (pg_id page_data))). }
  apply raises_only_bind; [apply raises_only_ret_bind|intros _].
  { by apply (raises_only_insert_loop _ _ _ _
                (page_contact_values (pg_id page_data))). }
  apply raises_only_bind; [apply raises_only_ret_bind|intros _].
  { by apply (raises_only_insert_loop _ _ _ _
                (related_page_values (pg_id page_data))). }
  apply raises_only_bind; [apply raises_only_ret_bind|intros _].
  { by apply (raises_only_insert_loop _ _ _ _
                (service_values (pg_id page_data))). }
  apply raises_only_bind; [auto with raises|intros _]. apply Hcb.
Qed.

(** With a store that opens and a reply that holds a page,
    [insert_arva_records] returns whatever the store holds. *)
Lemma insert_arva_records_returns w tn e s body data page_data
    (cb : string → M unit) :
  can_connect w = true →
  pb_data body = Present data → single data = Some page_data →
  reply_fits page_data data = true →
  (∀ msg, raises_only [] (cb msg)) →
  ∃ s', insert_arva_records tn e body cb w s = (Ok tt, s').
Proof.
  intros Hc Hd Hp Hfit Hcb. unfold insert_arva_records.
  erewrite bind_run by (by apply connect_run).
  rewrite (bind_run open_cursor _ _ _ tt _ eq_refl).
  match goal with
  | |- ∃ s', ?m w ?s0 = _ =>
      destruct (raises_only_nothing m w s0) as [[] Hr];
      [|destruct (m w s0) as [r s']; cbn in Hr; subst r; by exists s']
  end.
  apply raises_only_try_finally; [|auto with raises].
  apply raises_only_try_except; [|intros; apply Hcb].
  rewrite app_nil_r.
  apply (raises_only_insert_body tn e body data page_data cb); [done..|].
  intros msg. eapply raises_only_weaken; [apply Hcb|].
  intros x Hx. by apply elem_of_nil in Hx.
Qed.

Lemma pull_one_returns w tn e s id :
  can_connect w = true →
  handled_reply (remote_query w (requests s) id) →
  ∃ s', pull_one tn e callback id w s = (Ok tt, s').
Proof.
  intros Hc Hh.
  destruct (remote_query w (requests s) id) as [msg|code text [body|]] eqn:Hq.
  - unfold pull_one. erewrite try_except_raise_caught; cycle 1.
    { unfold next_request, ask. cbv [mbind M_bind]. st. rewrite Hq.
      reflexivity. }
    { by left. }
    by eexists.
  - destruct (pb_errors body) as [errors|] eqn:He.
    { erewrite pull_one_errors_run by done. by eexists. }
    unfold pull_one.
    destruct Hh as [[x Hx]|[Hcode|[Hd|(data & page_data & Hd & Hp & Hfit)]]];
      [congruence| | |].
    + eexists. apply try_except_ok.
      unfold next_request, ask. cbv [mbind M_bind]. st. rewrite Hq, He.
      rewrite (bool_decide_eq_false_2 (code = 200)) by done. reflexivity.
    + eexists. apply try_except_ok.
      unfold next_request, ask. cbv [mbind M_bind]. st. rewrite Hq, He, Hd.
      rewrite andb_false_r. reflexivity.
    + destruct (bool_decide (code = 200)) eqn:Hcode.
      * assert (Hpr : ∀ msg, raises_only [] (print msg))
          by (intros; apply raises_only_print).
        destruct (insert_arva_records_returns w tn e
                    (with_requests (S (requests s)) s) body data page_data
                    print Hc Hd Hp Hfit Hpr) as [s1 Hs1].
        eexists. apply try_except_ok.
        unfold next_request, ask. cbv [mbind M_bind]. st. rewrite Hq, He, Hd.
        rewrite Hcode. cbn [andb]. unfold with_requests in Hs1.
        rewrite Hs1. reflexivity.
      * eexists. apply try_except_ok.
        unfold next_request, ask. cbv [mbind M_bind]. st. rewrite Hq, He.
        rewrite Hcode. reflexivity.
  - unfold pull_one. erewrite try_except_raise_caught; cycle 1.
    { unfold next_request, ask. cbv [mbind M_bind]. st. rewrite Hq.
      reflexivity. }
    { by left. }
    by eexists.
Qed.

Lemma get_arva_records_returns w tn e ids s :
  can_connect w = true →
  (∀ n id, handled_reply (remote_query w n id)) →
  ∃ s', get_arva_records tn e (Some <$> ids) callback w s = (Ok tt, s').
Proof.
  intros Hc Hh. rewrite get_arva_records_ids. revert s.
  induction ids as [|id ids IH]; intros s; cbn; [by eexists|].
  destruct (pull_one_returns w tn e s id Hc (Hh _ _)) as [s1 H1].
  erewrite bind_run by exact H1. apply IH.
Qed.

Lemma copy_table_returns w tn src tgt s :
  can_connect w = true →
  ∃ s', copy_table tn src tgt callback w s = (Ok tt, s').
Proof.
  intros Hc. unfold copy_table, initialize_db_connection.
  erewrite bind_run; cycle 1.
  { erewrite bind_run by (by apply connect_run). reflexivity. }
  match goal with
  | |- ∃ s', ?m w ?s0 = _ =>
      destruct (raises_only_nothing m w s0) as [[] Hr];
      [|destruct (m w s0) as [r s']; cbn in Hr; subst r; by exists s']
  end.
  apply raises_only_try_except; [|intros; auto with raises].
  rewrite app_nil_r.
  apply raises_only_bind; [apply raises_only__copy_main_table|intros _].
  apply raises_only_bind; [apply raises_only__copy_related_tables|intros _].
  sqlite_only.
Qed.

Lemma create_db_returns w db tn s :
  can_connect w = true →
  ∃ s', create_db db tn callback w s = (Ok tt, s').
Proof.
  intros Hc. unfold create_db, initialize_db_connection.
  erewrite bind_run; cycle 1.
  { erewrite bind_run by (by apply connect_run). reflexivity. }
  match goal with
  | |- ∃ s', ?m w ?s0 = _ =>
      destruct (raises_only_nothing m w s0) as [[] Hr];
      [|destruct (m w s0) as [r s']; cbn in Hr; subst r; by exists s']
  end.
  apply raises_only_try_finally; [|auto with raises].
  apply raises_only_try_except; [|intros; auto with raises].
  rewrite app_nil_r.
  unfold create_base_tables, sql_create_last_run, sql_insert_initial_run,
    create_initial_table, create_env_tables, create_main_env_table,
    create_update_trigger, create_related_tables, create_related_table.
  sqlite_only.
Qed.

Lemma process_records_returns w tn e tok url s :
  can_connect w = true →
  ∃ s', process_records tn e tok url callback w s = (Ok tt, s').
Proof.
  intros Hc. unfold process_records.
  erewrite bind_run by (by apply open_store_run).
  match goal with
  | |- ∃ s', ?m w ?s0 = _ =>
      destruct (raises_only_nothing m w s0) as [[] Hr];
      [|destruct (m w s0) as [r s']; cbn in Hr; subst r; by exists s']
  end.
  apply raises_only_try_finally; [|auto with raises].
  apply raises_only_try_except_all. intros; auto with raises.
Qed.

(** ** Exceptions that a pull lets through *)

Lemma mapM_id_None {A} (l : list (option A)) :
  None ∈ l → mapM id l = None.
Proof.
  induction l as [|x l IH]; intros Hin; [by apply elem_of_nil in Hin|].
  apply elem_of_cons in Hin as [<-|Hin]; [done|].
  cbn. destruct x; [|done]. cbn. by rewrite IH.
Qed.

(** An exception of [_insert_page_data] that is not an [sqlite3.Error]
    leaves [insert_arva_records] after the handles are closed. *)
Lemma insert_arva_records_lets_through w tn e body (cb : string → M unit) s
    err s1 :
  can_connect w = true →
  _insert_page_data tn e body w
    (with_handles (S (open_conns s)) (S (open_cursors s))
       (with_work (disk s) s)) = (Raise err, s1) →
  exn_cls err ≠ SqliteError →
  outcome (insert_arva_records tn e body cb w s) = Raise err.
Proof.
  intros Hc Hr Hcls. unfold insert_arva_records.
  erewrite bind_run by (by apply connect_run).
  rewrite (bind_run open_cursor _ _ _ tt _ eq_refl).
  erewrite try_finally_run; cycle 1.
  { apply (try_except_raise_missed _ _ _ _ _ err s1);
      [|by rewrite list_elem_of_singleton].
    apply bind_raise. exact Hr. }
  { reflexivity. }
  reflexivity.
Qed.

Lemma pull_one_lets_through w tn e id s text body err :
  remote_query w (requests s) id = Replied 200 text (Some body) →
  pb_errors body = None → pb_data body ≠ Absent →
  outcome (insert_arva_records tn e body print w
             (with_requests (S (requests s)) s)) = Raise err →
  exn_cls err ≠ RequestException →
  outcome (pull_one tn e callback id w s) = Raise err.
Proof.
  intros Hq He Hd Hr Hcls. unfold pull_one, outcome in *.
  destruct (insert_arva_records tn e body print w _) as [r s1] eqn:Hi.
  cbn in Hr. subst r.
  erewrite (try_except_raise_missed _ _ _ _ _ err s1);
    [reflexivity| |by rewrite list_elem_of_singleton].
  unfold next_request, ask. cbv [mbind M_bind]. st. rewrite Hq, He.
  rewrite bool_decide_eq_true_2 by done.
  destruct (pb_data body); [done|..]; cbn [andb];
    unfold with_requests in Hi; by rewrite Hi.
Qed.

Lemma get_arva_records_lets_through w tn e id ids s err :
  outcome (pull_one tn e callback id w s) = Raise err →
  outcome (get_arva_records tn e (Some <$> id :: ids) callback w s)
  = Raise err.
Proof.
  intros Hr. rewrite get_arva_records_ids. unfold outcome in *. cbn.
  destruct (pull_one tn e callback id w s) as [r s1] eqn:Hp.
  cbn in Hr. subst r. by erewrite bind_raise.
Qed.




(** ** Components of the state that a computation keeps *)

Section KeepsProj.
Context {X : Type} (proj : state → X).

Lemma keeps_proj_bind {A B} (m : M A) (f : A → M B) :
  keeps_proj proj m → (∀ a, keeps_proj proj (f a)) →
  keeps_proj proj (m ≫= f).
Proof.
  intros Hm Hf w s. unfold mbind, M_bind.
  specialize (Hm w s). destruct (m w s) as [[a|err] s1]; cbn in *.
  - by rewrite Hf.
  - done.
Qed.

Lemma keeps_proj_try_except {A} (body : M A) cl h :
  keeps_proj proj body → (∀ err, keeps_proj proj (h err)) →
  keeps_proj proj (try_except body cl h).
Proof.
  intros Hm Hh w s. unfold try_except.
  specialize (Hm w s). destruct (body w s) as [[a|err] s1]; cbn in *; [done|].
  case_bool_decide; cbn; [by rewrite Hh | done].
Qed.

Lemma keeps_proj_try_except_all {A} (body : M A) h :
  keeps_proj proj body → (∀ err, keeps_proj proj (h err)) →
  keeps_proj proj (try_except_all body h).
Proof.
  intros Hm Hh w s. unfold try_except_all.
  specialize (Hm w s). destruct (body w s) as [[a|err] s1]; cbn in *; [done|].
  by rewrite Hh.
Qed.

Lemma keeps_proj_try_finally {A} (body : M A) fin :
  keeps_proj proj body → keeps_proj proj fin →
  keeps_proj proj (try_finally body fin).
Proof.
  intros Hm Hf w s. unfold try_finally.
  specialize (Hm w s). destruct (body w s) as [r s1]; cbn in *.
  specialize (Hf w s1). destruct (fin w s1) as [[a|err] s2]; cbn in *;
    congruence.
Qed.

Lemma keeps_proj_for_each {A} (l : list A) body :
  (∀ x, keeps_proj proj (body x)) → keeps_proj proj (for_each l body).
Proof.
  intros Hb. induction l as [|x l IH]; cbn.
  - by intros w s.
  - apply keeps_proj_bind; [apply Hb | intros _; apply IH].
Qed.

Lemma keeps_proj_bind_parameters vals :
  keeps_proj proj (bind_parameters vals).
Proof. intros w s. unfold bind_parameters. by destruct (values_fit vals). Qed.
End KeepsProj.

(** Steps through the structure of a computation; a leaf is a primitive
    that visibly leaves the component alone. *)
Ltac keeps_proj :=
  repeat first
    [ match goal with
      | H : context [keeps_proj] |- keeps_proj _ _ => solve [apply H]
      end
    | apply keeps_proj_bind; [|intros ?]
    | apply keeps_proj_try_except; [|intros ?]
    | apply keeps_proj_try_except_all; [|intros ?]
    | apply keeps_proj_try_finally
    | apply keeps_proj_for_each; intros ?
    | apply keeps_proj_bind_parameters
    | match goal with
      | |- keeps_proj _ (match ?x with _ => _ end) => destruct x
      | |- keeps_proj _ (if ?x then _ else _) => destruct x
      | |- keeps_proj _ (let '(_, _) := ?x in _) => destruct x
      end
    | by intros ? ? ].

(** ** Connections and cursors *)

Lemma keeps_handles_execute_graphql_mutation m :
  keeps_proj handles (execute_graphql_mutation m).
Proof. unfold execute_graphql_mutation. keeps_proj. Qed.

Lemma keeps_handles_fetch_related_data tn e a :
  keeps_proj handles (fetch_related_data tn e a).
Proof. unfold fetch_related_data, sql_select_related. keeps_proj. Qed.

Lemma keeps_handles_process_record tn e row :
  keeps_proj handles (process_record tn e row callback).
Proof.
  unfold process_record, prepare_record_variables, update_record_status,
    sql_update_status, handle_follow_up_mutation.
  pose proof keeps_handles_execute_graphql_mutation.
  pose proof keeps_handles_fetch_related_data.
  keeps_proj.
Qed.

Lemma finally_close_handles {A} (body : M A) w s :
  keeps_proj handles body →
  handles (snd (try_finally body (cursor_close;; conn_close) w s)) =
  (pred (open_conns s), pred (open_cursors s)).
Proof.
  intros Hb. unfold try_finally. specialize (Hb w s).
  destruct (body w s) as [r s1]. rewrite close_run.
  unfold handles in *. cbn in *. injection Hb as H1 H2. by rewrite H1, H2.
Qed.

Lemma keeps_handles_insert_body tn e body (cb : string → M unit) :
  (∀ msg, keeps_proj handles (cb msg)) →
  keeps_proj handles
    (try_except
       (page_id ← _insert_page_data tn e body;
        _delete_records tn e page_id;;
        _insert_arva_institution tn e page_id body;;
        _insert_arva_legal_act tn e page_id body;;
        _insert_arva_page_contact tn e page_id body;;
        _insert_arva_related_pages tn e page_id body;;
        _insert_arva_service tn e page_id body;;
        commit;;
        cb ("Data saved successfully in the database for article ID " +:+
            str_int page_id +:+ " in environment: " +:+ env_name e))
       [SqliteError]
       (λ error, cb ("Database error: " +:+ str_exn error))).
Proof.
  intros Hcb.
  unfold _insert_page_data, sql_upsert_page, _delete_records,
    sql_delete_related, _insert_arva_institution, _insert_arva_legal_act,
    _insert_arva_page_contact, _insert_arva_related_pages,
    _insert_arva_service, response_data_of, sql_insert_related.
  keeps_proj; apply Hcb.
Qed.

Lemma insert_arva_records_handles w tn e body (cb : string → M unit) s :
  (∀ msg, keeps_proj handles (cb msg)) →
  handles (final (insert_arva_records tn e body cb w s)) = handles s.
Proof.
  intros Hcb. unfold insert_arva_records.
  destruct (can_connect w) eqn:Hc.
  - erewrite bind_run by (by apply connect_run).
    rewrite (bind_run open_cursor _ _ _ tt _ eq_refl).
    unfold final. rewrite finally_close_handles; [done|].
    by apply keeps_handles_insert_body.
  - erewrite bind_raise; [done|]. unfold connect. by rewrite Hc.
Qed.

Lemma keeps_handles_pull_one tn e id :
  keeps_proj handles (pull_one tn e callback id).
Proof.
  unfold pull_one.
  assert (Hins : ∀ body, keeps_proj handles (insert_arva_records tn e body print)).
  { intros body w s. apply insert_arva_records_handles. by intros msg w' s'. }
  keeps_proj.
Qed.

Lemma get_arva_records_handles w tn e ids s :
  handles (final (get_arva_records tn e ids callback w s)) = handles s.
Proof.
  unfold get_arva_records. destruct (mapM id ids) as [l|]; [|done].
  apply keeps_proj_for_each. intros x. apply keeps_handles_pull_one.
Qed.

Lemma create_db_handles w db tn s :
  handles (final (create_db db tn callback w s)) = handles s.
Proof.
  destruct (can_connect w) eqn:Hc.
  - unfold create_db, initialize_db_connection.
    erewrite bind_run; cycle 1.
    { erewrite bind_run by (by apply connect_run). reflexivity. }
    unfold final. rewrite finally_close_handles; [done|].
    unfold create_base_tables, sql_create_last_run, sql_insert_initial_run,
      create_initial_table, create_env_tables, create_main_env_table,
      create_update_trigger, create_related_tables, create_related_table,
      check_name.
    keeps_proj.
  - unfold create_db, initialize_db_connection.
    erewrite bind_raise; [done|]. erewrite bind_raise; [done|].
    unfold connect. by rewrite Hc.
Qed.

Lemma process_records_handles w tn e tok url s :
  handles (final (process_records tn e tok url callback w s)) = handles s.
Proof.
  unfold process_records. destruct (can_connect w) eqn:Hc.
  - erewrite bind_run by (by apply open_store_run).
    unfold final. rewrite finally_close_handles; [done|].
    unfold get_api_config, fetch_all_records, get_last_run_info.
    pose proof keeps_handles_process_record.
    keeps_proj.
  - erewrite bind_run by (by apply open_store_fail). done.
Qed.

Lemma copy_table_handles w tn src tgt s :
  handles (final (copy_table tn src tgt callback w s)) =
  if can_connect w then (S (open_conns s), S (open_cursors s))
  else handles s.
Proof.
  unfold copy_table, initialize_db_connection.
  destruct (can_connect w) eqn:Hc.
  - erewrite bind_run; cycle 1.
    { erewrite bind_run by (by apply connect_run). reflexivity. }
    match goal with
    | |- handles (final (?m w ?s0)) = _ =>
        assert (Hk : keeps_proj handles m)
    end.
    { unfold _copy_main_table, _copy_related_tables, _copy_related_table.
      keeps_proj. }
    unfold final. by rewrite Hk.
  - erewrite bind_raise; [done|]. erewrite bind_raise; [done|].
    unfold connect. by rewrite Hc.
Qed.

(** X1.  Whatever the world, the state and the arguments, [create_db],
    [insert_arva_records], [get_arva_records] and [process_records]
    return or raise with as many connections and cursors open as they
    found: what they open they close on every path.  [copy_table] leaves
    one more connection and one more cursor open whenever the store
    opens. *)
Theorem handles_after_operations (w : world) (s : state) :
  (∀ db table_name,
     handles (final (create_db db table_name callback w s)) = handles s) ∧
  (∀ table_name e body,
     handles (final (insert_arva_records table_name e body callback w s))
     = handles s) ∧
  (∀ table_name e article_ids,
     handles (final (get_arva_records table_name e article_ids callback w s))
     = handles s) ∧
  (∀ table_name e bearer_token graphql_url,
     handles (final (process_records table_name e bearer_token graphql_url
                       callback w s)) = handles s) ∧
  (∀ table_name source_env target_env,
     handles (final (copy_table table_name source_env target_env callback w s))
     = if can_connect w then (S (open_conns s), S (open_cursors s))
       else handles s).
Proof.
  repeat split; intros.
  - apply create_db_handles.
  - apply insert_arva_records_handles. by intros msg w' s'.
  - apply get_arva_records_handles.
  - apply process_records_handles.
  - apply copy_table_handles.
Qed.

(** ** All or nothing *)

Lemma commits_or_keeps_bind ok {A B} (m : M A) (f : A → M B) :
  keeps_proj committed m → (∀ a, commits_or_keeps ok (f a)) →
  commits_or_keeps ok (m ≫= f).
Proof.
  intros Hm Hf w s. unfold mbind, M_bind.
  specialize (Hm w s). destruct (m w s) as [[a|err] s1]; cbn in *.
  - specialize (Hf a w s1). unfold committed in *.
    injection Hm as Hd Hs. rewrite <- Hd, <- Hs. exact Hf.
  - done.
Qed.

Lemma commits_or_keeps_commit ok msg :
  ok msg → commits_or_keeps ok (commit;; callback msg).
Proof. intros Hok w s. by exists msg. Qed.

(** A [try] around such a computation whose handler tells the callback:
    it returns, and either committed, or left the committed store and
    told the callback the error. *)
Lemma try_commit_or_report ok (body : M unit) cl (report : exn → string) w s :
  commits_or_keeps ok body → raises_only cl body →
  ∃ s' msg,
    try_except body cl (λ err, callback (report err)) w s = (Ok tt, s') ∧
    sink s' = sink s ++ [msg] ∧
    ((ok msg ∧ disk s' = work s') ∨
     (disk s' = disk s ∧ ∃ err, exn_cls err ∈ cl ∧ msg = report err)).
Proof.
  intros Hb Hr. unfold try_except.
  specialize (Hb w s). specialize (Hr w s).
  destruct (body w s) as [[[]|err] s1]; cbn in *.
  - destruct Hb as (msg & Hok & Hs & Hd). exists s1, msg. eauto.
  - rewrite bool_decide_eq_true_2 by done.
    unfold committed in Hb. injection Hb as Hd Hs.
    eexists _, _. split; [reflexivity|]. cbn. rewrite Hs. split; [done|].
    right. split; [done|]. by exists err.
Qed.

Lemma keeps_committed__copy_main_table tn src tgt :
  keeps_proj committed (_copy_main_table tn src tgt).
Proof. unfold _copy_main_table. keeps_proj. Qed.

Lemma keeps_committed__copy_related_tables tn src tgt kinds :
  keeps_proj committed (_copy_related_tables tn src tgt kinds).
Proof. unfold _copy_related_tables, _copy_related_table. keeps_proj. Qed.



Lemma try_commit_or_report_any ok (body : M unit) cl (report : exn → string)
    w s :
  commits_or_keeps ok body →
  match try_except body cl (λ err, callback (report err)) w s with
  | (Ok _, s') =>
      ∃ msg, sink s' = sink s ++ [msg] ∧
        ((ok msg ∧ disk s' = work s') ∨
         (disk s' = disk s ∧ ∃ err, exn_cls err ∈ cl ∧ msg = report err))
  | (Raise err, s') => committed s' = committed s ∧ exn_cls err ∉ cl
  end.
Proof.
  intros Hb. unfold try_except. specialize (Hb w s).
  destruct (body w s) as [[[]|err] s1]; cbn in *.
  - destruct Hb as (msg & Hok & Hs & Hd). exists msg. eauto.
  - unfold committed in Hb. injection Hb as Hd Hs.
    case_bool_decide as Hcl; cbn.
    + eexists. rewrite Hs. split; [done|]. right. split; [done|].
      by exists err.
    + unfold committed. by rewrite Hd, Hs.
Qed.

Lemma commits_or_keeps_insert_body tn e body :
  commits_or_keeps (λ msg, ∃ id, msg = saved_message e id)
    (page_id ← _insert_page_data tn e body;
     _delete_records tn e page_id;;
     _insert_arva_institution tn e page_id body;;
     _insert_arva_legal_act tn e page_id body;;
     _insert_arva_page_contact tn e page_id body;;
     _insert_arva_related_pages tn e page_id body;;
     _insert_arva_service tn e page_id body;;
     commit;;
     callback ("Data saved successfully in the database for article ID " +:+
               str_int page_id +:+ " in environment: " +:+ env_name e)).
Proof.
  apply commits_or_keeps_bind.
  { unfold _insert_page_data, sql_upsert_page. keeps_proj. }
  intros page_id.
  apply commits_or_keeps_bind.
  { unfold _delete_records, sql_delete_related. keeps_proj. }
  intros _.
  do 5 (apply commits_or_keeps_bind;
    [unfold _insert_arva_institution, _insert_arva_legal_act,
       _insert_arva_page_contact, _insert_arva_related_pages,
       _insert_arva_service, response_data_of, sql_insert_related;
     keeps_proj | intros _]).
  apply commits_or_keeps_commit. by exists page_id.
Qed.

(** ** What a pull that succeeded has found *)

Lemma bind_ok_inv {A B} (m : M A) (f : A → M B) w s b :
  fst ((m ≫= f) w s) = Ok b →
  ∃ a s1, m w s = (Ok a, s1) ∧ fst (f a w s1) = Ok b.
Proof.
  unfold mbind, M_bind. destruct (m w s) as [[a|err] s1]; cbn; [|done].
  intros H. by exists a, s1.
Qed.

Lemma sql_upsert_page_ok_inv w tn e s id loc ttl tgs pth cnt :
  fst (sql_upsert_page tn e id loc ttl tgs pth cnt w s) = Ok tt →
  is_Some (mains (work s) !! e) ∧ fits_int64 id = true.
Proof.
  unfold sql_upsert_page. cbv [mbind M_bind sql_now get_work]. st.
  destruct (mains (work s) !! e) as [rows|]; [|done].
  unfold bind_parameters.
  destruct (values_fit _) eqn:Hv; [|done]. intros _. split; [done|].
  by rewrite <- Hv, <- (values_fit_int_texts id [loc; ttl; tgs; pth; cnt]).
Qed.

Lemma sql_delete_related_ok_inv w tn e k p s :
  fst (sql_delete_related tn e k p w s) = Ok tt →
  is_Some (relateds (work s) !! (e, k)) ∧ fits_int64 p = true.
Proof.
  unfold sql_delete_related. cbv [mbind M_bind get_work]. st.
  destruct (relateds (work s) !! (e, k)) as [rows|]; [|done].
  unfold bind_parameters.
  destruct (values_fit _) eqn:Hv; [|done]. intros _. split; [done|].
  by rewrite <- Hv, <- (values_fit_int_texts p []).
Qed.

Lemma is_Some_with_deleted_inv e k p d q :
  is_Some (relateds (with_deleted e k p d) !! q) →
  is_Some (relateds d !! q).
Proof.
  rewrite relateds_with_deleted. case_decide; [|done].
  subst q. by rewrite fmap_is_Some.
Qed.

Lemma delete_loop_ok_inv w tn e p kinds s :
  fst (for_each kinds (λ k, sql_delete_related tn e k p) w s) = Ok tt →
  ∀ k, k ∈ kinds → is_Some (relateds (work s) !! (e, k)).
Proof.
  revert s. induction kinds as [|k0 kinds IH]; intros s Hok k Hk.
  { by apply elem_of_nil in Hk. }
  cbn in Hok. apply bind_ok_inv in Hok as ([] & s1 & H0 & Hrest).
  assert (H0' := H0). apply (f_equal fst) in H0'. cbn in H0'.
  apply sql_delete_related_ok_inv in H0' as [Hs Hp].
  apply elem_of_cons in Hk as [->|Hk]; [done|].
  rewrite sql_delete_related_run in H0 by done.
  injection H0 as <-.
  eapply is_Some_with_deleted_inv. apply (IH _ Hrest k Hk).
Qed.

Lemma _delete_records_ok_inv w tn e p s :
  fst (_delete_records tn e p w s) = Ok tt →
  ∀ k, is_Some (relateds (work s) !! (e, k)).
Proof.
  unfold _delete_records. intros Hok k.
  apply bind_ok_inv in Hok as ([] & s1 & H0 & Hrest).
  injection H0 as <-.
  apply bind_ok_inv in Hrest as ([] & s2 & H1 & _).
  apply (f_equal fst) in H1. cbn [fst] in H1.
  apply (delete_loop_ok_inv _ _ _ _ _ _ H1 k).
  unfold related_tables. destruct k; set_solver.
Qed.

Lemma insert_loop_ok_inv {A} w tn e k cols (vals : A → list value) l s :
  is_Some (relateds (work s) !! (e, k)) →
  fst (for_each l (λ x, sql_insert_related tn e k cols (vals x)) w s)
  = Ok tt →
  forallb (λ x, values_fit (vals x)) l = true.
Proof.
  revert s. induction l as [|x l IH]; intros s Hs Hok; [done|].
  cbn in Hok. apply bind_ok_inv in Hok as ([] & s1 & H0 & Hrest).
  cbn. destruct (values_fit (vals x)) eqn:Hv.
  - rewrite sql_insert_related_run in H0 by done. injection H0 as <-.
    eapply IH; [|exact Hrest]. cbn. by apply is_Some_with_inserted.
  - exfalso. destruct Hs as [rows Hrows].
    unfold sql_insert_related in H0. cbv [mbind M_bind get_work] in H0.
    rewrite Hrows in H0. unfold bind_parameters in H0.
    by rewrite Hv in H0.
Qed.

(** When the statements of [insert_arva_records] have all run, the
    reply held a page, the tables of the environment existed and every
    integer of the reply fitted. *)
Ltac tables :=
  cbn; repeat apply is_Some_with_inserted; repeat apply is_Some_with_deleted;
  match goal with H : ∀ k, is_Some _ |- _ => apply H end.

Lemma insert_body_ok_inv w tn e body (cb : string → M unit) s :
  fst ((page_id ← _insert_page_data tn e body;
        _delete_records tn e page_id;;
        _insert_arva_institution tn e page_id body;;
        _insert_arva_legal_act tn e page_id body;;
        _insert_arva_page_contact tn e page_id body;;
        _insert_arva_related_pages tn e page_id body;;
        _insert_arva_service tn e page_id body;;
        commit;;
        cb ("Data saved successfully in the database for article ID " +:+
            str_int page_id +:+ " in environment: " +:+ env_name e)) w s)
  = Ok tt →
  ∃ data page_data,
    pb_data body = Present data ∧ single data = Some page_data ∧
    is_Some (mains (work s) !! e) ∧
    (∀ k, is_Some (relateds (work s) !! (e, k))) ∧
    reply_fits page_data data = true.
Proof.
  intros Hok.
  apply bind_ok_inv in Hok as (page_id & s1 & Hpage & Hok).
  unfold _insert_page_data in Hpage.
  destruct (pb_data body) as [| | |data] eqn:Hd; [done..|].
  destruct (single data) as [page_data|] eqn:Hp; [|done].
  exists data, page_data.
  assert (Hup := Hpage). apply (f_equal fst) in Hup. cbn [fst] in Hup.
  apply bind_ok_inv in Hup as ([] & s' & Hup & _).
  apply (f_equal fst) in Hup. cbn [fst] in Hup.
  apply sql_upsert_page_ok_inv in Hup as [[rows Hm] Hid].
  erewrite bind_run in Hpage by (by apply sql_upsert_page_run).
  injection Hpage as <- <-.
  apply bind_ok_inv in Hok as ([] & s2 & Hdel & Hok).
  assert (Hr : ∀ k, is_Some (relateds (work s) !! (e, k))).
  { intros k. apply (f_equal fst) in Hdel. cbn [fst] in Hdel.
    apply (_delete_records_ok_inv _ _ _ _ _ Hdel k). }
  rewrite _delete_records_run in Hdel by done. injection Hdel as <-.
  apply bind_ok_inv in Hok as ([] & s3 & H1 & Hok).
  assert (F1 : forallb (λ x, values_fit (institution_values (pg_id page_data) x))
                 (getArvaInstitutionsForPage data) = true).
  { apply (f_equal fst) in H1. cbn [fst] in H1.
    unfold _insert_arva_institution, response_data_of in H1.
    rewrite Hd, bind_ret in H1.
    eapply insert_loop_ok_inv; [|exact H1]. tables. }
  erewrite _insert_arva_institution_run in H1;
    [|done|tables|done].
  injection H1 as <-.
  apply bind_ok_inv in Hok as ([] & s4 & H2 & Hok).
  assert (F2 : forallb (λ x, values_fit (legal_act_values (pg_id page_data) x))
                 (getLegalActsForPage data) = true).
  { apply (f_equal fst) in H2. cbn [fst] in H2.
    unfold _insert_arva_legal_act, response_data_of in H2.
    rewrite Hd, bind_ret in H2.
    eapply insert_loop_ok_inv; [|exact H2]. tables. }
  erewrite _insert_arva_legal_act_run in H2;
    [|done|tables|done].
  injection H2 as <-.
  apply bind_ok_inv in Hok as ([] & s5 & H3 & Hok).
  assert (F3 : forallb (λ x, values_fit (page_contact_values (pg_id page_data) x))
                 (getArvaPageContactForPage data) = true).
  { apply (f_equal fst) in H3. cbn [fst] in H3.
    unfold _insert_arva_page_contact, response_data_of in H3.
    rewrite Hd, bind_ret in H3.
    eapply insert_loop_ok_inv; [|exact H3]. tables. }
  erewrite _insert_arva_page_contact_run in H3;
    [|done|tables|done].
  injection H3 as <-.
  apply bind_ok_inv in Hok as ([] & s6 & H4 & Hok).
  assert (F4 : forallb (λ x, values_fit (related_page_values (pg_id page_data) x))
                 (getRelatedPagesForPage data) = true).
  { apply (f_equal fst) in H4. cbn [fst] in H4.
    unfold _insert_arva_related_pages, response_data_of in H4.
    rewrite Hd, bind_ret in H4.
    eapply insert_loop_ok_inv; [|exact H4]. tables. }
  erewrite _insert_arva_related_pages_run in H4;
    [|done|tables|done].
  injection H4 as <-.
  apply bind_ok_inv in Hok as ([] & s7 & H5 & Hok).
  assert (F5 : forallb (λ x, values_fit (service_values (pg_id page_data) x))
                 (getArvaServicesForPage data) = true).
  { apply (f_equal fst) in H5. cbn [fst] in H5.
    unfold _insert_arva_service, response_data_of in H5.
    rewrite Hd, bind_ret in H5.
    eapply insert_loop_ok_inv; [|exact H5]. tables. }
  split; [done|]. split; [done|]. split; [by exists rows|].
  split; [exact Hr|].
  unfold reply_fits. cbv zeta. by rewrite Hid, F1, F2, F3, F4, F5.
Qed.

(** X3.  With a store that opens, whatever the reply and the store hold:
    when [insert_arva_records] returns it has given the callback exactly
    one message.  Either that is the success message for the page of the
    reply, and the committed store is the one it found with the page's
    row upserted in the main table and the page's related rows replaced
    by those of the reply; or it is ["Database error: ..."], and the
    committed store is as it was.  When it raises (the reply has no
    page, or an integer of the reply does not fit an SQLite INTEGER) the
    committed store and the callback's messages are as they were.  A
    pull that fails part of the way leaves no partial write. *)
Theorem insert_arva_records_all_or_nothing (w : world) (table_name : string)
    (e : env) (body : pull_body) (s : state) :
  can_connect w = true →
  match insert_arva_records table_name e body callback w s with
  | (Ok _, s') =>
      ∃ msg, sink s' = sink s ++ [msg] ∧
        ((∃ data page_data,
            pb_data body = Present data ∧ single data = Some page_data ∧
            msg = saved_message e (pg_id page_data) ∧
            disk s' =
              pulled_store e (clock w (ticks s)) page_data data (disk s)) ∨
         (disk s' = disk s ∧
          ∃ err, exn_cls err = SqliteError ∧
                 msg = "Database error: " +:+ str_exn err))
  | (Raise err, s') =>
      disk s' = disk s ∧ sink s' = sink s ∧ exn_cls err ≠ SqliteError
  end.
Proof.
  intros Hc.
  pose (s0 := with_handles (S (open_conns s)) (S (open_cursors s))
                (with_work (disk s) s)).
  pose (stmts :=
    (page_id ← _insert_page_data table_name e body;
     _delete_records table_name e page_id;;
     _insert_arva_institution table_name e page_id body;;
     _insert_arva_legal_act table_name e page_id body;;
     _insert_arva_page_contact table_name e page_id body;;
     _insert_arva_related_pages table_name e page_id body;;
     _insert_arva_service table_name e page_id body;;
     commit;;
     callback ("Data saved successfully in the database for article ID " +:+
               str_int page_id +:+ " in environment: " +:+ env_name e))).
  destruct (stmts w s0) as [[[]|err] s1] eqn:Hb.
  - apply (f_equal fst) in Hb. cbn [fst] in Hb.
    apply insert_body_ok_inv in Hb
      as (data & page_data & Hd & Hp & [rows Hm] & Hr & Hfit).
    rewrite (insert_arva_records_callback_run w table_name e s rows body data
               page_data) by done.
    eexists. split; [reflexivity|]. left. by exists data, page_data.
  - pose proof (commits_or_keeps_insert_body table_name e body w s0) as Hk.
    fold stmts in Hk. rewrite Hb in Hk. cbn in Hk.
    unfold committed in Hk. injection Hk as Hdisk Hsink.
    unfold insert_arva_records.
    erewrite bind_run by (by apply connect_run).
    rewrite (bind_run open_cursor _ _ _ tt _ eq_refl).
    match goal with
    | |- context [try_finally _ _ w ?s'] => change s' with s0
    end.
    destruct (decide (exn_cls err = SqliteError)) as [Hcls|Hcls].
    + erewrite try_finally_run; cycle 1.
      { erewrite (try_except_raise_caught _ _ _ w s0 err s1);
          [reflexivity|exact Hb|].
        rewrite Hcls. by left. }
      { apply close_run. }
      eexists. split; [cbn; by rewrite Hsink|]. right.
      split; [cbn; by rewrite Hdisk|]. by exists err.
    + erewrite try_finally_run; cycle 1.
      { apply (try_except_raise_missed _ _ _ _ _ err s1); [exact Hb|].
        by rewrite list_elem_of_singleton. }
      { apply close_run. }
      cbn. by rewrite Hdisk, Hsink.
Qed.

Lemma insert_arva_records_all_or_nothing_witness :
  match insert_arva_records "p" Dev sample_pull_body callback
          sample_pull_world (start sample_store) with
  | (Ok _, s') =>
      ∃ msg, sink s' = [] ++ [msg] ∧
        ((∃ data page_data,
            pb_data sample_pull_body = Present data ∧
            single data = Some page_data ∧
            msg = saved_message Dev (pg_id page_data) ∧
            disk s' =
              pulled_store Dev (clock sample_pull_world 0) page_data data
                sample_store) ∨
         (disk s' = sample_store ∧
          ∃ err, exn_cls err = SqliteError ∧
                 msg = "Database error: " +:+ str_exn err))
  | (Raise err, s') =>
      disk s' = sample_store ∧ sink s' = [] ∧ exn_cls err ≠ SqliteError
  end.
Proof.
  exact (insert_arva_records_all_or_nothing sample_pull_world "p" Dev
           sample_pull_body (start sample_store) eq_refl).
Defined.

Lemma insert_arva_records_no_table w tn e s body data page_data :
  can_connect w = true →
  mains (disk s) !! e = None →
  pb_data body = Present data → single data = Some page_data →
  insert_arva_records tn e body print w s =
  (Ok tt,
   {| disk := disk s; work := disk s; open_conns := open_conns s;
      open_cursors := open_cursors s; sink := sink s;
      console := console s ++
        ["Database error: no such table: " +:+ env_table_name tn e];
      ticks := S (ticks s); requests := requests s |}).
Proof.
  intros Hc Hm Hd Hp. unfold insert_arva_records.
  erewrite bind_run by (by apply connect_run).
  rewrite (bind_run open_cursor _ _ _ tt _ eq_refl). st.
  erewrite try_finally_run; cycle 1.
  - erewrite try_except_raise_caught; cycle 1.
    + erewrite bind_raise; [reflexivity|].
      unfold _insert_page_data. rewrite Hd, Hp.
      erewrite bind_raise; [reflexivity|].
      unfold sql_upsert_page. cbv [mbind M_bind sql_now get_work]. st.
      rewrite Hm. reflexivity.
    + by left.
    + reflexivity.
  - apply close_run.
  - reflexivity.
Qed.

(** X4.  The store opens but has no main table for the environment; the
    reply to the read query has status 200, no [errors] and a page.
    Then [get_arva_records]' step for the identifier tells the callback
    that the records have been inserted, although the committed store is
    as it was; the store error goes to [print] only, because
    [insert_arva_records] is called without the callback. *)
Theorem pull_reports_inserted_after_store_error (w : world)
    (table_name : string) (e : env) (s : state) (id : Z) (text : string)
    (body : pull_body) (data : pull_data) (page_data : page) :
  can_connect w = true →
  mains (disk s) !! e = None →
  remote_query w (requests s) id = Replied 200 text (Some body) →
  pb_errors body = None →
  pb_data body = Present data → single data = Some page_data →
  ∃ s', pull_one table_name e callback id w s = (Ok tt, s') ∧
        disk s' = disk s ∧
        sink s' = sink s ++ [inserted_message id] ∧
        console s' = console s ++
          ["Database error: no such table: " +:+ env_table_name table_name e].
Proof.
  intros Hc Hm Hq He Hd Hp.
  eexists. split.
  - unfold pull_one. apply try_except_ok.
    unfold next_request, ask. cbv [mbind M_bind]. st.
    rewrite Hq, He, Hd. rewrite bool_decide_eq_true_2 by done. cbn [andb].
    erewrite insert_arva_records_no_table; [|done..].
    reflexivity.
  - done.
Qed.

Lemma pull_reports_inserted_after_store_error_witness :
  ∃ s', sample_pull_into_empty = (Ok tt, s') ∧
        disk s' = empty_store ∧
        sink s' = [] ++ [inserted_message 42] ∧
        console s' = [] ++ ["Database error: no such table: p_dev"].
Proof.
  apply (pull_reports_inserted_after_store_error sample_pull_world "p" Dev
           (start empty_store) 42 "" sample_pull_body sample_pull_data
           sample_page); reflexivity.
Defined.

(** ** More on the copy operator *)

(** X5.  A copy that succeeded and copied at least one row cannot be
    repeated: the second [copy_table] with the same arguments reports the
    failed UNIQUE constraint on [article_id] and leaves the committed
    store as the first copy left it; it does not duplicate the rows. *)
Theorem copy_table_twice_fails (w : world) (table_name : string)
    (source_env target_env : env) (s : state)
    (source target : list env_record) :
  can_connect w = true →
  mains (disk s) !! source_env = Some source →
  mains (disk s) !! target_env = Some target →
  (∀ k, is_Some (relateds (disk s) !! (source_env, k))) →
  (∀ k, is_Some (relateds (disk s) !! (target_env, k))) →
  NoDup (article_id <$> source) →
  (∀ r, r ∈ source → article_id r ∉ article_id <$> target) →
  source ≠ [] →
  let first := copy_table table_name source_env target_env callback w s in
  let second :=
    copy_table table_name source_env target_env callback w (final first) in
  outcome first = Ok tt ∧ outcome second = Ok tt ∧
  disk (final second) = disk (final first) ∧
  sink (final second) =
    sink s ++
      ["Data copied successfully.";
       "An error occurred: UNIQUE constraint failed: " +:+
       env_table_name table_name target_env +:+ ".article_id"].
Proof.
  intros Hc Hs Ht Hrs Hrt Hnd Hfree Hne first second. subst first second.
  destruct source as [|r source]; [done|].
  assert (Hst : source_env ≠ target_env).
  { intros ->. rewrite Hs in Ht. injection Ht as <-.
    apply (Hfree r); [left|]. rewrite fmap_cons. left. }
  rewrite (copy_table_run w table_name source_env target_env s (r :: source)
             target) by done.
  cbn [final snd outcome fst].
  set (d1 := foldl _ _ _).
  assert (Hm1 : mains d1 =
                  <[target_env := insert_all target
                                    (copied_record <$> r :: source)]>
                    (mains (disk s))).
  { subst d1.
    by destruct (copied_related_all_fields source_env target_env
                   (set_mains
                      (<[target_env := insert_all target
                                         (copied_record <$> r :: source)]>
                         (mains (disk s))) (disk s)) related_tables)
      as (_ & _ & -> & _). }
  clearbody d1.
  erewrite (copy_table_key_taken w table_name source_env target_env _
              (r :: source) _ r); cbn [disk]; try done.
  - cbn. by rewrite <- app_assoc.
  - rewrite Hm1. by rewrite lookup_insert_ne.
  - rewrite Hm1. apply lookup_insert_eq.
  - left.
  - rewrite insert_all_perm, fmap_app, elem_of_app. right.
    rewrite fmap_cons. left.
Qed.

Lemma copy_table_twice_fails_witness :
  sink (final (copy_table "p" Dev Test callback sample_world
                 (final (copy_table "p" Dev Test callback sample_world
                           (start sample_store))))) =
  [] ++ ["Data copied successfully.";
         "An error occurred: UNIQUE constraint failed: " +:+
         env_table_name "p" Test +:+ ".article_id"].
Proof.
  refine (proj2 (proj2 (proj2 (copy_table_twice_fails sample_world "p" Dev
                   Test (start sample_store) sample_rows [] _ _ _ _ _ _ _ _)))).
  - reflexivity.
  - vm_compute. reflexivity.
  - vm_compute. reflexivity.
  - intros []; vm_compute; eauto.
  - intros []; vm_compute; eauto.
  - apply (bool_decide_unpack (NoDup (article_id <$> sample_rows))).
    vm_compute. exact I.
  - intros r _ Hin. cbn in Hin. by apply elem_of_nil in Hin.
  - discriminate.
Defined.

Lemma copied_row_contact_id r :
  column PageContact "contactId" (copied_row PageContact r) = VNull.
Proof. reflexivity. Qed.

(** X6.  A copy that succeeds appends to the target page-contact table
    one row per source row, and every appended row has a NULL
    [contactId]: the statement's column list is [id, pageId] and the
    table's columns from the third on, and [contactId] is the second
    column of the page-contact table. *)
Theorem copy_table_drops_contact_id (w : world) (table_name : string)
    (source_env target_env : env) (s : state)
    (source target : list env_record) (contacts old : list row) :
  can_connect w = true →
  mains (disk s) !! source_env = Some source →
  mains (disk s) !! target_env = Some target →
  (∀ k, is_Some (relateds (disk s) !! (source_env, k))) →
  (∀ k, is_Some (relateds (disk s) !! (target_env, k))) →
  NoDup (article_id <$> source) →
  (∀ r, r ∈ source → article_id r ∉ article_id <$> target) →
  relateds (disk s) !! (source_env, PageContact) = Some contacts →
  relateds (disk s) !! (target_env, PageContact) = Some old →
  ∃ new,
    relateds (disk (final (copy_table table_name source_env target_env
                             callback w s))) !! (target_env, PageContact)
      = Some (old ++ new) ∧
    length new = length contacts ∧
    ∀ r, r ∈ new → column PageContact "contactId" r = VNull.
Proof.
  intros Hc Hs Ht Hrs Hrt Hnd Hfree Hcs Hold.
  rewrite (copy_table_run w table_name source_env target_env s source target)
    by done.
  cbn [final snd disk].
  exists (copied_row PageContact <$> contacts).
  split; [by apply copied_related_all_lookup|].
  split; [by rewrite length_fmap|].
  intros r (r0 & -> & _)%list_elem_of_fmap. apply copied_row_contact_id.
Qed.

Lemma copy_table_drops_contact_id_witness :
  ∃ new,
    relateds (disk (final (copy_table "p" Dev Test callback sample_world
                             (start sample_related_store))))
      !! (Test, PageContact) = Some ([] ++ new) ∧
    length new = length [sample_contact_row] ∧
    ∀ r, r ∈ new → column PageContact "contactId" r = VNull.
Proof.
  apply (copy_table_drops_contact_id sample_world "p" Dev Test
           (start sample_related_store) sample_rows []).
  - reflexivity.
  - vm_compute. reflexivity.
  - vm_compute. reflexivity.
  - intros []; vm_compute; eauto.
  - intros []; vm_compute; eauto.
  - apply (bool_decide_unpack (NoDup (article_id <$> sample_rows))).
    vm_compute. exact I.
  - intros r _ Hin. cbn in Hin. by apply elem_of_nil in Hin.
  - vm_compute. reflexivity.
  - vm_compute. reflexivity.
Defined.

(** ** The push scan without a cutoff *)

(** X7.  When the run log holds no timestamp that parses (it is empty,
    or its most recent timestamp is NULL or not in the expected format),
    the parameter of the scan is NULL and [fetch_all_records] returns the
    rows whose [modified_timestamp] is NULL and no other row, however
    recent its timestamp. *)
Theorem scan_without_cutoff (w : world) (table_name : string) (e : env)
    (s : state) (runs : list run_row) (rows : list env_record) :
  last_run (work s) = Some runs →
  mains (work s) !! e = Some rows →
  last_run_timestamp runs ≫= strptime w = None →
  outcome (fetch_all_records table_name e w s) =
  Ok (select_push_columns <$> filter (λ r, modified_timestamp r = None) rows).
Proof.
  intros Hl Hm Hnone.
  destruct (fetch_all_records_run w table_name e s runs rows Hl Hm)
    as [msgs ->].
  cbn. rewrite Hnone. cbn. do 2 f_equal.
  apply list_filter_iff. intros r. unfold is_candidate.
  destruct (modified_timestamp r); naive_solver.
Qed.

Lemma scan_without_cutoff_witness :
  outcome (fetch_all_records "p" Dev sample_world
             (start sample_store_no_runs)) =
  Ok (select_push_columns <$>
      filter (λ r, modified_timestamp r = None) sample_rows).
Proof.
  apply (scan_without_cutoff sample_world "p" Dev
           (start sample_store_no_runs) [] sample_rows); reflexivity.
Defined.

(** ** Edge cases of the push of one row *)

(** X8.  A row whose [tags] is NULL is never sent: [process_record] makes
    no request, leaves the store alone and tells the callback that
    [None] has no [split]. *)
Theorem push_null_tags (w : world) (table_name : string) (e : env)
    (s : state) (row : push_row) :
  row_tags row = None →
  process_record table_name e row callback w s =
  (Ok tt,
   with_sink
     (sink s ++ ["Error while processing record: " +:+
                 "'NoneType' object has no attribute 'split'"]) s).
Proof.
  intros Ht. unfold process_record, try_except_all.
  erewrite bind_raise; cycle 1.
  { unfold prepare_record_variables. rewrite Ht. reflexivity. }
  reflexivity.
Qed.

Lemma push_null_tags_witness :
  process_record "p" Dev (select_push_columns sample_row_null_tags) callback
    sample_push_world (start sample_store) =
  (Ok tt,
   with_sink
     ([] ++ ["Error while processing record: " +:+
             "'NoneType' object has no attribute 'split'"])
     (start sample_store)).
Proof.
  apply (push_null_tags sample_push_world "p" Dev (start sample_store)
           (select_push_columns sample_row_null_tags)).
  reflexivity.
Defined.

(** X9.  A row with a NULL or empty [path] or [locale] whose mutation
    succeeds remotely is not marked locally: [process_record] has made
    the request, tells the callback the remote result and then
    ["Invalid input: Missing required variables: 'path' or 'locale'"],
    and leaves the store as it was. *)
Theorem push_blank_path_not_marked (w : world) (table_name : string)
    (e : env) (s : state) (row : push_row) (tgs : string) (code : Z)
    (text : string) (N : Z) (msg : option string) :
  row_tags row = Some tgs →
  row_exp_article_id row = None →
  is_blank (row_path row) || is_blank (row_locale row) = true →
  remote_mutation w (requests s)
    (Create {| var_content := row_content row; var_locale := row_locale row;
               var_path := row_path row; var_tags := split_semicolon tgs;
               var_title := row_title row; var_id := None |})
    = success_reply code text
        {| md_create := Some {| pr_page_id := N; pr_message := msg |};
           md_update := None |} →
  is_http_error code = false →
  process_record table_name e row callback w s =
  (Ok tt,
   with_sink
     (sink s ++
      [record_message N msg;
       "Error while processing record: Invalid input: " +:+
       "Missing required variables: 'path' or 'locale'"])
     (with_requests (S (requests s)) s)).
Proof.
  intros Ht Hexp Hblank Hreply Hcode.
  unfold process_record, try_except_all.
  unfold prepare_record_variables. rewrite Ht, bind_ret.
  cbn beta iota zeta. rewrite Hexp. cbn [is_unsynced].
  unfold success_reply in Hreply.
  erewrite bind_run by (eapply execute_graphql_mutation_run; eassumption).
  cbn [mb_errors mb_data]. rewrite bind_ret. cbn [md_create md_update].
  repeat first [rewrite bind_assoc | rewrite bind_callback | rewrite bind_ret].
  erewrite bind_raise; cycle 1.
  { unfold update_record_status. cbn [var_path var_locale].
    rewrite Hblank.
    erewrite try_except_raise_caught; cycle 1.
    { reflexivity. }
    { cbn [exn_cls]. set_solver. }
    cbn [exn_cls]. rewrite bool_decide_eq_false_2 by done. reflexivity. }
  unfold callback, record_message. st. cbn [exn_msg str_exn].
  by rewrite <- app_assoc.
Qed.

Lemma push_blank_path_not_marked_witness :
  process_record "p" Dev (select_push_columns sample_row_blank_path) callback
    sample_push_world (start sample_store) =
  (Ok tt,
   with_sink
     ([] ++
      [record_message 99 (Some "Page created");
       "Error while processing record: Invalid input: " +:+
       "Missing required variables: 'path' or 'locale'"])
     (with_requests 1 (start sample_store))).
Proof.
  apply (push_blank_path_not_marked sample_push_world "p" Dev
           (start sample_store) (select_push_columns sample_row_blank_path)
           "t" 200 "" 99 (Some "Page created")); reflexivity.
Defined.

(** X10.  When the reply to the mutation carries a non-empty [errors]
    array, [process_record] tells the callback the message of the first
    error, naming the row by its [article_id] (never pushed) or its
    [exp_article_id], and leaves the store as it was; with an empty
    [errors] array it reports the [IndexError] instead. *)
Theorem push_rejected (w : world) (table_name : string) (e : env)
    (s : state) (row : push_row) (tgs : string) (code : Z) (text : string)
    (errors : list gql_error) (data : field (option mutation_data)) :
  row_tags row = Some tgs →
  (let vars :=
     {| var_content := row_content row; var_locale := row_locale row;
        var_path := row_path row; var_tags := split_semicolon tgs;
        var_title := row_title row;
        var_id := if is_unsynced (row_exp_article_id row) then None
                  else row_exp_article_id row |} in
   remote_mutation w (requests s)
     (if is_unsynced (row_exp_article_id row) then Create vars
      else Update vars)
   = Replied code text (Some {| mb_errors := Some errors; mb_data := data |})) →
  is_http_error code = false →
  process_record table_name e row callback w s =
  (Ok tt,
   with_sink
     (sink s ++
      [match errors with
       | [] => "Error while processing record: list index out of range"
       | error :: _ =>
           "Failed to process record " +:+
           (if is_unsynced (row_exp_article_id row)
            then "article id: " +:+ str_int (row_article_id row)
            else "exp_article_id id: " +:+
                 str_opt_int (row_exp_article_id row)) +:+
           ": " +:+ str_opt error
       end])
     (with_requests (S (requests s)) s)).
Proof.
  intros Ht Hreply Hcode.
  unfold process_record, try_except_all.
  unfold prepare_record_variables. rewrite Ht, bind_ret.
  cbn beta iota zeta in *.
  destruct (is_unsynced (row_exp_article_id row)) eqn:Eu.
  all: erewrite bind_run by (eapply execute_graphql_mutation_run; eassumption).
  all: cbn [mb_errors].
  all: destruct errors as [|error errors]; reflexivity.
Qed.

Lemma push_rejected_witness :
  process_record "p" Dev (select_push_columns sample_row_a) callback
    sample_rejecting_world (start sample_store) =
  (Ok tt,
   with_sink
     ([] ++ ["Failed to process record " +:+
             ("article id: " +:+ str_int 1) +:+ ": " +:+ "Forbidden"])
     (with_requests 1 (start sample_store))).
Proof.
  apply (push_rejected sample_rejecting_world "p" Dev (start sample_store)
           (select_push_columns sample_row_a) "x;y" 200 ""
           [Some "Forbidden"; Some "Other"] Null); reflexivity.
Defined.

(** ** The push run *)

(** X11.  When the store cannot be opened, [process_records] tells the
    callback so and then raises [UnboundLocalError]: its [finally] block
    closes a cursor that was never bound.  Nothing else changes. *)
Theorem process_records_store_unopenable (w : world) (table_name : string)
    (e : env) (bearer_token graphql_url : string) (s : state) :
  can_connect w = false →
  process_records table_name e bearer_token graphql_url callback w s =
  (Raise (mk_exn UnboundLocalError
            "cannot access local variable 'cursor' where it is not associated with a value"),
   with_sink
     (sink s ++ ["Error processing records: unable to open database file"])
     s).
Proof.
  intros Hc. unfold process_records.
  erewrite bind_run by (by apply open_store_fail). reflexivity.
Qed.

Lemma process_records_store_unopenable_witness :
  outcome (process_records "p" Dev "token" "https://arva/graphql" callback
             sample_closed_world (start sample_store)) =
  Raise (mk_exn UnboundLocalError
           "cannot access local variable 'cursor' where it is not associated with a value").
Proof.
  exact (f_equal fst (process_records_store_unopenable sample_closed_world
                        "p" Dev "token" "https://arva/graphql"
                        (start sample_store) eq_refl)).
Defined.

(** ** What a push run keeps of the store *)

Section PushPreserves.
Context (w : world) (P : store → Prop) (e : env).
Hypothesis update_ok :
  ∀ tn N pth loc, preserves w P (sql_update_status tn e N pth loc).

Lemma update_record_status_preserves tn N vars :
  preserves w P (update_record_status tn e N vars).
Proof.
  unfold update_record_status. apply preserves_try_except.
  - destruct (_ || _).
    + apply preserves_keeps. keeps.
    + apply update_ok.
  - intros err. apply preserves_keeps. keeps.
Qed.

Lemma process_record_preserves tn row :
  preserves w P (process_record tn e row callback).
Proof.
  unfold process_record. apply preserves_try_except_all;
    [|intros; apply preserves_keeps; keeps].
  apply preserves_bind;
    [apply preserves_keeps, keeps_store_prepare_record_variables|].
  intros [[aid exp] vars].
  apply preserves_bind.
  { destruct (is_unsynced exp);
      apply preserves_keeps, keeps_store_execute_graphql_mutation. }
  intros body. destruct (mb_errors body) as [errors|].
  { apply preserves_keeps. keeps. }
  apply preserves_bind; [apply preserves_keeps; keeps|intros result].
  apply preserves_bind; [apply preserves_keeps; keeps|intros pid1].
  apply preserves_bind; [apply preserves_keeps; keeps|intros pid2].
  destruct pid2 as [page_id|]; [|apply preserves_keeps; keeps].
  apply preserves_bind; [apply update_record_status_preserves|intros _].
  apply preserves_bind;
    [apply preserves_keeps, keeps_store_fetch_related_data|intros rd].
  apply preserves_keeps, keeps_store_handle_follow_up_mutation.
Qed.

Lemma process_records_preserves tn tok url s :
  P (disk s) →
  P (disk (final (process_records tn e tok url callback w s))).
Proof.
  intros Hd. unfold process_records.
  destruct (can_connect w) eqn:Hc.
  - erewrite bind_run by (by apply open_store_run).
    set (s1 := with_handles _ _ _).
    assert (H1 : P (disk s1)) by done.
    assert (H2 : P (work s1)) by done.
    clearbody s1.
    match goal with
    | |- P (disk (final (?m w s1))) => assert (Hp : preserves w P m)
    end.
    { apply preserves_try_finally; [|apply preserves_close].
      apply preserves_try_except_all; [|intros; apply preserves_keeps; keeps].
      apply preserves_bind;
        [apply preserves_keeps, keeps_store_get_api_config|intros _].
      apply preserves_bind;
        [apply preserves_keeps, keeps_store_fetch_all_records|intros rows].
      destruct rows as [|row rows]; [apply preserves_keeps; keeps|].
      apply preserves_bind.
      { apply preserves_for_each. intros x.
        apply preserves_try_except_all;
          [apply process_record_preserves
          |intros; apply preserves_keeps; keeps]. }
      intros _. apply preserves_bind; [apply preserves_commit|intros _].
      apply preserves_keeps. keeps. }
    apply (Hp s1 H1 H2).
  - erewrite bind_run by (by apply open_store_fail). done.
Qed.
End PushPreserves.

Lemma same_content_refl r : same_content r r.
Proof. by repeat split. Qed.

Lemma push_frame_refl e d : push_frame e d d.
Proof.
  repeat split; try done.
  destruct (mains d !! e) as [rows|]; constructor.
  apply Forall2_same_length_lookup_2; [done|].
  intros i x y Hx Hy. simplify_eq. apply same_content_refl.
Qed.

Lemma push_frame_sql_update_status w e d0 tn N pth loc :
  preserves w (push_frame e d0) (sql_update_status tn e N pth loc).
Proof.
  intros s Hd Hw. unfold sql_update_status, bind_parameters.
  cbv [mbind M_bind mret M_ret sql_now get_work put_work raise]. st.
  destruct (mains (work s) !! e) as [rows|] eqn:Em; cbn; [|done].
  destruct (values_fit _); cbn; [|done].
  split; [done|].
  destruct Hw as (Hl & Hi & Ht & Hr & Ho & Hm).
  repeat split; try done; cbn.
  - intros e' Hne. rewrite lookup_insert_ne by done. by apply Ho.
  - rewrite lookup_insert_eq. rewrite Em in Hm.
    inversion Hm as [rows0 ? Hf|]; subst. constructor.
    apply Forall2_fmap_r. eapply Forall2_impl; [exact Hf|].
    intros r0 r Hs. unfold compose.
    match goal with |- context [if ?b then _ else _] => destruct b end;
      [|done].
    destruct (fire_trigger_fields (work s) e (clock w (ticks s))
                {| exp_article_id := Some N; article_id := article_id r;
                   locale := locale r; title := title r; tags := tags r;
                   path := path r; content := content r;
                   status := Some "succeeded";
                   modified_timestamp := modified_timestamp r |})
      as (_ & H1 & H2 & H3 & H4 & H5 & H6 & _).
    destruct Hs as (? & ? & ? & ? & ? & ?).
    unfold same_content. rewrite H1, H2, H3, H4, H5, H6. done.
Qed.

(** X12.  A push run changes nothing but [exp_article_id], [status] and
    [modified_timestamp] of rows of the environment's main table: it
    adds and deletes no row, keeps every row's key, locale, title, tags,
    path and content, and leaves the run log, the staging table, the
    related tables and the other environments' tables as they were,
    whatever the remote API answers. *)
Theorem push_changes_only_sync_state (w : world) (table_name : string)
    (e : env) (bearer_token graphql_url : string) (s : state) :
  push_frame e (disk s)
    (disk (final (process_records table_name e bearer_token graphql_url
                    callback w s))).
Proof.
  apply (process_records_preserves w (push_frame e (disk s)) e).
  - intros. apply push_frame_sql_update_status.
  - apply push_frame_refl.
Qed.

(** ** Properties of the store that copy, pull and creation keep *)

(** Steps through the structure of a computation down to its SQL
    statements, which are left as goals unless a hypothesis covers
    them. *)
Ltac pres :=
  repeat first
    [ match goal with
      | H : context [preserves] |- preserves _ _ _ => solve [apply H]
      end
    | apply preserves_keeps; solve [keeps]
    | apply preserves_commit
    | apply preserves_close
    | apply preserves_open_cursor
    | apply preserves_bind; [|intros ?]
    | apply preserves_try_except; [|intros ?]
    | apply preserves_try_except_all; [|intros ?]
    | apply preserves_try_finally
    | apply preserves_for_each; intros ?
    | match goal with
      | |- preserves _ _ (match ?x with _ => _ end) => destruct x
      | |- preserves _ _ (if ?x then _ else _) => destruct x
      end ].

Section PreservesDisk.
Context (w : world) (P : store → Prop).

Lemma preserves_disk_keeps {A} (m : M A) :
  keeps_store m → preserves_disk w P m.
Proof. intros Hk s Hd. by destruct (Hk w s) as [_ ->]. Qed.

Lemma preserves_disk_bind {A B} (m : M A) (f : A → M B) :
  preserves_disk w P m → (∀ a, preserves_disk w P (f a)) →
  preserves_disk w P (m ≫= f).
Proof.
  intros Hm Hf s Hd. unfold mbind, M_bind.
  specialize (Hm s Hd). destruct (m w s) as [[a|err] s1]; cbn in *.
  - by apply Hf.
  - done.
Qed.

Lemma preserves_disk_try_except {A} (body : M A) cl h :
  preserves_disk w P body → (∀ err, preserves_disk w P (h err)) →
  preserves_disk w P (try_except body cl h).
Proof.
  intros Hm Hh s Hd. unfold try_except.
  specialize (Hm s Hd).
  destruct (body w s) as [[a|err] s1]; cbn in *; [done|].
  case_bool_decide; cbn; [|done]. by apply Hh.
Qed.

Lemma preserves_disk_for_each {A} (l : list A) body :
  (∀ x, preserves_disk w P (body x)) → preserves_disk w P (for_each l body).
Proof.
  intros Hb. induction l as [|x l IH]; cbn.
  - apply preserves_disk_keeps, keeps_store_ret.
  - apply preserves_disk_bind; [apply Hb | intros _; apply IH].
Qed.

Lemma preserves_disk_connected {A} (m : M A) :
  preserves w P m → preserves_disk w P (connect;; m).
Proof.
  intros Hm s Hd. unfold mbind, M_bind, connect.
  destruct (can_connect w); [|done]. by apply Hm.
Qed.

Lemma preserves_disk_opened {A} (m : M A) :
  preserves w P m → preserves_disk w P (initialize_db_connection;; m).
Proof.
  intros Hm s Hd. unfold initialize_db_connection.
  unfold mbind, M_bind, connect, open_cursor.
  destruct (can_connect w); [|done]. by apply Hm.
Qed.
End PreservesDisk.

Section CopyPreserves.
Context (w : world) (P : store → Prop) (source_env target_env : env).
Hypothesis main_ok :
  ∀ tn, preserves w P (_copy_main_table tn source_env target_env).
Hypothesis related_ok :
  ∀ tn k, preserves w P (_copy_related_table tn source_env target_env k).

Lemma copy_table_preserves tn s :
  P (disk s) →
  P (disk (final (copy_table tn source_env target_env callback w s))).
Proof.
  apply preserves_disk_opened.
  unfold _copy_related_tables. pres.
Qed.
End CopyPreserves.

Section PullPreserves.
Context (w : world) (P : store → Prop) (e : env).
Hypothesis upsert_ok :
  ∀ tn id loc ttl tgs pth cnt,
    preserves w P (sql_upsert_page tn e id loc ttl tgs pth cnt).
Hypothesis delete_ok :
  ∀ tn k p, preserves w P (sql_delete_related tn e k p).
Hypothesis insert_ok :
  ∀ tn k cols vals, preserves w P (sql_insert_related tn e k cols vals).

Lemma insert_arva_records_preserves tn body (cb : string → M unit) :
  (∀ msg, keeps_store (cb msg)) →
  preserves_disk w P (insert_arva_records tn e body cb).
Proof.
  intros Hcb. apply preserves_disk_connected.
  unfold _insert_page_data, _delete_records, _insert_arva_institution,
    _insert_arva_legal_act, _insert_arva_page_contact,
    _insert_arva_related_pages, _insert_arva_service, response_data_of.
  pres; apply preserves_keeps, Hcb.
Qed.

Lemma pull_one_preserves tn id : preserves_disk w P (pull_one tn e callback id).
Proof.
  assert (Hk : ∀ A (m : M A), keeps_store m → preserves_disk w P m)
    by (intros; by apply preserves_disk_keeps).
  unfold pull_one. apply preserves_disk_try_except;
    [|intros; apply Hk; keeps].
  apply preserves_disk_bind; [apply Hk; keeps|intros n].
  apply preserves_disk_bind; [apply Hk; keeps|intros w'].
  destruct (remote_query w' n id) as [msg|code text [body|]];
    [apply Hk; keeps| |apply Hk; keeps].
  destruct (pb_errors body) as [errors|]; [apply Hk; keeps|].
  match goal with |- context [if ?b then _ else _] => destruct b end;
    [|apply Hk; keeps].
  apply preserves_disk_bind; [|intros; apply Hk; keeps].
  apply insert_arva_records_preserves. intros. keeps.
Qed.

Lemma get_arva_records_preserves tn ids s :
  P (disk s) →
  P (disk (final (get_arva_records tn e ids callback w s))).
Proof.
  unfold get_arva_records. destruct (mapM id ids) as [l|]; [|done].
  apply preserves_disk_for_each. intros x. apply pull_one_preserves.
Qed.
End PullPreserves.

Section CreatePreserves.
Context (w : world) (P : store → Prop).
Hypothesis last_run_ok : preserves w P sql_create_last_run.
Hypothesis initial_run_ok : preserves w P sql_insert_initial_run.
Hypothesis initial_ok : ∀ tn, preserves w P (create_initial_table tn).
Hypothesis main_ok : ∀ tn e, preserves w P (create_main_env_table tn e).
Hypothesis trigger_ok : ∀ tn e, preserves w P (create_update_trigger tn e).
Hypothesis related_ok : ∀ tn e k, preserves w P (create_related_table tn e k).

Lemma create_db_preserves db tn s :
  P (disk s) → P (disk (final (create_db db tn callback w s))).
Proof.
  apply preserves_disk_opened.
  unfold create_base_tables, create_env_tables, create_related_tables.
  pres.
Qed.
End CreatePreserves.

(** ** What a copy keeps of the store *)

Lemma option_Forall2_prefix_refl {A} (o : option (list A)) :
  option_Forall2 prefix o o.
Proof. destruct o; by constructor. Qed.

Lemma option_Forall2_sublist_refl {A} (o : option (list A)) :
  option_Forall2 sublist o o.
Proof. destruct o; by constructor. Qed.

Lemma copy_frame_refl tgt d : copy_frame tgt d d.
Proof.
  repeat split; try done; intros;
    first [apply option_Forall2_sublist_refl
          |apply option_Forall2_prefix_refl].
Qed.

Lemma insert_records_sublist table new table' :
  insert_records table new = Some table' → table `sublist_of` table'.
Proof.
  revert table. induction new as [|r new IH]; intros table; cbn.
  - by intros [= ->].
  - case_bool_decide; [done|]. intros Hi. apply IH in Hi.
    etransitivity; [|exact Hi]. apply insert_by_key_sublist.
Qed.

Lemma insert_records_NoDup table new table' :
  NoDup (article_id <$> table) →
  insert_records table new = Some table' →
  NoDup (article_id <$> table').
Proof.
  revert table. induction new as [|r new IH]; intros table Hnd; cbn.
  - by intros [= <-].
  - case_bool_decide as Hin; [done|]. apply IH.
    rewrite insert_by_key_keys. by apply NoDup_cons.
Qed.

Lemma copy_frame__copy_main_table w tgt d0 tn src :
  preserves w (copy_frame tgt d0) (_copy_main_table tn src tgt).
Proof.
  intros s Hd Hw. unfold _copy_main_table.
  cbv [mbind M_bind mret M_ret get_work put_work raise]. st.
  destruct (mains (work s) !! tgt) as [target|] eqn:Et; [|done].
  destruct (mains (work s) !! src) as [source|]; [|done].
  destruct (insert_records target (copied_record <$> source))
    as [target'|] eqn:Ei; [|done].
  cbn. split; [done|].
  destruct Hw as (Hl & Hi & Htr & Ho & Hor & Hm & Hr).
  repeat split; try done; cbn.
  - intros e' Hne. rewrite lookup_insert_ne by done. by apply Ho.
  - rewrite lookup_insert_eq. rewrite Et in Hm.
    inversion Hm as [rows0 ? Hp|]; subst. constructor.
    etransitivity; [exact Hp|]. by eapply insert_records_sublist.
Qed.

Lemma copy_frame__copy_related_table w tgt d0 tn src k :
  preserves w (copy_frame tgt d0) (_copy_related_table tn src tgt k).
Proof.
  intros s Hd Hw. unfold _copy_related_table.
  cbv [mbind M_bind mret M_ret get_work put_work raise]. st.
  destruct (relateds (work s) !! (src, k)) as [source|]; [|done].
  destruct (relateds (work s) !! (tgt, k)) as [target|] eqn:Et; [|done].
  cbn. split; [done|].
  destruct Hw as (Hl & Hi & Htr & Ho & Hor & Hm & Hr).
  repeat split; try done; cbn.
  - intros e' k' Hne. rewrite lookup_insert_ne by congruence. by apply Hor.
  - intros k'. destruct (decide (k' = k)) as [->|Hne].
    + rewrite lookup_insert_eq. specialize (Hr k). rewrite Et in Hr.
      inversion Hr as [rows0 ? Hp|]; subst. constructor.
      etransitivity; [exact Hp|]. by apply prefix_app_r.
    + rewrite lookup_insert_ne by congruence. apply Hr.
Qed.

(** X13.  A copy changes nothing but the tables of the target
    environment, and those only by adding rows: the rows that the
    target's main table held are all still there, unchanged and in
    their order, among the rows it holds afterwards, and each related
    table of the target, which has no key, holds its rows first.  The
    run log, the staging table, the triggers and the tables of every
    other environment, the source included, stay as they were, whether
    the copy succeeds or fails. *)
Theorem copy_table_only_adds_to_target (w : world) (table_name : string)
    (source_env target_env : env) (s : state) :
  copy_frame target_env (disk s)
    (disk (final (copy_table table_name source_env target_env callback w s))).
Proof.
  apply (copy_table_preserves w (copy_frame target_env (disk s))
           source_env target_env).
  - intros. apply copy_frame__copy_main_table.
  - intros. apply copy_frame__copy_related_table.
  - apply copy_frame_refl.
Qed.

(** ** What a pull keeps of the store *)

Lemma same_push_state_refl r : same_push_state r r.
Proof. by repeat split. Qed.

Lemma Forall2_same_push_state_refl rows :
  Forall2 same_push_state rows rows.
Proof.
  apply Forall2_same_length_lookup_2; [done|].
  intros i x y Hx Hy. simplify_eq. apply same_push_state_refl.
Qed.

Lemma kept_rows_refl rows : kept_rows rows rows.
Proof. exists rows. split; [done|]. apply Forall2_same_push_state_refl. Qed.

Lemma sublist_Forall2 {A B} (R : A → B → Prop) l1 l2 k2 :
  l1 `sublist_of` l2 → Forall2 R l2 k2 →
  ∃ k1, k1 `sublist_of` k2 ∧ Forall2 R l1 k1.
Proof.
  intros Hsub. revert k2.
  induction Hsub as [|x l1 l2 Hsub IH|x l1 l2 Hsub IH]; intros k2 HF.
  - exists []. split; [apply sublist_nil_l|constructor].
  - inversion HF as [|? y ? k2' Hxy HF']; subst.
    destruct (IH _ HF') as (k1 & Hk & HF1).
    exists (y :: k1). split; [by apply sublist_skip|by constructor].
  - inversion HF as [|? y ? k2' Hxy HF']; subst.
    destruct (IH _ HF') as (k1 & Hk & HF1).
    exists k1. split; [by apply sublist_cons|done].
Qed.

Lemma same_push_state_trans r1 r2 r3 :
  same_push_state r1 r2 → same_push_state r2 r3 → same_push_state r1 r3.
Proof. intros (?&?&?) (?&?&?). repeat split; congruence. Qed.

Lemma Forall2_same_push_state_trans l1 l2 l3 :
  Forall2 same_push_state l1 l2 → Forall2 same_push_state l2 l3 →
  Forall2 same_push_state l1 l3.
Proof.
  intros H12. revert l3.
  induction H12 as [|r1 r2 l1 l2 Hr H12 IH]; intros l3 H23.
  - inversion H23. constructor.
  - inversion H23 as [|? r3 ? l3' Hr' H23']; subst. constructor.
    + by eapply same_push_state_trans.
    + by apply IH.
Qed.

Lemma kept_rows_trans rows1 rows2 rows3 :
  kept_rows rows1 rows2 → kept_rows rows2 rows3 → kept_rows rows1 rows3.
Proof.
  intros (k1 & Hs1 & H12) (k2 & Hs2 & H23).
  destruct (sublist_Forall2 same_push_state k1 rows2 k2 Hs1 H23)
    as (k1' & Hs1' & H11').
  exists k1'. split; [by etransitivity|].
  by eapply Forall2_same_push_state_trans.
Qed.

Lemma kept_rows_upsert_rows d e now id loc ttl tgs pth cnt rows :
  kept_rows rows (upsert_rows d e now id loc ttl tgs pth cnt rows).
Proof.
  unfold upsert_rows. case_bool_decide.
  - eexists. split; [reflexivity|].
    apply Forall2_fmap_r.
    eapply Forall2_impl; [apply Forall2_same_push_state_refl|].
    intros r0 r Hs. unfold compose. case_bool_decide; [|done].
    destruct Hs as (H1 & H2 & H3).
    unfold fire_trigger. by case_bool_decide.
  - exists rows. split; [apply insert_by_key_sublist|].
    apply Forall2_same_push_state_refl.
Qed.

Lemma pull_frame_refl e d : pull_frame e d d.
Proof.
  repeat split; try done.
  destruct (mains d !! e); constructor. apply kept_rows_refl.
Qed.

Lemma pull_frame_sql_upsert_page w e d0 tn id loc ttl tgs pth cnt :
  preserves w (pull_frame e d0) (sql_upsert_page tn e id loc ttl tgs pth cnt).
Proof.
  intros s Hd Hw. unfold sql_upsert_page, bind_parameters.
  cbv [mbind M_bind mret M_ret sql_now get_work put_work raise]. st.
  destruct (mains (work s) !! e) as [rows|] eqn:Em; [|done].
  destruct (values_fit _); [|done].
  cbn. split; [done|].
  destruct Hw as (Hl & Hi & Htr & Ho & Hor & Hm & Hr).
  split; [done|]. split; [done|]. split; [done|]. cbn.
  split; [|split; [done|split; [|done]]].
  - intros e' Hne. rewrite lookup_insert_ne by done. by apply Ho.
  - rewrite lookup_insert_eq. rewrite Em in Hm.
    inversion Hm as [rows0 ? Hp|]; subst. constructor.
    eapply kept_rows_trans; [exact Hp|]. apply kept_rows_upsert_rows.
Qed.

Lemma pull_frame_set_related e d0 (s : state) k rows' :
  pull_frame e d0 (work s) →
  is_Some (relateds (work s) !! (e, k)) →
  pull_frame e d0
    (set_relateds (<[(e, k) := rows']> (relateds (work s))) (work s)).
Proof.
  intros (Hl & Hi & Htr & Ho & Hor & Hm & Hr) Hsome.
  split; [done|]. split; [done|]. split; [done|]. cbn.
  split; [done|]. split; [|split; [done|]].
  - intros e' k' Hne. rewrite lookup_insert_ne by congruence. by apply Hor.
  - intros k'. destruct (decide (k' = k)) as [->|Hne].
    + rewrite lookup_insert_eq. rewrite <- Hr. split; [done|by eauto].
    + rewrite lookup_insert_ne by congruence. apply Hr.
Qed.

Lemma pull_frame_sql_delete_related w e d0 tn k p :
  preserves w (pull_frame e d0) (sql_delete_related tn e k p).
Proof.
  intros s Hd Hw. unfold sql_delete_related, bind_parameters.
  cbv [mbind M_bind mret M_ret get_work put_work raise]. st.
  destruct (relateds (work s) !! (e, k)) as [rows|] eqn:Er; [|done].
  destruct (values_fit _); [|done].
  cbn. split; [done|]. apply pull_frame_set_related; [done|by eauto].
Qed.

Lemma pull_frame_sql_insert_related w e d0 tn k cols vals :
  preserves w (pull_frame e d0) (sql_insert_related tn e k cols vals).
Proof.
  intros s Hd Hw. unfold sql_insert_related, bind_parameters.
  cbv [mbind M_bind mret M_ret get_work put_work raise]. st.
  destruct (relateds (work s) !! (e, k)) as [rows|] eqn:Er; [|done].
  destruct (values_fit _); [|done].
  cbn. split; [done|]. apply pull_frame_set_related; [done|by eauto].
Qed.

(** X14.  A pull into an environment deletes no row of its main table
    and changes no row's key, [exp_article_id] or [status]: the rows
    that the main table held are all still there, in their order and
    each with its key and push state, among the rows it holds
    afterwards.  The pull creates and drops no table, and leaves the run
    log, the staging table, the triggers and the tables of the other
    environments as they were, whatever the remote API answers. *)
Theorem pull_keeps_rows_and_push_state (w : world) (table_name : string)
    (e : env) (article_ids : list (option Z)) (s : state) :
  pull_frame e (disk s)
    (disk (final (get_arva_records table_name e article_ids callback w s))).
Proof.
  apply (get_arva_records_preserves w (pull_frame e (disk s)) e).
  - intros. apply pull_frame_sql_upsert_page.
  - intros. apply pull_frame_sql_delete_related.
  - intros. apply pull_frame_sql_insert_related.
  - apply pull_frame_refl.
Qed.

(** ** The primary key of the main tables *)

Lemma keys_unique_set_main d e rows :
  keys_unique d → NoDup (article_id <$> rows) →
  keys_unique (set_mains (<[e := rows]> (mains d)) d).
Proof.
  intros Hd Hnd e' rows'. cbn.
  destruct (decide (e' = e)) as [->|Hne].
  - rewrite lookup_insert_eq. by intros [= <-].
  - rewrite lookup_insert_ne by done. apply Hd.
Qed.

(** A statement that leaves the main tables alone. *)
Ltac mains_kept :=
  intros s Hd Hw; unfold bind_parameters, check_name;
  cbv [mbind M_bind mret M_ret sql_now get_work put_work raise ask commit];
  st; repeat case_match; simplify_eq; cbn; (split; [done|]); done.

Lemma keys_unique_sql_update_status w tn e N pth loc :
  preserves w keys_unique (sql_update_status tn e N pth loc).
Proof.
  intros s Hd Hw. unfold sql_update_status, bind_parameters.
  cbv [mbind M_bind mret M_ret sql_now get_work put_work raise]. st.
  destruct (mains (work s) !! e) as [rows|] eqn:Em; [|done].
  destruct (values_fit _); [|done].
  cbn. split; [done|]. apply keys_unique_set_main; [done|].
  rewrite <- list_fmap_compose.
  erewrite list_fmap_ext; [by apply (Hw e)|].
  intros i r _. unfold compose.
  match goal with |- context [if ?b then _ else _] => destruct b end;
    [|done].
  unfold fire_trigger. by case_bool_decide.
Qed.

Lemma keys_unique_sql_upsert_page w tn e id loc ttl tgs pth cnt :
  preserves w keys_unique (sql_upsert_page tn e id loc ttl tgs pth cnt).
Proof.
  intros s Hd Hw. unfold sql_upsert_page, bind_parameters.
  cbv [mbind M_bind mret M_ret sql_now get_work put_work raise]. st.
  destruct (mains (work s) !! e) as [rows|] eqn:Em; [|done].
  destruct (values_fit _); [|done].
  cbn. split; [done|]. apply keys_unique_set_main; [done|].
  apply upsert_rows_NoDup. by apply (Hw e).
Qed.

Lemma keys_unique_sql_delete_related w tn e k p :
  preserves w keys_unique (sql_delete_related tn e k p).
Proof. unfold sql_delete_related. mains_kept. Qed.

Lemma keys_unique_sql_insert_related w tn e k cols vals :
  preserves w keys_unique (sql_insert_related tn e k cols vals).
Proof. unfold sql_insert_related. mains_kept. Qed.

Lemma keys_unique__copy_main_table w tn src tgt :
  preserves w keys_unique (_copy_main_table tn src tgt).
Proof.
  intros s Hd Hw. unfold _copy_main_table.
  cbv [mbind M_bind mret M_ret get_work put_work raise]. st.
  destruct (mains (work s) !! tgt) as [target|] eqn:Et; [|done].
  destruct (mains (work s) !! src) as [source|]; [|done].
  destruct (insert_records target (copied_record <$> source))
    as [target'|] eqn:Ei; [|done].
  cbn. split; [done|]. apply keys_unique_set_main; [done|].
  eapply insert_records_NoDup; [|exact Ei]. by apply (Hw tgt).
Qed.

Lemma keys_unique__copy_related_table w tn src tgt k :
  preserves w keys_unique (_copy_related_table tn src tgt k).
Proof. unfold _copy_related_table. mains_kept. Qed.

Lemma keys_unique_sql_create_last_run w :
  preserves w keys_unique sql_create_last_run.
Proof. unfold sql_create_last_run. mains_kept. Qed.

Lemma keys_unique_sql_insert_initial_run w :
  preserves w keys_unique sql_insert_initial_run.
Proof. unfold sql_insert_initial_run. mains_kept. Qed.

Lemma keys_unique_create_initial_table w tn :
  preserves w keys_unique (create_initial_table tn).
Proof. unfold create_initial_table. mains_kept. Qed.

Lemma keys_unique_create_main_env_table w tn e :
  preserves w keys_unique (create_main_env_table tn e).
Proof.
  intros s Hd Hw. unfold create_main_env_table, check_name.
  cbv [mbind M_bind mret M_ret get_work put_work raise ask]. st.
  destruct (name_error w _); [done|]. cbn.
  destruct (mains (work s) !! e) as [rows|] eqn:Em; [done|].
  cbn. split; [done|]. apply keys_unique_set_main; [done|]. constructor.
Qed.

Lemma keys_unique_create_update_trigger w tn e :
  preserves w keys_unique (create_update_trigger tn e).
Proof. unfold create_update_trigger. mains_kept. Qed.

Lemma keys_unique_create_related_table w tn e k :
  preserves w keys_unique (create_related_table tn e k).
Proof. unfold create_related_table. mains_kept. Qed.

(** X15.  Every operation keeps the primary key of the main tables:
    when no two committed rows of a main table have the same
    [article_id] before [create_db], [copy_table], [get_arva_records],
    [insert_arva_records] or [process_records], none have after it,
    whatever the arguments, the remote replies and the outcome. *)
Theorem operations_keep_keys_unique (w : world) (s : state) :
  keys_unique (disk s) →
  (∀ db table_name,
     keys_unique (disk (final (create_db db table_name callback w s)))) ∧
  (∀ table_name source_env target_env,
     keys_unique
       (disk (final (copy_table table_name source_env target_env callback
                       w s)))) ∧
  (∀ table_name e article_ids,
     keys_unique
       (disk (final (get_arva_records table_name e article_ids callback
                       w s)))) ∧
  (∀ table_name e response_data,
     keys_unique
       (disk (final (insert_arva_records table_name e response_data callback
                       w s)))) ∧
  (∀ table_name e bearer_token graphql_url,
     keys_unique
       (disk (final (process_records table_name e bearer_token graphql_url
                       callback w s)))).
Proof.
  intros Hd.
  split; [|split; [|split; [|split]]].
  - intros db tn.
    apply (create_db_preserves w keys_unique
             (keys_unique_sql_create_last_run w)
             (keys_unique_sql_insert_initial_run w)
             (keys_unique_create_initial_table w)
             (keys_unique_create_main_env_table w)
             (keys_unique_create_update_trigger w)
             (keys_unique_create_related_table w) db tn s Hd).
  - intros tn src tgt.
    apply (copy_table_preserves w keys_unique src tgt
             (λ tn, keys_unique__copy_main_table w tn src tgt)
             (λ tn k, keys_unique__copy_related_table w tn src tgt k)
             tn s Hd).
  - intros tn e ids.
    apply (get_arva_records_preserves w keys_unique e
             (λ tn, keys_unique_sql_upsert_page w tn e)
             (λ tn, keys_unique_sql_delete_related w tn e)
             (λ tn, keys_unique_sql_insert_related w tn e)
             tn ids s Hd).
  - intros tn e body.
    apply (insert_arva_records_preserves w keys_unique e
             (λ tn, keys_unique_sql_upsert_page w tn e)
             (λ tn, keys_unique_sql_delete_related w tn e)
             (λ tn, keys_unique_sql_insert_related w tn e)
             tn body callback keeps_store_callback s Hd).
  - intros tn e tok url.
    apply (process_records_preserves w keys_unique e
             (λ tn, keys_unique_sql_update_status w tn e)
             tn tok url s Hd).
Qed.

Lemma operations_keep_keys_unique_witness :
  keys_unique
    (disk (final (copy_table "p" Dev Test callback sample_world
                    (start sample_store)))).
Proof.
  refine (proj1 (proj2 (operations_keep_keys_unique sample_world
                          (start sample_store) _)) "p" Dev Test).
  intros e rows. destruct e; vm_compute; intros [= <-];
    repeat constructor; cbn; set_solver.
Defined.

(** ** Tags: joined by the pull, split by the push *)

Lemma split_semicolon_not_nil s : split_semicolon s ≠ [].
Proof.
  destruct s as [|c s]; cbn [split_semicolon]; [done|].
  case_decide; [done|]. by destruct (split_semicolon s).
Qed.

Lemma concat_cons_cons sep (x y : string) l :
  String.concat sep (x :: y :: l) = (x +:+ sep +:+ String.concat sep (y :: l))%string.
Proof. done. Qed.

Lemma split_semicolon_plain t :
  has_semicolon t = false → split_semicolon t = [t].
Proof.
  induction t as [|c t IH]; cbn [has_semicolon split_semicolon]; [done|].
  intros [Hc Ht]%orb_false_elim. apply bool_decide_eq_false in Hc.
  rewrite decide_False by done. by rewrite IH.
Qed.

Lemma split_semicolon_piece t rest :
  has_semicolon t = false →
  split_semicolon (t +:+ ";" +:+ rest) = t :: split_semicolon rest.
Proof.
  induction t as [|c t IH]; cbn [has_semicolon].
  - intros _. done.
  - intros [Hc Ht]%orb_false_elim. apply bool_decide_eq_false in Hc.
    change (String c t +:+ ";" +:+ rest)
      with (String c (t +:+ ";" +:+ rest)).
    cbn [split_semicolon]. rewrite decide_False by done.
    by rewrite IH.
Qed.

Lemma split_semicolon_concat l :
  l ≠ [] → Forall (λ t, has_semicolon t = false) l →
  split_semicolon (String.concat ";" l) = l.
Proof.
  induction l as [|t l IH]; [done|]. intros _ Hl.
  apply Forall_cons in Hl as [Ht Hl].
  destruct l as [|t' l].
  - by apply split_semicolon_plain.
  - rewrite concat_cons_cons, split_semicolon_piece by done.
    by rewrite IH.
Qed.

(** X16.  The tags a pull stores and the tags a push sends.  When no
    title holds a semicolon, the push sends the textual titles the pull
    received, in their order (titles that are not text are dropped);
    for a page without a textual title it sends one empty tag, not an
    empty list. *)
Theorem pulled_tags_pushed (titles : list (option string)) :
  (∀ t, Some t ∈ titles → has_semicolon t = false) →
  split_semicolon (join_tags titles) =
  match omap id titles with
  | [] => [""]
  | tags => tags
  end.
Proof.
  intros Hno. unfold join_tags.
  destruct (omap id titles) as [|t l] eqn:Eo; [done|].
  apply split_semicolon_concat; [done|].
  rewrite <- Eo. apply Forall_forall. intros x Hx.
  apply list_elem_of_omap in Hx as (o & Ho & Hx). cbn in Hx. subst o.
  by apply Hno.
Qed.

Lemma pulled_tags_pushed_witness :
  split_semicolon (join_tags [Some "tax"; None; Some "id card"]) =
  ["tax"; "id card"].
Proof.
  apply (pulled_tags_pushed [Some "tax"; None; Some "id card"]).
  intros t Ht.
  repeat (apply elem_of_cons in Ht as [Ht|Ht]; [by simplify_eq|]).
  by apply elem_of_nil in Ht.
Defined.

(** X17.  What the push splits, joined again with semicolons, is the
    stored text: no tag is lost or changed by the split, whatever the
    text. *)
Theorem split_semicolon_joins_back (s : string) :
  String.concat ";" (split_semicolon s) = s.
Proof.
  induction s as [|c s IH]; cbn [split_semicolon]; [done|].
  pose proof (split_semicolon_not_nil s) as Hn.
  destruct (split_semicolon s) as [|p l] eqn:Es; [done|].
  case_decide as Hc.
  - subst c. rewrite concat_cons_cons, IH. done.
  - destruct l as [|q l].
    + cbn in IH |- *. by rewrite IH.
    + rewrite concat_cons_cons in IH. rewrite concat_cons_cons.
      rewrite <- IH. done.
Qed.

(** ** The run log *)

(** X18.  The run that [get_last_run_info] reads is a run of the log
    whose timestamp no other run's exceeds, wherever it stands in the
    log; a NULL timestamp is below every text. *)
Theorem latest_run_is_greatest (runs : list run_row) (r : run_row) :
  latest_run runs = Some r →
  r ∈ runs ∧
  ∀ r', r' ∈ runs →
    sql_lt (last_sync_timestamp r) (last_sync_timestamp r') = false.
Proof.
  revert r. induction runs as [|x runs IH]; intros r; cbn; [done|].
  destruct (latest_run runs) as [m|] eqn:Em.
  - destruct (IH m eq_refl) as [Hin Hmax].
    destruct (sql_lt (last_sync_timestamp x) (last_sync_timestamp m)) eqn:Hx;
      intros [= <-].
    + split; [by right|]. intros r' [->|Hr']%elem_of_cons.
      * by apply sql_lt_asym.
      * by apply Hmax.
    + split; [by left|]. intros r' [->|Hr']%elem_of_cons.
      * apply sql_lt_irrefl.
      * eapply sql_lt_not_below; [exact Hx|by apply Hmax].
  - intros [= <-]. destruct runs as [|y runs].
    + split; [by left|]. intros r' [->|Hr']%elem_of_cons.
      * apply sql_lt_irrefl.
      * by apply elem_of_nil in Hr'.
    + cbn in Em. repeat case_match; done.
Qed.

Lemma latest_run_is_greatest_witness :
  mk_run_row 2 (Some "2024-03-01 10:00:00") (Some "initial")
    ∈ sample_run_log ∧
  ∀ r', r' ∈ sample_run_log →
    sql_lt (Some "2024-03-01 10:00:00") (last_sync_timestamp r') = false.
Proof.
  apply (latest_run_is_greatest sample_run_log
           (mk_run_row 2 (Some "2024-03-01 10:00:00") (Some "initial"))).
  reflexivity.
Defined.

(** ** The follow-up mutation *)

Lemma fetch_related_data_ok w tn e a s :
  (∀ k, is_Some (relateds (work s) !! (e, k))) →
  fits_int64 a = true →
  ∃ rd, fetch_related_data tn e a w s = (Ok rd, s).
Proof.
  intros H Ha.
  assert (Hv : values_fit [VInt a] = true)
    by (by etrans; [exact (values_fit_int_texts a [])|]).
  unfold fetch_related_data, sql_select_related, bind_parameters.
  rewrite Hv.
  cbv [mbind M_bind mret M_ret get_work raise].
  destruct (H Institution) as [r1 ->], (H LegalAct) as [r2 ->],
    (H PageContact) as [r3 ->], (H RelatedPages) as [r4 ->],
    (H Service) as [r5 ->].
  by eexists.
Qed.

Lemma follow_up_unreachable tn e a N w s msg :
  (∀ k, is_Some (relateds (work s) !! (e, k))) →
  fits_int64 a = true →
  (∀ rd, remote_mutation w (requests s) (FollowUp rd) = PostFailed msg) →
  (fetch_related_data tn e a ≫= λ rd,
     handle_follow_up_mutation N rd callback) w s =
  (Raise (mk_exn UnboundLocalError unbound_response_message),
   with_requests (S (requests s)) s).
Proof.
  intros Hrel Ha Hdown.
  destruct (fetch_related_data_ok w tn e a s Hrel Ha) as [rd Hrd].
  erewrite bind_run by exact Hrd.
  unfold handle_follow_up_mutation.
  apply try_except_raise_missed; [|cbn; set_solver].
  erewrite bind_raise; [reflexivity|].
  unfold execute_graphql_mutation.
  cbv [mbind M_bind mret M_ret next_request ask]. st.
  by rewrite Hdown.
Qed.

(** X19.  When the create mutation of a row succeeds with a remote id
    that fits an SQLite INTEGER (as does the row's own key) and the
    request of the follow-up mutation fails in transport,
    [process_record] returns after two messages: the remote result, and
    an error that is not the follow-up's own report but Python's
    complaint about the unbound local [response] of
    [execute_graphql_mutation].  The row keeps the remote id and the
    status the UPDATE gave it. *)
Theorem push_follow_up_unreachable (w : world) (table_name : string)
    (e : env) (s : state) (rows : list env_record) (row : push_row)
    (tgs p l : string) (code : Z) (text : string) (N : Z)
    (msg : option string) (failure : string) :
  mains (work s) !! e = Some rows →
  (∀ k, is_Some (relateds (work s) !! (e, k))) →
  row_exp_article_id row = None →
  row_tags row = Some tgs →
  row_path row = Some p → row_locale row = Some l → p ≠ "" → l ≠ "" →
  remote_mutation w (requests s)
    (Create {| var_content := row_content row; var_locale := row_locale row;
               var_path := row_path row; var_tags := split_semicolon tgs;
               var_title := row_title row; var_id := None |})
    = success_reply code text
        {| md_create := Some {| pr_page_id := N; pr_message := msg |};
           md_update := None |} →
  is_http_error code = false →
  fits_int64 N = true →
  fits_int64 (row_article_id row) = true →
  (∀ rd, remote_mutation w (S (requests s)) (FollowUp rd)
         = PostFailed failure) →
  ∃ s',
    process_record table_name e row callback w s = (Ok tt, s') ∧
    work s' =
      set_mains
        (<[e := status_updated (work s) e (clock w (ticks s)) N p l rows]>
           (mains (work s))) (work s) ∧
    sink s' =
      sink s ++
      [record_message N msg;
       "Error while processing record: " +:+ unbound_response_message] ∧
    requests s' = S (S (requests s)).
Proof.
  intros Hm Hrel Hexp Ht Hpath Hloc Hp Hl Hreply Hcode HN Hkey Hdown.
  unfold process_record, try_except_all.
  unfold prepare_record_variables. rewrite Ht, bind_ret.
  cbn beta iota zeta. rewrite Hexp. cbn [is_unsynced].
  unfold success_reply in Hreply.
  erewrite bind_run by (eapply execute_graphql_mutation_run; eassumption).
  cbn [mb_errors mb_data]. rewrite bind_ret. cbn [md_create md_update].
  repeat first [rewrite bind_assoc | rewrite bind_callback | rewrite bind_ret].
  erewrite bind_run;
    [|eapply update_record_status_run; [st; eassumption|cbn; eassumption..]].
  erewrite follow_up_unreachable;
    [|st; exact Hrel|exact Hkey|st; exact Hdown].
  eexists. split; [reflexivity|]. unfold callback, record_message. st.
  split; [done|]. split; [|done].
  by rewrite <- app_assoc.
Qed.

Lemma push_follow_up_unreachable_witness :
  ∃ s',
    process_record "p" Dev (select_push_columns sample_row_a) callback
      sample_follow_up_down_world (start sample_store) = (Ok tt, s') ∧
    work s' =
      set_mains
        (<[Dev := status_updated sample_store Dev "2024-02-01 00:00:00" 99
                    "/a" "en" sample_rows]> (mains sample_store))
        sample_store ∧
    sink s' =
      [] ++
      [record_message 99 (Some "Page created");
       "Error while processing record: " +:+ unbound_response_message] ∧
    requests s' = 2%nat.
Proof.
  apply (push_follow_up_unreachable sample_follow_up_down_world "p" Dev
           (start sample_store) sample_rows
           (select_push_columns sample_row_a) "x;y" "/a" "en" 200 "" 99
           (Some "Page created") "connection reset");
    try reflexivity; try done.
  intros k. destruct k; vm_compute; eauto.
Defined.

(** ** A push run with nothing to send *)

Lemma scan_empty w tn e s :
  nothing_to_push w e (work s) →
  ∃ msgs, fetch_all_records tn e w s
          = (Ok [], with_console (console s ++ msgs) s).
Proof.
  unfold nothing_to_push. intros Hn.
  destruct (last_run (work s)) as [runs|] eqn:El.
  - destruct (mains (work s) !! e) as [rows|] eqn:Em.
    + destruct (fetch_all_records_run w tn e s runs rows El Em) as [msgs ->].
      exists msgs. do 2 f_equal.
      rewrite filter_none; [done|].
      intros r Hr Hc. rewrite Forall_forall in Hn.
      rewrite (Hn r Hr) in Hc. exact Hc.
    + destruct (get_last_run_info_run w s runs El) as [msgs Hrun].
      unfold fetch_all_records.
      erewrite try_except_raise_caught; cycle 1.
      { erewrite bind_run by exact Hrun.
        cbv [mbind M_bind get_work raise]. st. rewrite Em. reflexivity. }
      { cbn. set_solver. }
      eexists. unfold print. cbv [mbind M_bind mret M_ret]. st.
      by rewrite <- app_assoc.
  - unfold fetch_all_records.
    erewrite try_except_raise_caught; cycle 1.
    { erewrite bind_raise; [reflexivity|].
      unfold get_last_run_info.
      apply try_except_raise_missed.
      - cbv [mbind M_bind get_work raise]. by rewrite El.
      - cbn. set_solver. }
    { cbn. set_solver. }
    eexists. unfold print. cbv [mbind M_bind mret M_ret]. st. done.
Qed.

(** X20.  A push run whose scan finds nothing (the main table or the
    run log is missing, or no row is a candidate) tells the callback
    ["No records to process."] and nothing else, makes no request,
    commits nothing and closes what it opened. *)
Theorem process_records_nothing_to_push (w : world) (table_name : string)
    (e : env) (bearer_token graphql_url : string) (s : state) :
  can_connect w = true →
  bearer_token ≠ "" → graphql_url ≠ "" →
  nothing_to_push w e (disk s) →
  ∃ s',
    process_records table_name e bearer_token graphql_url callback w s
      = (Ok tt, s') ∧
    sink s' = sink s ++ ["No records to process."] ∧
    disk s' = disk s ∧ requests s' = requests s ∧
    open_conns s' = open_conns s ∧ open_cursors s' = open_cursors s.
Proof.
  intros Hc Htok Hurl Hn. unfold process_records.
  erewrite bind_run by (by apply open_store_run).
  set (s1 := with_handles _ _ _).
  destruct (scan_empty w table_name e s1 Hn) as [msgs Hscan].
  unfold try_finally, try_except_all, get_api_config.
  rewrite !bool_decide_eq_false_2 by done. cbn [orb].
  rewrite bind_ret. erewrite bind_run by exact Hscan.
  eexists. split; [reflexivity|]. subst s1. st. done.
Qed.

Lemma process_records_nothing_to_push_witness :
  ∃ s',
    process_records "p" Dev "token" "https://arva/graphql" callback
      sample_world (start sample_settled_store) = (Ok tt, s') ∧
    sink s' = [] ++ ["No records to process."] ∧
    disk s' = sample_settled_store ∧ requests s' = 0%nat ∧
    open_conns s' = 0%nat ∧ open_cursors s' = 0%nat.
Proof.
  apply (process_records_nothing_to_push sample_world "p" Dev "token"
           "https://arva/graphql" (start sample_settled_store));
    [reflexivity|discriminate|discriminate|].
  vm_compute. repeat constructor.
Defined.

(** X21.  A push run without a bearer token or without an endpoint
    reports that both must be provided and does nothing else: no scan,
    no request, nothing committed, and what it opened is closed. *)
Theorem process_records_without_credentials (w : world)
    (table_name : string) (e : env) (bearer_token graphql_url : string)
    (s : state) :
  can_connect w = true →
  bearer_token = "" ∨ graphql_url = "" →
  ∃ s',
    process_records table_name e bearer_token graphql_url callback w s
      = (Ok tt, s') ∧
    sink s' =
      sink s ++ ["Error processing records: " +:+
                 "Bearer token and GraphQL URL must be provided."] ∧
    console s' = console s ∧
    disk s' = disk s ∧ requests s' = requests s ∧
    open_conns s' = open_conns s ∧ open_cursors s' = open_cursors s.
Proof.
  intros Hc Hblank. unfold process_records.
  erewrite bind_run by (by apply open_store_run).
  unfold try_finally, try_except_all, get_api_config.
  assert (bool_decide (bearer_token = "") || bool_decide (graphql_url = "")
          = true) as ->.
  { destruct Hblank as [->| ->]; [done|]. apply orb_true_r. }
  eexists. split; [reflexivity|]. st. done.
Qed.

Lemma process_records_without_credentials_witness :
  ∃ s',
    process_records "p" Dev "" "https://arva/graphql" callback
      sample_world (start sample_store) = (Ok tt, s') ∧
    sink s' =
      [] ++ ["Error processing records: " +:+
             "Bearer token and GraphQL URL must be provided."] ∧
    console s' = [] ∧
    disk s' = sample_store ∧ requests s' = 0%nat ∧
    open_conns s' = 0%nat ∧ open_cursors s' = 0%nat.
Proof.
  apply (process_records_without_credentials sample_world "p" Dev ""
           "https://arva/graphql" (start sample_store));
    [reflexivity|left; reflexivity].
Defined.

(** ** The requests of a pull *)

Lemma keeps_requests_connect : keeps_proj requests connect.
Proof. intros w s. unfold connect. by destruct (can_connect w). Qed.

Lemma keeps_requests_insert_arva_records tn e body (cb : string → M unit) :
  (∀ msg, keeps_proj requests (cb msg)) →
  keeps_proj requests (insert_arva_records tn e body cb).
Proof.
  intros Hcb. pose proof keeps_requests_connect as Hconnect.
  unfold insert_arva_records, _insert_page_data, sql_upsert_page,
    _delete_records, sql_delete_related, _insert_arva_institution,
    _insert_arva_legal_act, _insert_arva_page_contact,
    _insert_arva_related_pages, _insert_arva_service, response_data_of,
    sql_insert_related.
  keeps_proj.
Qed.

Lemma requests_after_first {A} (body : nat → M A) cl h w s :
  (∀ n, keeps_proj requests (body n)) →
  (∀ err, keeps_proj requests (h err)) →
  requests (snd (try_except (next_request ≫= body) cl h w s))
  = S (requests s).
Proof.
  intros Hb Hh. unfold try_except.
  rewrite (bind_run next_request body w s (requests s)
             (with_requests (S (requests s)) s) eq_refl).
  pose proof (Hb (requests s) w (with_requests (S (requests s)) s)) as Hr.
  destruct (body _ w _) as [[a|err] s1]; cbn in *; [done|].
  case_bool_decide; [|done]. by rewrite Hh.
Qed.

Lemma pull_one_requests w tn e id s :
  requests (snd (pull_one tn e callback id w s)) = S (requests s).
Proof.
  assert (Hins : ∀ body,
             keeps_proj requests (insert_arva_records tn e body print)).
  { intros body. apply keeps_requests_insert_arva_records.
    by intros msg w' s'. }
  unfold pull_one. apply requests_after_first.
  - intros n. keeps_proj.
  - intros err. keeps_proj.
Qed.

(** X22.  A pull makes one request per identifier, in the order given,
    and never a second one for the same entry of the list: when it
    returns it has made exactly as many requests as identifiers were
    given, and when it raises it has made at most that many. *)
Theorem pull_one_request_per_identifier (w : world) (table_name : string)
    (e : env) (ids : list Z) (s : state) :
  (requests (final (get_arva_records table_name e (Some <$> ids) callback
                      w s))
   ≤ requests s + length ids)%nat ∧
  (outcome (get_arva_records table_name e (Some <$> ids) callback w s)
   = Ok tt →
   requests (final (get_arva_records table_name e (Some <$> ids) callback
                      w s))
   = (requests s + length ids)%nat).
Proof.
  rewrite get_arva_records_ids. unfold final, outcome.
  revert s. induction ids as [|id ids IH]; intros s; cbn [for_each length].
  - cbn. split; [lia|intros _; lia].
  - unfold mbind, M_bind.
    pose proof (pull_one_requests w table_name e id s) as H1.
    destruct (pull_one table_name e callback id w s) as [[[]|err] s1];
      cbn [fst snd] in *.
    + destruct (IH s1) as [Hle Heq]. rewrite H1 in Hle, Heq.
      split; [lia|]. intros Hok. rewrite (Heq Hok). lia.
    + split; [lia|done].
Qed.

(** ** A pull from an unreachable API *)

Lemma pull_one_unreachable w tn e id s msg :
  remote_query w (requests s) id = PostFailed msg →
  pull_one tn e callback id w s =
  (Ok tt,
   with_sink (sink s ++ [fetch_error_message id msg])
     (with_requests (S (requests s)) s)).
Proof.
  intros Hq. unfold pull_one.
  erewrite try_except_raise_caught; cycle 1.
  { unfold next_request, ask. cbv [mbind M_bind]. st. rewrite Hq.
    reflexivity. }
  { cbn. set_solver. }
  reflexivity.
Qed.

(** X23.  When every request of a pull fails in transport, the pull
    goes through all the identifiers: it tells the callback one message
    per identifier, in the order given, each with the identifier and
    the failure, and changes nothing in the store. *)
Theorem pull_unreachable (w : world) (table_name : string) (e : env)
    (ids : list Z) (s : state) (failure : string) :
  (∀ n id, id ∈ ids → remote_query w n id = PostFailed failure) →
  get_arva_records table_name e (Some <$> ids) callback w s =
  (Ok tt,
   with_sink (sink s ++ ((λ id, fetch_error_message id failure) <$> ids))
     (with_requests (requests s + length ids) s)).
Proof.
  rewrite get_arva_records_ids.
  revert s. induction ids as [|id ids IH]; intros s Hdown; cbn.
  - rewrite app_nil_r, Nat.add_0_r. by destruct s.
  - erewrite bind_run
      by (apply pull_one_unreachable, Hdown; left).
    rewrite IH by (intros n id' Hin; apply Hdown; by right).
    st. rewrite <- app_assoc. cbn. do 3 f_equal. lia.
Qed.

Lemma pull_unreachable_witness :
  get_arva_records "p" Dev (Some <$> [7; 8]) callback sample_world
    (start sample_store) =
  (Ok tt,
   with_sink
     ([] ++ ((λ id, fetch_error_message id "connection refused") <$> [7; 8]))
     (with_requests (0 + 2) (start sample_store))).
Proof.
  apply (pull_unreachable sample_world "p" Dev [7; 8] (start sample_store)
           "connection refused").
  reflexivity.
Defined.

(** ** A malformed identifier *)

(** X24.  When one piece of the identifier list is not an integer, the
    pull raises [ValueError] before its first request: nothing is
    asked of the remote API, told to the callback or written, also for
    the well-formed identifiers that stand before the malformed one. *)
Theorem pull_malformed_identifier (w : world) (table_name : string)
    (e : env) (article_ids : list (option Z)) (s : state) :
  None ∈ article_ids →
  ∃ msg,
    get_arva_records table_name e article_ids callback w s =
    (Raise (mk_exn ValueError msg), s).
Proof.
  intros Hin. unfold get_arva_records. rewrite mapM_id_None by done.
  by eexists.
Qed.

Lemma pull_malformed_identifier_witness :
  ∃ msg,
    get_arva_records "p" Dev [Some 7; None; Some 9] callback
      sample_pull_world (start sample_store) =
    (Raise (mk_exn ValueError msg), start sample_store).
Proof.
  apply (pull_malformed_identifier sample_pull_world "p" Dev
           [Some 7; None; Some 9] (start sample_store)).
  right. left.
Defined.

(** ** The checks of the front end *)

Lemma valid_project_name_true name (cb : string → M unit) w s :
  outcome (valid_project_name name cb w s) = Ok true →
  ∃ first rest,
    name = String first rest ∧
    is_word_char first = true ∧ word_chars_to_end rest = true ∧
    is_digit first = false ∧ first ≠ "_"%char ∧
    last_char name ≠ Some "_"%char.
Proof.
  unfold valid_project_name, outcome, mbind, M_bind.
  destruct name as [|first rest].
  { by destruct (cb _ w s) as [[[]|err] s1]. }
  destruct (matches_project_name (String first rest)) eqn:Em; cbn [negb];
    [|by destruct (cb _ w s) as [[[]|err] s1]].
  destruct (is_digit first) eqn:Ed;
    [by destruct (cb _ w s) as [[[]|err] s1]|].
  case_bool_decide as Hu; [by destruct (cb _ w s) as [[[]|err] s1]|].
  case_bool_decide as Hl; [by destruct (cb _ w s) as [[[]|err] s1]|].
  intros _. exists first, rest.
  cbn in Em. apply andb_true_iff in Em as [Hw Hr]. done.
Qed.

Lemma word_chars_no_dot s :
  word_chars_to_end s = true →
  all_chars (λ c, negb (bool_decide (c = "."%char))) s = true.
Proof.
  induction s as [|c s IH]; cbn [word_chars_to_end all_chars]; [done|].
  destruct (is_word_char c) eqn:Ec.
  - intros Hs. rewrite IH by done.
    case_bool_decide as Hc; [|done]. by subst c.
  - intros [Hc Hs]%andb_true_iff.
    apply bool_decide_eq_true in Hc, Hs. by subst.
Qed.

Lemma replace_db_no_dot s :
  all_chars (λ c, negb (bool_decide (c = "."%char))) s = true →
  replace_db (s +:+ ".db") = s.
Proof.
  induction s as [|c s IH]; [done|].
  cbn [all_chars]. intros [Hc Hs]%andb_true_iff.
  apply negb_true_iff, bool_decide_eq_false in Hc.
  change (String c s +:+ ".db") with (String c (s +:+ ".db")).
  cbn [replace_db].
  destruct (s +:+ ".db") as [|c' [|c'' rest']] eqn:Es.
  - by destruct s.
  - by destruct s as [|? [|? ?]].
  - rewrite bool_decide_eq_false_2 by naive_solver.
    by rewrite IH.
Qed.

(** X25.  For a project name that [valid_project_name] accepts, the
    table name that [initialize_db_connection] derives from the file
    name [f"{name}.db"] is the project name itself: an accepted name
    holds no dot, so [replace] removes the extension and nothing
    else. *)
Theorem valid_name_is_table_name (name : string) (cb : string → M unit)
    (w : world) (s : state) :
  outcome (valid_project_name name cb w s) = Ok true →
  replace_db (name +:+ ".db") = name.
Proof.
  intros Hv.
  apply valid_project_name_true in Hv
    as (first & rest & -> & Hf & Hr & _).
  apply replace_db_no_dot. cbn [all_chars].
  rewrite (word_chars_no_dot rest Hr), andb_true_r.
  case_bool_decide as Hc; [|done]. by subst first.
Qed.

Lemma valid_name_is_table_name_witness :
  replace_db ("tasa_2024" +:+ ".db") = "tasa_2024".
Proof.
  apply (valid_name_is_table_name "tasa_2024" callback sample_world
           (start empty_store)).
  reflexivity.
Defined.

Lemma word_chars_newline s :
  all_chars is_word_char s = true →
  word_chars_to_end (s +:+ newline) = true.
Proof.
  induction s as [|c s IH]; [done|].
  cbn [all_chars]. intros [Hc Hs]%andb_true_iff.
  change (String c s +:+ newline) with (String c (s +:+ newline)).
  cbn [word_chars_to_end]. rewrite Hc. by apply IH.
Qed.

Lemma last_char_newline s : last_char (s +:+ newline) = Some "010"%char.
Proof.
  induction s as [|c s IH]; [done|].
  change (String c s +:+ newline) with (String c (s +:+ newline)).
  cbn [last_char]. rewrite IH. by destruct s.
Qed.

(** X26.  [valid_project_name] accepts a name that ends in a newline:
    the [$] of its pattern matches before a final newline, and the last
    character is then the newline, not an underscore.  So a text of
    letters, digits and underscores that starts with a letter is
    accepted with a newline after it, also when it ends in an
    underscore, and nothing is told to the callback. *)
Theorem valid_project_name_accepts_newline (first : ascii) (rest : string)
    (cb : string → M unit) (w : world) (s : state) :
  is_word_char first = true → is_digit first = false →
  first ≠ "_"%char →
  all_chars is_word_char rest = true →
  valid_project_name (String first rest +:+ newline) cb w s = (Ok true, s).
Proof.
  intros Hf Hd Hu Hr.
  change (String first rest +:+ newline)
    with (String first (rest +:+ newline)).
  unfold valid_project_name.
  assert (matches_project_name (String first (rest +:+ newline)) = true)
    as ->.
  { cbn [matches_project_name]. by rewrite Hf, word_chars_newline. }
  cbn [negb]. rewrite Hd.
  rewrite bool_decide_eq_false_2 by done.
  rewrite bool_decide_eq_false_2; [done|].
  change (String first (rest +:+ newline))
    with (String first rest +:+ newline).
  by rewrite last_char_newline.
Qed.

Lemma valid_project_name_accepts_newline_witness :
  valid_project_name ("abc_" +:+ newline) callback sample_world
    (start empty_store) = (Ok true, start empty_store).
Proof.
  apply (valid_project_name_accepts_newline "a" "bc_" callback sample_world
           (start empty_store)); [reflexivity|reflexivity|discriminate|].
  reflexivity.
Defined.

(** X27.  The environment names that [check_target_env] accepts are
    the three the engine has tables for, and [get_env_url] has an
    endpoint for each of them and for no other text: after the check,
    the endpoint is never missing. *)
Theorem checked_env_has_endpoint (target_env : string)
    (cb : string → M unit) (w : world) (s : state) :
  (outcome (check_target_env target_env cb w s) = Ok true ↔
   is_Some (get_env_url target_env)) ∧
  (is_Some (get_env_url target_env) ↔ ∃ e, env_name e = target_env).
Proof.
  assert (Hin : target_env ∈ ["dev"; "test"; "prod"] ↔
                is_Some (get_env_url target_env)).
  { unfold get_env_url. rewrite !elem_of_cons, elem_of_nil.
    repeat case_bool_decide; subst; split; intros Hx;
      try (by eauto); try naive_solver. }
  split.
  - rewrite <- Hin. unfold check_target_env, outcome.
    case_bool_decide as Hd; [done|].
    split; [|done]. unfold mbind, M_bind.
    by destruct (cb _ w s) as [[[]|err] s1].
  - rewrite <- Hin. rewrite !elem_of_cons, elem_of_nil. split.
    + intros [->|[->|[->|[]]]]; [by exists Dev|by exists Test|by exists Prod].
    + intros [[] <-]; cbn; eauto.
Qed.

(** ** The key order of the main tables *)

Lemma keys_ordered_set_main d e rows :
  keys_ordered d → key_ordered rows →
  keys_ordered (set_mains (<[e := rows]> (mains d)) d).
Proof.
  intros Hd Hnd e' rows'. cbn.
  destruct (decide (e' = e)) as [->|Hne].
  - rewrite lookup_insert_eq. by intros [= <-].
  - rewrite lookup_insert_ne by done. apply Hd.
Qed.

Lemma insert_records_key_ordered table new table' :
  key_ordered table →
  insert_records table new = Some table' →
  key_ordered table'.
Proof.
  revert table. induction new as [|r new IH]; intros table Hord; cbn.
  - by intros [= <-].
  - case_bool_decide as Hin; [done|]. apply IH.
    by apply key_ordered_insert_by_key.
Qed.

Lemma keys_ordered_sql_update_status w tn e N pth loc :
  preserves w keys_ordered (sql_update_status tn e N pth loc).
Proof.
  intros s Hd Hw. unfold sql_update_status, bind_parameters.
  cbv [mbind M_bind mret M_ret sql_now get_work put_work raise]. st.
  destruct (mains (work s) !! e) as [rows|] eqn:Em; [|done].
  destruct (values_fit _); [|done].
  cbn. split; [done|]. apply keys_ordered_set_main; [done|].
  eapply key_ordered_keys; [|by apply (Hw e)].
  rewrite <- list_fmap_compose. apply list_fmap_ext.
  intros i r _. unfold compose.
  match goal with |- context [if ?b then _ else _] => destruct b end;
    [|done].
  unfold fire_trigger. by case_bool_decide.
Qed.

Lemma keys_ordered_sql_upsert_page w tn e id loc ttl tgs pth cnt :
  preserves w keys_ordered (sql_upsert_page tn e id loc ttl tgs pth cnt).
Proof.
  intros s Hd Hw. unfold sql_upsert_page, bind_parameters.
  cbv [mbind M_bind mret M_ret sql_now get_work put_work raise]. st.
  destruct (mains (work s) !! e) as [rows|] eqn:Em; [|done].
  destruct (values_fit _); [|done].
  cbn. split; [done|]. apply keys_ordered_set_main; [done|].
  apply key_ordered_upsert_rows. by apply (Hw e).
Qed.

Lemma keys_ordered_sql_delete_related w tn e k p :
  preserves w keys_ordered (sql_delete_related tn e k p).
Proof. unfold sql_delete_related. mains_kept. Qed.

Lemma keys_ordered_sql_insert_related w tn e k cols vals :
  preserves w keys_ordered (sql_insert_related tn e k cols vals).
Proof. unfold sql_insert_related. mains_kept. Qed.

Lemma keys_ordered__copy_main_table w tn src tgt :
  preserves w keys_ordered (_copy_main_table tn src tgt).
Proof.
  intros s Hd Hw. unfold _copy_main_table.
  cbv [mbind M_bind mret M_ret get_work put_work raise]. st.
  destruct (mains (work s) !! tgt) as [target|] eqn:Et; [|done].
  destruct (mains (work s) !! src) as [source|]; [|done].
  destruct (insert_records target (copied_record <$> source))
    as [target'|] eqn:Ei; [|done].
  cbn. split; [done|]. apply keys_ordered_set_main; [done|].
  eapply insert_records_key_ordered; [|exact Ei]. by apply (Hw tgt).
Qed.

Lemma keys_ordered__copy_related_table w tn src tgt k :
  preserves w keys_ordered (_copy_related_table tn src tgt k).
Proof. unfold _copy_related_table. mains_kept. Qed.

Lemma keys_ordered_sql_create_last_run w :
  preserves w keys_ordered sql_create_last_run.
Proof. unfold sql_create_last_run. mains_kept. Qed.

Lemma keys_ordered_sql_insert_initial_run w :
  preserves w keys_ordered sql_insert_initial_run.
Proof. unfold sql_insert_initial_run. mains_kept. Qed.

Lemma keys_ordered_create_initial_table w tn :
  preserves w keys_ordered (create_initial_table tn).
Proof. unfold create_initial_table. mains_kept. Qed.

Lemma keys_ordered_create_main_env_table w tn e :
  preserves w keys_ordered (create_main_env_table tn e).
Proof.
  intros s Hd Hw. unfold create_main_env_table, check_name.
  cbv [mbind M_bind mret M_ret get_work put_work raise ask]. st.
  destruct (name_error w _); [done|]. cbn.
  destruct (mains (work s) !! e) as [rows|] eqn:Em; [done|].
  cbn. split; [done|]. by apply keys_ordered_set_main.
Qed.

Lemma keys_ordered_create_update_trigger w tn e :
  preserves w keys_ordered (create_update_trigger tn e).
Proof. unfold create_update_trigger. mains_kept. Qed.

Lemma keys_ordered_create_related_table w tn e k :
  preserves w keys_ordered (create_related_table tn e k).
Proof. unfold create_related_table. mains_kept. Qed.

(** X28.  Every operation keeps the main tables in the order of their
    keys, which is the order in which the push scan reads them: when the
    committed rows of every main table stand in strictly increasing
    order of [article_id] before [create_db], [copy_table],
    [get_arva_records], [insert_arva_records] or [process_records], they
    do after it, whatever the arguments, the remote replies and the
    outcome. *)
Theorem operations_keep_key_order (w : world) (s : state) :
  keys_ordered (disk s) →
  (∀ db table_name,
     keys_ordered (disk (final (create_db db table_name callback w s)))) ∧
  (∀ table_name source_env target_env,
     keys_ordered
       (disk (final (copy_table table_name source_env target_env callback
                       w s)))) ∧
  (∀ table_name e article_ids,
     keys_ordered
       (disk (final (get_arva_records table_name e article_ids callback
                       w s)))) ∧
  (∀ table_name e response_data,
     keys_ordered
       (disk (final (insert_arva_records table_name e response_data callback
                       w s)))) ∧
  (∀ table_name e bearer_token graphql_url,
     keys_ordered
       (disk (final (process_records table_name e bearer_token graphql_url
                       callback w s)))).
Proof.
  intros Hd.
  split; [|split; [|split; [|split]]].
  - intros db tn.
    apply (create_db_preserves w keys_ordered
             (keys_ordered_sql_create_last_run w)
             (keys_ordered_sql_insert_initial_run w)
             (keys_ordered_create_initial_table w)
             (keys_ordered_create_main_env_table w)
             (keys_ordered_create_update_trigger w)
             (keys_ordered_create_related_table w) db tn s Hd).
  - intros tn src tgt.
    apply (copy_table_preserves w keys_ordered src tgt
             (λ tn, keys_ordered__copy_main_table w tn src tgt)
             (λ tn k, keys_ordered__copy_related_table w tn src tgt k)
             tn s Hd).
  - intros tn e ids.
    apply (get_arva_records_preserves w keys_ordered e
             (λ tn, keys_ordered_sql_upsert_page w tn e)
             (λ tn, keys_ordered_sql_delete_related w tn e)
             (λ tn, keys_ordered_sql_insert_related w tn e)
             tn ids s Hd).
  - intros tn e body.
    apply (insert_arva_records_preserves w keys_ordered e
             (λ tn, keys_ordered_sql_upsert_page w tn e)
             (λ tn, keys_ordered_sql_delete_related w tn e)
             (λ tn, keys_ordered_sql_insert_related w tn e)
             tn body callback keeps_store_callback s Hd).
  - intros tn e tok url.
    apply (process_records_preserves w keys_ordered e
             (λ tn, keys_ordered_sql_update_status w tn e)
             tn tok url s Hd).
Qed.

Lemma operations_keep_key_order_witness :
  keys_ordered
    (disk (final (copy_table "p" Dev Test callback sample_world
                    (start sample_store)))).
Proof.
  refine (proj1 (proj2 (operations_keep_key_order sample_world
                          (start sample_store) _)) "p" Dev Test).
  intros e rows. destruct e; vm_compute; intros [= <-];
    repeat constructor.
Defined.

(** ** A project name that SQLite refuses *)

(** X29.  When SQLite refuses the name of the staging table that
    [create_db] makes of the project name, [create_db] returns after
    telling the callback ["Error creating database tables: ..."] with
    SQLite's text.  No project table is created, but the store is not
    as it was: the run log, whose CREATE TABLE ran outside a
    transaction, is there if it was not, without the initial run, whose
    INSERT is rolled back.  Connection and cursor are closed. *)
Theorem create_db_rejected_name (w : world) (db table_name : string)
    (s : state) (msg : string) :
  can_connect w = true →
  name_error w (table_name +:+ "_initial") = Some msg →
  ∃ s',
    create_db db table_name callback w s = (Ok tt, s') ∧
    sink s' = sink s ++ ["Error creating database tables: " +:+ msg] ∧
    disk s' =
      match last_run (disk s) with
      | Some _ => disk s
      | None => set_last_run (Some []) (disk s)
      end ∧
    open_conns s' = open_conns s ∧ open_cursors s' = open_cursors s.
Proof.
  intros Hc Hn. unfold create_db, initialize_db_connection.
  erewrite bind_run; cycle 1.
  { erewrite bind_run by (by apply connect_run). unfold open_cursor. st.
    reflexivity. }
  erewrite try_finally_run; cycle 1.
  - erewrite try_except_raise_caught; cycle 1.
    + erewrite bind_run by apply create_base_tables_run.
      erewrite bind_raise; [reflexivity|].
      unfold create_initial_table.
      erewrite bind_raise; [reflexivity|].
      by apply check_name_fail.
    + by left.
    + reflexivity.
  - apply close_run.
  - eexists. split; [reflexivity|]. st.
    destruct (last_run (disk s)); done.
Qed.

Lemma create_db_rejected_name_witness :
  ∃ s',
    create_db "a.b.db" "a.b" callback sample_dotted_name_world
      (start empty_store) = (Ok tt, s') ∧
    sink s' = [] ++ ["Error creating database tables: unknown database a"] ∧
    disk s' = set_last_run (Some []) empty_store ∧
    open_conns s' = 0%nat ∧ open_cursors s' = 0%nat.
Proof.
  apply (create_db_rejected_name sample_dotted_name_world "a.b.db" "a.b"
           (start empty_store) "unknown database a");
    reflexivity.
Defined.

(** ** A remote id that does not fit the store *)

Lemma sql_update_status_overflow w tn e s rows N pth loc :
  mains (work s) !! e = Some rows →
  fits_int64 N = false →
  sql_update_status tn e N pth loc w s =
  (Raise (mk_exn OverflowError
            "Python int too large to convert to SQLite INTEGER"),
   with_ticks (S (ticks s)) s).
Proof.
  intros Hm HN. unfold sql_update_status.
  erewrite bind_run by reflexivity.
  erewrite bind_run by reflexivity. st. rewrite Hm.
  erewrite bind_raise; [reflexivity|].
  apply bind_parameters_overflow.
  by etrans; [exact (values_fit_int_texts N [pth; loc])|].
Qed.

Lemma update_record_status_overflow w tn e s rows N vars p l :
  mains (work s) !! e = Some rows →
  var_path vars = Some p → var_locale vars = Some l → p ≠ "" → l ≠ "" →
  fits_int64 N = false →
  update_record_status tn e N vars w s =
  (Raise (mk_exn OverflowError
            "Python int too large to convert to SQLite INTEGER"),
   with_ticks (S (ticks s)) s).
Proof.
  intros Hm Hvp Hvl Hp Hl HN. unfold update_record_status.
  apply try_except_raise_missed.
  - rewrite Hvp, Hvl. cbn [is_blank].
    rewrite !bool_decide_eq_false_2 by done. cbn [orb].
    by eapply sql_update_status_overflow.
  - cbn [exn_cls]. rewrite !elem_of_cons, elem_of_nil. naive_solver.
Qed.

(** X30.  When the create mutation of a row succeeds with a remote id
    that does not fit an SQLite INTEGER, the UPDATE of
    [update_record_status] raises [OverflowError], which neither of its
    handlers names.  [process_record] reports the remote result and
    then ["Error while processing record: Python int too large to
    convert to SQLite INTEGER"]; no row is marked, and the follow-up
    mutation is not sent, although the page exists remotely. *)
Theorem push_remote_id_out_of_range (w : world) (table_name : string)
    (e : env) (s : state) (rows : list env_record) (row : push_row)
    (tgs p l : string) (code : Z) (text : string) (N : Z)
    (msg : option string) :
  mains (work s) !! e = Some rows →
  row_exp_article_id row = None →
  row_tags row = Some tgs →
  row_path row = Some p → row_locale row = Some l → p ≠ "" → l ≠ "" →
  remote_mutation w (requests s)
    (Create {| var_content := row_content row; var_locale := row_locale row;
               var_path := row_path row; var_tags := split_semicolon tgs;
               var_title := row_title row; var_id := None |})
    = success_reply code text
        {| md_create := Some {| pr_page_id := N; pr_message := msg |};
           md_update := None |} →
  is_http_error code = false →
  fits_int64 N = false →
  ∃ s',
    process_record table_name e row callback w s = (Ok tt, s') ∧
    work s' = work s ∧
    sink s' =
      sink s ++
      [record_message N msg;
       "Error while processing record: " +:+
       "Python int too large to convert to SQLite INTEGER"] ∧
    requests s' = S (requests s).
Proof.
  intros Hm Hexp Ht Hpath Hloc Hp Hl Hreply Hcode HN.
  unfold process_record, try_except_all.
  unfold prepare_record_variables. rewrite Ht, bind_ret.
  cbn beta iota zeta. rewrite Hexp. cbn [is_unsynced].
  unfold success_reply in Hreply.
  erewrite bind_run by (eapply execute_graphql_mutation_run; eassumption).
  cbn [mb_errors mb_data]. rewrite bind_ret. cbn [md_create md_update].
  repeat first [rewrite bind_assoc | rewrite bind_callback | rewrite bind_ret].
  erewrite bind_raise;
    [|eapply update_record_status_overflow;
        [st; eassumption|cbn; eassumption..]].
  eexists. split; [reflexivity|]. unfold callback, record_message. st.
  split; [done|]. split; [|done].
  by rewrite <- app_assoc.
Qed.

Lemma push_remote_id_out_of_range_witness :
  ∃ s',
    process_record "p" Dev (select_push_columns sample_row_a) callback
      sample_big_id_world (start sample_store) = (Ok tt, s') ∧
    work s' = sample_store ∧
    sink s' =
      [] ++
      [record_message (2 ^ 63) (Some "Page created");
       "Error while processing record: " +:+
       "Python int too large to convert to SQLite INTEGER"] ∧
    requests s' = 1%nat.
Proof.
  apply (push_remote_id_out_of_range sample_big_id_world "p" Dev
           (start sample_store) sample_rows
           (select_push_columns sample_row_a) "x;y" "/a" "en" 200 ""
           (2 ^ 63) (Some "Page created"));
    [reflexivity|reflexivity|reflexivity|reflexivity|reflexivity
    |discriminate|discriminate|reflexivity|reflexivity|reflexivity].
Defined.

